(** * meatcheck: the diff parser, the range model, the view projector and
      the selection / comment handlers, embedded from the Go sources

    Sources embedded here:
    - [internal/app/diff.go]   ([parseUnifiedDiff] and its helpers),
    - [internal/app/view.go]   ([normalizeRanges], [projectLineComments],
      [buildViewDiff], [buildViewLines], [updateView], ...),
    - [internal/app/app.go]    (the [select-line], [add-comment] and
      [cancel-comment] event handlers),
    - [internal/app/model.go]  (the records).

    Conventions.
    - A Go [int] is a [Z]; the build is taken to be a 64-bit one.  The sums
      that can leave the range of [int] (the line cursors of the parser,
      [last.End+1] in [normalizeRanges]) are wrapped by [GoInt.add]; an
      index below the length of a slice plus one, and [r.Start - 1] with
      [1 <= r.Start], are plain sums.
    - A Go [string] is a sequence of bytes: Rocq's [string].
    - A slice is a [list]; [append] adds at the end.  The difference between
      a nil slice and an empty one is not modelled.
    - A run-time panic (an index out of range) is [None].
    - External collaborators (the markdown renderer, the syntax
      highlighter, Unicode case folding) are Section variables.

    The first part holds the embedding, the second part the properties. *)

From Stdlib Require Import ZArith List String Ascii Bool Lia.
From Stdlib Require Import Sorting.Sorted Sorting.Permutation.
From Stdlib Require DecimalString.
From Stdlib Require Import Zbitwise.
From stdpp Require Import base tactics option list strings gmap sorting.

Local Open Scope Z_scope.

(* ===================================================================== *)
(** * Go integers *)
(* ===================================================================== *)

Module GoInt.

Definition MaxInt : Z := 2 ^ 63 - 1.
Definition MinInt : Z := - 2 ^ 63.

(** Two's complement wrap-around of a mathematical integer into [int]. *)
Definition wrap (z : Z) : Z := (z + 2 ^ 63) mod 2 ^ 64 - 2 ^ 63.

Definition add (a b : Z) : Z := wrap (a + b).

(** [x++] *)
Definition inc (a : Z) : Z := add a 1.

Definition in_range (z : Z) : Prop := MinInt <= z <= MaxInt.

End GoInt.

(* ===================================================================== *)
(** * The pieces of Go's [strings], [strconv] and [path/filepath] in use *)
(* ===================================================================== *)

Module GoStrings.

Definition LF : ascii := Ascii.ascii_of_nat 10.
Definition CR : ascii := Ascii.ascii_of_nat 13.

(** [strings.HasPrefix(s, p)] *)
Fixpoint HasPrefix (s p : string) {struct p} : bool :=
  match p with
  | EmptyString => true
  | String a p' =>
      match s with
      | EmptyString => false
      | String b s' => (Ascii.eqb a b && HasPrefix s' p')%bool
      end
  end.

(** [s[n:]] for [n <= len(s)] *)
Fixpoint drop_bytes (n : nat) (s : string) : string :=
  match n, s with
  | O, _ => s
  | S n', String _ r => drop_bytes n' r
  | S _, EmptyString => EmptyString
  end.

(** [strings.TrimPrefix(s, p)] *)
Definition TrimPrefix (s p : string) : string :=
  if HasPrefix s p then drop_bytes (String.length p) s else s.

(** [strings.ReplaceAll(s, "\r\n", "\n")]: left to right, without overlap. *)
Fixpoint ReplaceAll_CRLF (s : string) : string :=
  match s with
  | EmptyString => EmptyString
  | String c r =>
      match r with
      | String d r' =>
          if (Ascii.eqb c CR && Ascii.eqb d LF)%bool
          then String LF (ReplaceAll_CRLF r')
          else String c (ReplaceAll_CRLF r)
      | EmptyString => String c EmptyString
      end
  end.

(** [strings.Split(s, "\n")]: always at least one element. *)
Fixpoint Split_LF (s : string) : list string :=
  match s with
  | EmptyString => [EmptyString]
  | String c r =>
      if Ascii.eqb c LF then EmptyString :: Split_LF r
      else match Split_LF r with
           | l :: ls => String c l :: ls
           | [] => [String c EmptyString]
           end
  end.

(** [strings.Join(ls, sep)] *)
Fixpoint Join (ls : list string) (sep : string) : string :=
  match ls with
  | [] => EmptyString
  | [l] => l
  | l :: ls' => l +:+ sep +:+ Join ls' sep
  end.

(** ** [strings.TrimSpace]

    [TrimSpace] removes the leading and trailing runes for which
    [unicode.IsSpace] holds.  A rune decoded from UTF-8 is one of the white
    space runes exactly when the bytes at that place are its (unique)
    encoding, so trimming is stripping the byte sequences below. *)

Definition asciiSpace (c : ascii) : bool :=
  let n := nat_of_ascii c in
  ((9 <=? n)%nat && (n <=? 13)%nat || (n =? 32)%nat)%bool.

(** UTF-8 encodings of U+0085, U+00A0, U+1680, U+2000..U+200A, U+2028,
    U+2029, U+202F, U+205F and U+3000, as byte values. *)
Definition space2 (a b : nat) : bool :=
  ((a =? 194) && ((b =? 133) || (b =? 160)))%nat%bool.

Definition space3 (a b c : nat) : bool :=
  (((a =? 225) && (b =? 154) && (c =? 128))
   || ((a =? 226) && (b =? 128)
       && (((128 <=? c) && (c <=? 138)) || (c =? 168) || (c =? 169) || (c =? 175)))
   || ((a =? 226) && (b =? 129) && (c =? 159))
   || ((a =? 227) && (b =? 128) && (c =? 128)))%nat%bool.

(** Strips white space runes from the front of a byte list; [rev] tells
    that the list is a reversed string, its encodings read backwards. *)
Fixpoint strip_space (rev : bool) (l : list nat) : list nat :=
  match l with
  | a :: r =>
      if asciiSpace (ascii_of_nat a) && (a <? 128)%nat then strip_space rev r
      else match r with
           | b :: r' =>
               if (if rev then space2 b a else space2 a b) then strip_space rev r'
               else match r' with
                    | c :: r'' =>
                        if (if rev then space3 c b a else space3 a b c)
                        then strip_space rev r'' else l
                    | [] => l
                    end
           | [] => l
           end
  | [] => []
  end.

Definition bytes_of (s : string) : list nat :=
  List.map nat_of_ascii (list_ascii_of_string s).

Definition of_bytes (l : list nat) : string :=
  string_of_list_ascii (List.map ascii_of_nat l).

Definition TrimSpace (s : string) : string :=
  of_bytes (List.rev (strip_space true (List.rev (strip_space false (bytes_of s))))).

(** ** [strconv.Atoi], the value only *)

Definition is_digit (c : ascii) : bool :=
  let n := nat_of_ascii c in ((48 <=? n)%nat && (n <=? 57)%nat)%bool.

Definition digit_val (c : ascii) : Z := Z.of_nat (nat_of_ascii c) - 48.

Definition maxUint64 : Z := 2 ^ 64 - 1.

(** The digit loop of [strconv.ParseUint(s, 10, 64)]: [inl] is a syntax
    error, [inr (n, range)] a value with the range-error flag. *)
Fixpoint ParseUint_loop (n : Z) (s : string) : unit + (Z * bool) :=
  match s with
  | EmptyString => inr (n, false)
  | String c r =>
      if negb (is_digit c) then inl tt
      else if maxUint64 / 10 + 1 <=? n then inr (maxUint64, true)
      else let n1 := n * 10 + digit_val c in
           if maxUint64 <? n1 then inr (maxUint64, true)
           else ParseUint_loop n1 r
  end.

Definition ParseUint (s : string) : unit + (Z * bool) :=
  match s with
  | EmptyString => inl tt
  | _ => ParseUint_loop 0 s
  end.

(** [strconv.ParseInt(s, 10, 0)]: value and "an error was returned". *)
Definition ParseInt (s : string) : Z * bool :=
  match s with
  | EmptyString => (0, true)
  | String c r =>
      let neg := Ascii.eqb c "-" in
      let s' := if (Ascii.eqb c "+" || neg)%bool then r else s in
      match ParseUint s' with
      | inl _ => (0, true)
      | inr (un, rng) =>
          let cutoff := 2 ^ 63 in
          if (negb neg && (cutoff <=? un))%bool then (cutoff - 1, true)
          else if (neg && (cutoff <? un))%bool then (- cutoff, true)
          else (if neg then - un else un, rng)
      end
  end.

(** [strconv.Atoi]: its short-string fast path computes the same value
    and error as [ParseInt]. *)
Definition Atoi (s : string) : Z * bool := ParseInt s.

(** ** [fmt.Sprintf("%d", n)] *)
Definition itoa (n : Z) : string :=
  DecimalString.NilZero.string_of_int (Z.to_int n).

(** ** [filepath.ToSlash] on a build whose separator is a slash *)
Definition Separator : ascii := "/".

Fixpoint replace_byte (from to : ascii) (s : string) : string :=
  match s with
  | EmptyString => EmptyString
  | String c r => String (if Ascii.eqb c from then to else c) (replace_byte from to r)
  end.

Definition ToSlash (path : string) : string :=
  if Ascii.eqb Separator "/" then path else replace_byte Separator "/" path.

(** [filepath.Ext]: the suffix from the last dot of the last path element. *)
Fixpoint Ext_rev (acc : list ascii) (l : list ascii) : string :=
  match l with
  | [] => EmptyString
  | c :: r =>
      if Ascii.eqb c Separator then EmptyString
      else if Ascii.eqb c "." then string_of_list_ascii (c :: acc)
      else Ext_rev (c :: acc) r
  end.

Definition Ext (path : string) : string :=
  Ext_rev [] (List.rev (list_ascii_of_string path)).

End GoStrings.

Import GoStrings.

(* ===================================================================== *)
(** * diff.go: the diff model and [parseUnifiedDiff] *)
(* ===================================================================== *)

(** [type DiffLineKind string] with its three constants. *)
Definition DiffLineKind := string.
Definition DiffContext : DiffLineKind := "context".
Definition DiffAdd : DiffLineKind := "add".
Definition DiffDel : DiffLineKind := "del".

Record DiffLine := mkDiffLine {
  Kind : DiffLineKind;
  OldLine : Z;
  NewLine : Z;
  Text : string
}.

Record DiffHunk := mkDiffHunk {
  OldStart : Z;
  OldCount : Z;
  NewStart : Z;
  NewCount : Z;
  Lines : list DiffLine
}.

Record DiffFile := mkDiffFile {
  OldPath : string;
  NewPath : string;
  DPath : string;          (* the field [Path] *)
  Hunks : list DiffHunk
}.

(** The zero value [DiffFile{}]. *)
Definition emptyDiffFile : DiffFile := mkDiffFile "" "" "" [].

Definition mustAtoi (s : string) : Z :=
  let n := fst (Atoi s) in
  if n =? 0 then 0 else n.

Definition parseOptionalCount (s : string) : Z :=
  if String.eqb s "" then 1 else mustAtoi s.

Definition normalizeDiffPath (path : string) : string :=
  if String.eqb path "/dev/null" then ""
  else
    let path := if (HasPrefix path "a/" || HasPrefix path "b/")%bool
                then drop_bytes 2 path else path in
    let path := TrimPrefix path "./" in
    ToSlash path.

Definition pickDiffPath (oldPath newPath : string) : string :=
  if negb (String.eqb newPath "") then newPath else oldPath.

(** ** The hunk header pattern

    [hunkHeaderRE] is [^@@ -(\d+)(?:,(\d+))? \+(\d+)(?:,(\d+))? @@].  Every
    repetition of digits is followed by a byte that is not a digit, and an
    optional group starts with a comma where the pattern goes on with a
    space, so at most one way of matching exists and the matcher below
    follows the pattern from left to right.  [\d] is an ASCII digit. *)

Fixpoint span_digits (s : string) : string * string :=
  match s with
  | String c r =>
      if is_digit c then let '(d, rest) := span_digits r in (String c d, rest)
      else (EmptyString, s)
  | EmptyString => (EmptyString, EmptyString)
  end.

(** Consumes the literal [p] at the front of [s]. *)
Definition lit (p s : string) : option string :=
  if HasPrefix s p then Some (drop_bytes (String.length p) s) else None.

(** [(\d+)] *)
Definition digits1 (s : string) : option (string * string) :=
  let '(d, rest) := span_digits s in
  if String.eqb d "" then None else Some (d, rest).

(** [(?:,(\d+))?]: an unmatched group reports the empty string. *)
Definition opt_count (s : string) : string * string :=
  match lit "," s with
  | Some r =>
      match digits1 r with
      | Some (d, rest) => (d, rest)
      | None => (EmptyString, s)
      end
  | None => (EmptyString, s)
  end.

(** [hunkHeaderRE.FindStringSubmatch(raw)]: the four groups, or [None]
    for a nil result. *)
Definition hunkHeaderRE (raw : string) : option (string * string * string * string) :=
  r1 ← lit "@@ -" raw;
  '(m1, r2) ← digits1 r1;
  let '(m2, r3) := opt_count r2 in
  r4 ← lit " +" r3;
  '(m3, r5) ← digits1 r4;
  let '(m4, r6) := opt_count r5 in
  _ ← lit " @@" r6;
  Some (m1, m2, m3, m4).

(** ** The scanning loop

    The local variables of [parseUnifiedDiff].  [curHunk] points at an
    element of [curFile.Hunks]; it is kept as the index of that element.
    In every state the loop reaches, an open hunk goes with a current file
    that holds it at that index ([inv_hunk] of [parse_inv]). *)
Record pstate := mkPState {
  files : list DiffFile;
  curFile : option DiffFile;
  curHunk : option nat;
  oldLine : Z;
  newLine : Z
}.

Definition initial : pstate := mkPState [] None None 0 0.

(** The closure [flushFile]. *)
Definition flushFile (st : pstate) : pstate :=
  match curFile st with
  | None => st
  | Some f => mkPState (files st ++ [f]) None None (oldLine st) (newLine st)
  end.

(** [if curFile == nil { curFile = &DiffFile{} }] *)
Definition ensureFile (st : pstate) : DiffFile :=
  match curFile st with
  | Some f => f
  | None => emptyDiffFile
  end.

(** [curHunk.Lines = append(curHunk.Lines, dl)] for [curHunk] at index [i]. *)
Definition appendLine (i : nat) (dl : DiffLine) (f : DiffFile) : DiffFile :=
  mkDiffFile (OldPath f) (NewPath f) (DPath f)
    (alter (fun h => mkDiffHunk (OldStart h) (OldCount h) (NewStart h) (NewCount h)
                       (Lines h ++ [dl])) i (Hunks f)).

(** What a body line appends, and which cursors move. *)
Definition emit (st : pstate) (i : nat) (dl : DiffLine) (old new : bool) : pstate :=
  mkPState (files st) (appendLine i dl <$> curFile st) (curHunk st)
    (if old then GoInt.inc (oldLine st) else oldLine st)
    (if new then GoInt.inc (newLine st) else newLine st).

(** One iteration of [for _, raw := range lines]: [inl msg] is the early
    [return nil, fmt.Errorf(...)], [inr st'] the state at the next
    iteration. *)
Definition step (st : pstate) (raw : string) : string + pstate :=
  if HasPrefix raw "diff --git " then
    let st := flushFile st in
    inr (mkPState (files st) (Some emptyDiffFile) (curHunk st) (oldLine st) (newLine st))
  else if HasPrefix raw "--- " then
    let path := TrimSpace (TrimPrefix raw "--- ") in
    let f := ensureFile st in
    inr (mkPState (files st)
           (Some (mkDiffFile (normalizeDiffPath path) (NewPath f) (DPath f) (Hunks f)))
           (curHunk st) (oldLine st) (newLine st))
  else if HasPrefix raw "+++ " then
    let path := TrimSpace (TrimPrefix raw "+++ ") in
    let f := ensureFile st in
    let np := normalizeDiffPath path in
    inr (mkPState (files st)
           (Some (mkDiffFile (OldPath f) np (pickDiffPath (OldPath f) np) (Hunks f)))
           (curHunk st) (oldLine st) (newLine st))
  else if HasPrefix raw "@@ " then
    let f := ensureFile st in
    match hunkHeaderRE raw with
    | None => inl ("invalid hunk header: " +:+ raw)
    | Some (m1, m2, m3, m4) =>
        let oldStart := mustAtoi m1 in
        let oldCount := parseOptionalCount m2 in
        let newStart := mustAtoi m3 in
        let newCount := parseOptionalCount m4 in
        let h := mkDiffHunk oldStart oldCount newStart newCount [] in
        let hs := Hunks f ++ [h] in
        inr (mkPState (files st)
               (Some (mkDiffFile (OldPath f) (NewPath f) (DPath f) hs))
               (Some (length hs - 1)%nat) oldStart newStart)
    end
  else
    match curHunk st with
    | None => inr st
    | Some i =>
        if HasPrefix raw "\ No newline at end of file" then inr st
        else
          match raw with
          | EmptyString =>
              inr (emit st i (mkDiffLine DiffContext (oldLine st) (newLine st) "") true true)
          | String prefix text =>
              if Ascii.eqb prefix " " then
                inr (emit st i (mkDiffLine DiffContext (oldLine st) (newLine st) text) true true)
              else if Ascii.eqb prefix "+" then
                inr (emit st i (mkDiffLine DiffAdd 0 (newLine st) text) false true)
              else if Ascii.eqb prefix "-" then
                inr (emit st i (mkDiffLine DiffDel (oldLine st) 0 text) true false)
              else
                inr (emit st i (mkDiffLine DiffContext (oldLine st) (newLine st) raw) true true)
          end
    end.

(** The [for] loop over the lines. *)
Fixpoint scan (st : pstate) (lines : list string) : string + pstate :=
  match lines with
  | [] => inr st
  | raw :: rest =>
      match step st raw with
      | inl msg => inl msg
      | inr st' => scan st' rest
      end
  end.

(** [strings.Split(strings.ReplaceAll(input, "\r\n", "\n"), "\n")] *)
Definition input_lines (input : string) : list string :=
  Split_LF (ReplaceAll_CRLF input).

(** [parseUnifiedDiff]: the pair of results, the error being [None] for
    [nil]; on an error the slice is nil. *)
Definition parseUnifiedDiff (input : string) : list DiffFile * option string :=
  match scan initial (input_lines input) with
  | inl msg => ([], Some msg)
  | inr st => (files (flushFile st), None)
  end.

(* ===================================================================== *)
(** * model.go: the records *)
(* ===================================================================== *)

(** [template.HTML] *)
Definition HTML := string.

(** [Comment]; the Go fields are [Path], [StartLine], [EndLine], [Text]. *)
Record Comment := mkComment {
  CPath : string;
  StartLine : Z;
  EndLine : Z;
  CText : string
}.

(** [File]; the Go fields are [Path], [PathSlash], [Lines]. *)
Record File := mkFile {
  FPath : string;
  PathSlash : string;
  FLines : list string
}.

Record TreeItem := mkTreeItem {
  TName : string;
  TPath : string;
  Depth : Z;
  IsDir : bool;
  TSelected : bool
}.

(** [ViewComment] embeds a [Comment]. *)
Record ViewComment := mkViewComment {
  VComment : Comment;
  Rendered : HTML
}.

Record ViewLine := mkViewLine {
  Number : Z;
  VText : string;
  VHTML : HTML;
  Selected : bool;
  Commented : bool;
  Comments : list ViewComment
}.

Record ViewFile := mkViewFile {
  VFPath : string;
  VFLines : list ViewLine;
  MarkdownFile : bool;
  MarkdownRendered : bool;
  MarkdownHTML : HTML
}.

(** [type ViewMode string] *)
Definition ViewMode := string.
Definition ModeFile : ViewMode := "file".
Definition ModeDiff : ViewMode := "diff".

Record ViewDiffLine := mkViewDiffLine {
  VDKind : DiffLineKind;
  VDOldLine : Z;
  VDNewLine : Z;
  VDText : string;
  VDHTML : HTML;
  VDSelected : bool;
  VDCommented : bool;
  VDComments : list ViewComment
}.

Record ViewDiffHunk := mkViewDiffHunk {
  Header : string;
  VDLines : list ViewDiffLine
}.

Record ViewDiffFile := mkViewDiffFile {
  VDPath : string;
  VDHunks : list ViewDiffHunk
}.

(** [LineRange]; the Go fields are [Start] and [End]. *)
Record LineRange := mkLineRange {
  RStart : Z;
  REnd : Z
}.

Record ReviewModel := mkReviewModel {
  Files : list File;
  DiffFiles : list DiffFile;
  Tree : list TreeItem;
  SelectedPath : string;
  SelectedLabel : string;
  CodeViewKey : string;
  Mode : ViewMode;
  RenderFile : bool;
  RenderComments : bool;
  Prompt : string;
  PromptHTML : HTML;
  SelectionStart : Z;
  SelectionEnd : Z;
  CommentDraft : string;
  MComments : list Comment;
  Ranges : gmap string (list LineRange);
  MarkdownRenderByPath : gmap string bool;
  MViewFile : ViewFile;
  MViewDiff : ViewDiffFile;
  Error : string
}.

(* ===================================================================== *)
(** * view.go: ranges *)
(* ===================================================================== *)

(** [s[i]] for an [int] index: [None] is the run-time panic. *)
Definition index {A} (l : list A) (i : Z) : option A :=
  if i <? 0 then None else l !! Z.to_nat i.

(** [len(s)] *)
Definition len {A} (l : list A) : Z := Z.of_nat (length l).

(** The first loop of [normalizeRanges], one iteration. *)
Definition clean_step (cleaned : list LineRange) (r : LineRange) : list LineRange :=
  if ((RStart r <=? 0) || (REnd r <=? 0))%bool then cleaned
  else
    let r := if REnd r <? RStart r then mkLineRange (REnd r) (RStart r) else r in
    cleaned ++ [r].

(** The [less] closure given to [sort.Slice]. *)
Definition range_less (a b : LineRange) : bool :=
  if RStart a =? RStart b then REnd a <? REnd b else RStart a <? RStart b.

(** [sort.Slice(cleaned, less)].  [less] compares the whole value, so the
    sorted slice does not depend on the algorithm (see [sort_Slice_unique]);
    insertion is used here. *)
Fixpoint insert_range (r : LineRange) (l : list LineRange) : list LineRange :=
  match l with
  | [] => [r]
  | x :: l' => if range_less x r then x :: insert_range r l' else r :: l
  end.

Fixpoint sort_Slice (l : list LineRange) : list LineRange :=
  match l with
  | [] => []
  | x :: l' => insert_range x (sort_Slice l')
  end.

(** The second loop of [normalizeRanges], one iteration; [last] is
    [&merged[len(merged)-1]]. *)
Definition merge_step (merged : list LineRange) (r : LineRange) : option (list LineRange) :=
  let i := len merged - 1 in
  lst ← index merged i;
  if RStart r <=? GoInt.add (REnd lst) 1 then
    if REnd lst <? REnd r
    then Some (alter (fun l => mkLineRange (RStart l) (REnd r)) (Z.to_nat i) merged)
    else Some merged
  else Some (merged ++ [r]).

(** [for _, x := range xs] threading an accumulator through a body that
    may panic. *)
Fixpoint for_each {A S} (body : S -> A -> option S) (xs : list A) (acc : S) : option S :=
  match xs with
  | [] => Some acc
  | x :: r => acc' ← body acc x; for_each body r acc'
  end.

Definition normalizeRanges (ranges : list LineRange) : option (list LineRange) :=
  if len ranges =? 0 then Some []
  else
    let cleaned := fold_left clean_step ranges [] in
    if len cleaned =? 0 then Some []
    else
      let cleaned := sort_Slice cleaned in
      c0 ← index cleaned 0;
      for_each merge_step (List.tl cleaned) [c0].

(** [fmt.Sprintf("%d-%d", r.Start, r.End)] *)
Definition range_label (r : LineRange) : string :=
  itoa (RStart r) +:+ "-" +:+ itoa (REnd r).

Definition formatSelectedLabel (path : string) (ranges : list LineRange) : option string :=
  if len ranges =? 0 then Some path
  else
    norm ← normalizeRanges ranges;
    let parts := fold_left (fun parts r => parts ++ [range_label r]) norm [] in
    Some (path +:+ " (lines " +:+ Join parts ", " +:+ ")").

(* ===================================================================== *)
(** * view.go: the projector *)
(* ===================================================================== *)

Definition findDiffFile (files : list DiffFile) (path : string) : option DiffFile :=
  List.find (fun f => String.eqb (DPath f) path) files.

Definition hasDiffFile (files : list DiffFile) (path : string) : bool :=
  bool_decide (is_Some (findDiffFile files path)).

(** tree.go *)
Definition findFile (files : list File) (path : string) : option File :=
  List.find (fun f => String.eqb (FPath f) path) files.

(** The two nested loops return [true] at the first line that matches. *)
Definition diffLineExists (files : list DiffFile) (path : string) (line : Z) : bool :=
  match findDiffFile files path with
  | None => false
  | Some file =>
      existsb (fun h =>
        existsb (fun dl => (NewLine dl =? line) && negb (String.eqb (Kind dl) DiffDel))%bool
                (Lines h))
        (Hunks file)
  end.

(** [selectable := dl.NewLine > 0 && dl.Kind != DiffDel] in [buildViewDiff]. *)
Definition selectable (dl : DiffLine) : bool :=
  ((0 <? NewLine dl) && negb (String.eqb (Kind dl) DiffDel))%bool.

(** [fmt.Sprintf("@@ -%d,%d +%d,%d @@", ...)] *)
Definition hunk_header (h : DiffHunk) : string :=
  "@@ -" +:+ itoa (OldStart h) +:+ "," +:+ itoa (OldCount h) +:+
  " +" +:+ itoa (NewStart h) +:+ "," +:+ itoa (NewCount h) +:+ " @@".

(** [for i, x := range xs] threading an accumulator. *)
Fixpoint for_range {A S} (body : S -> Z -> A -> S) (i : Z) (xs : list A) (acc : S) : S :=
  match xs with
  | [] => acc
  | x :: r => for_range body (i + 1) r (body acc i x)
  end.

(* ===================================================================== *)
(** * io_helpers.go: [ParseRangeFlag] *)
(* ===================================================================== *)

(** The first [sep] of [s]: what is before it and what is after it. *)
Fixpoint cut (sep : ascii) (s : string) : option (string * string) :=
  match s with
  | EmptyString => None
  | String c r =>
      if Ascii.eqb c sep then Some (EmptyString, r)
      else match cut sep r with
           | Some (a, b) => Some (String c a, b)
           | None => None
           end
  end.

(** [strings.SplitN(s, sep, 2)] for a separator of one byte: the whole
    string when it has no separator, else the two sides of the first. *)
Definition SplitN2 (s : string) (sep : ascii) : list string :=
  match cut sep s with
  | Some (a, b) => [a; b]
  | None => [s]
  end.

(** [fmt.Errorf("invalid range: %s", val)] *)
Definition invalid_range (val : string) : string := "invalid range: " +:+ val.

(** The body of the loop of [ParseRangeFlag]; [inl] is the error that is
    returned. *)
Definition range_flag_step (ranges : gmap string (list LineRange)) (val : string)
    : string + gmap string (list LineRange) :=
  let val := TrimSpace val in
  if String.eqb val "" then inr ranges
  else
    match SplitN2 val ":" with
    | [path; r] =>
        match SplitN2 r "-" with
        | [seg0; seg1] =>
            let start := mustAtoi seg0 in
            let end_ := mustAtoi seg1 in
            if ((start =? 0) || (end_ =? 0))%bool then inl (invalid_range val)
            else
              let '(start, end_) :=
                if end_ <? start then (end_, start) else (start, end_) in
              inr (<[path := default [] (ranges !! path) ++ [mkLineRange start end_]]>
                     ranges)
        | _ => inl (invalid_range val)
        end
    | _ => inl (invalid_range val)
    end.

(** [for _, x := range xs] with a body that may return an error. *)
Fixpoint try_each {E A S} (body : S -> A -> E + S) (xs : list A) (acc : S) : E + S :=
  match xs with
  | [] => inr acc
  | x :: r =>
      match body acc x with
      | inl e => inl e
      | inr acc' => try_each body r acc'
      end
  end.

(** The map is nil when there are no values, and is only read afterwards. *)
Definition ParseRangeFlag (values : list string) : string + gmap string (list LineRange) :=
  if len values =? 0 then inr ∅
  else try_each range_flag_step values ∅.

(* ===================================================================== *)
(** * tree.go: [buildTree] *)
(* ===================================================================== *)

(** [strings.Split(s, sep)] for a separator of one byte: always at least
    one element. *)
Fixpoint Split_byte (sep : ascii) (s : string) : list string :=
  match s with
  | EmptyString => [EmptyString]
  | String c r =>
      if Ascii.eqb c sep then EmptyString :: Split_byte sep r
      else match Split_byte sep r with
           | l :: ls => String c l :: ls
           | [] => [String c EmptyString]
           end
  end.

(** [treeNode].  [Children] is a map from names to nodes: [None] is the nil
    map of a file node, which reads as empty and panics when assigned to;
    the list holds one entry for a key.  [File] is nil or points at an
    element of [files], which is not written to. *)
#[warnings="-register-all"]
Inductive treeNode : Type :=
  mkTreeNode (name path : string) (isDir : bool)
             (children : option (list (string * treeNode))) (file : option File).

Definition NName (n : treeNode) : string := let 'mkTreeNode x _ _ _ _ := n in x.
Definition NPath (n : treeNode) : string := let 'mkTreeNode _ x _ _ _ := n in x.
Definition NIsDir (n : treeNode) : bool := let 'mkTreeNode _ _ x _ _ := n in x.
Definition Children (n : treeNode) : option (list (string * treeNode)) :=
  let 'mkTreeNode _ _ _ x _ := n in x.
Definition NFile (n : treeNode) : option File := let 'mkTreeNode _ _ _ _ x := n in x.

(** [m[k]] *)
Fixpoint child (k : string) (m : list (string * treeNode)) : option treeNode :=
  match m with
  | [] => None
  | (k', v) :: r => if String.eqb k' k then Some v else child k r
  end.

(** [m[k] = v] on a map that is not nil. *)
Fixpoint set_child (k : string) (v : treeNode) (m : list (string * treeNode))
    : list (string * treeNode) :=
  match m with
  | [] => [(k, v)]
  | (k', v') :: r => if String.eqb k' k then (k, v) :: r else (k', v') :: set_child k v r
  end.

(** The node [n] after [n.Children = m]. *)
Definition with_children (n : treeNode) (m : list (string * treeNode)) : treeNode :=
  mkTreeNode (NName n) (NPath n) (NIsDir n) (Some m) (NFile n).

Definition joinPath (dir name : string) : string :=
  if String.eqb dir "" then name else dir +:+ "/" +:+ name.

(** The inner loop of [buildTree] over [parts[:len(parts)-1]] and the
    assignment of the file node after it, as they change the node [cur]
    and the nodes below it.  The nodes are reached through pointers and no
    node has two parents, so writing below [next] is writing the entry of
    [cur] again.  [None] is the panic of an assignment to an entry of a
    nil map. *)
Fixpoint place (dirs : list string) (fileName : string) (node : treeNode)
    (cur : treeNode) : option treeNode :=
  match dirs with
  | [] =>
      match Children cur with
      | None => None
      | Some ch => Some (with_children cur (set_child fileName node ch))
      end
  | name :: dirs' =>
      if String.eqb name "" then place dirs' fileName node cur
      else
        match Children cur with
        | None => None
        | Some ch =>
            let next :=
              match child name ch with
              | Some next => next
              | None => mkTreeNode name (joinPath (NPath cur) name) true (Some []) None
              end in
            next' ← place dirs' fileName node next;
            Some (with_children cur (set_child name next' ch))
        end
  end.

(** One iteration of [for i := range files]. *)
Definition add_file (root : treeNode) (f : File) : option treeNode :=
  let pathSlash := PathSlash f in
  let parts := Split_byte "/" pathSlash in
  let fileName := List.last parts "" in
  place (List.removelast parts) fileName
        (mkTreeNode fileName pathSlash false None (Some f)) root.

(** The [less] closure of [walk]. *)
Definition tree_less (a b : treeNode) : bool :=
  if negb (Bool.eqb (NIsDir a) (NIsDir b)) then NIsDir a
  else String.ltb (NName a) (NName b).

(** [sort.Slice] by a [less] that orders the elements strictly: the names
    of the children of a node are the keys of its map, so no two children
    compare equal and the sorted slice does not depend on the algorithm or
    on the order in which the map is ranged over. *)
Fixpoint insert_by {A} (less : A -> A -> bool) (x : A) (l : list A) : list A :=
  match l with
  | [] => [x]
  | y :: l' => if less y x then y :: insert_by less x l' else x :: l
  end.

Fixpoint sort_by {A} (less : A -> A -> bool) (l : list A) : list A :=
  match l with
  | [] => []
  | x :: l' => insert_by less x (sort_by less l')
  end.

(** The item that [walk] appends for a node. *)
Definition tree_item (selectedPath : string) (depth : Z) (n : treeNode) : TreeItem :=
  mkTreeItem (NName n)
    (match NFile n with Some f => FPath f | None => "" end)
    depth (NIsDir n)
    (match NFile n with Some f => String.eqb (FPath f) selectedPath | None => false end).

(** The items that [walk(n, depth)] appends to [items]: the item of the
    node unless it is the root, then those of its children in sorted
    order.  Each child is paired with the items of its walk before the
    sort; [depth] is bounded by the number of path elements. *)
Fixpoint walk (selectedPath : string) (is_root : bool) (depth : Z) (n : treeNode)
    {struct n} : list TreeItem :=
  match n with
  | mkTreeNode name path isDir children file =>
      let subs :=
        match children with
        | None => []
        | Some ch =>
            List.map (fun kc : string * treeNode =>
                        let (_, c) := kc in (c, walk selectedPath false (depth + 1) c)) ch
        end in
      (if is_root then [] else [tree_item selectedPath depth n]) ++
      concat (List.map snd (sort_by (fun a b => tree_less (fst a) (fst b)) subs))
  end.

Definition buildTree (files : list File) (selectedPath : string) : option (list TreeItem) :=
  let root := mkTreeNode "" "" true (Some []) None in
  root ← for_each add_file files root;
  Some (walk selectedPath true (-1) root).

Definition hasFile (files : list File) (path : string) : bool :=
  existsb (fun f => String.eqb (FPath f) path) files.

(** view.go *)
Definition diffFilesAsFiles (diffFiles : list DiffFile) : list File :=
  fold_left (fun files df => files ++ [mkFile (DPath df) (ToSlash (DPath df)) []])
            diffFiles [].

(* ===================================================================== *)
(** * internal/highlight: the lines of the highlighted HTML *)
(* ===================================================================== *)

Module utf8.

(** Bytes and runes are numbers. *)
Definition byte_of (c : ascii) : Z := Z.of_nat (nat_of_ascii c).
Definition ascii_of_byte (b : Z) : ascii := ascii_of_nat (Z.to_nat b).

(** [byte(x)] *)
Definition byte (x : Z) : Z := x mod 256.

Definition RuneError : Z := 65533.
Definition MaxRune : Z := 1114111.
Definition surrogateMin : Z := 55296.
Definition surrogateMax : Z := 57343.
Definition rune1Max : Z := 127.
Definition rune2Max : Z := 2047.
Definition rune3Max : Z := 65535.
Definition t2 : Z := 192.
Definition t3 : Z := 224.
Definition t4 : Z := 240.
Definition tx : Z := 128.
Definition maskx : Z := 63.
Definition mask2 : Z := 31.
Definition mask3 : Z := 15.
Definition mask4 : Z := 7.
Definition locb : Z := 128.
Definition hicb : Z := 191.

(** The table [first]: [as] is 0xF0, [xx] is 0xF1, [s1] .. [s7] are 0x02,
    0x13, 0x03, 0x23, 0x34, 0x04, 0x44. *)
Definition as_ : Z := 240.
Definition first (b : Z) : Z :=
  if b <? 128 then 240
  else if b <? 194 then 241
  else if b <? 224 then 2
  else if b =? 224 then 19
  else if b <? 237 then 3
  else if b =? 237 then 35
  else if b <? 240 then 3
  else if b =? 240 then 52
  else if b <? 244 then 4
  else if b =? 244 then 68
  else 241.

(** The table [acceptRanges], as [(lo, hi)]. *)
Definition acceptRanges (i : Z) : Z * Z :=
  if i =? 0 then (locb, hicb)
  else if i =? 1 then (160, hicb)
  else if i =? 2 then (locb, 159)
  else if i =? 3 then (144, hicb)
  else if i =? 4 then (locb, 143)
  else (0, 0).

(** [utf8.DecodeRuneInString]: the rune and its width.  [rune(x) << 31 >>
    31] is 0 for [as] and -1 for [xx]. *)
Definition DecodeRuneInString (s : string) : Z * nat :=
  match s with
  | EmptyString => (RuneError, 0%nat)
  | String c0 t =>
      let s0 := byte_of c0 in
      let x := first s0 in
      if as_ <=? x then
        let mask := - (x mod 2) in
        (Z.lor (Z.land s0 (Z.lnot mask)) (Z.land RuneError mask), 1%nat)
      else
        let sz := Z.land x 7 in
        let accept := acceptRanges (Z.shiftr x 4) in
        if Z.of_nat (String.length s) <? sz then (RuneError, 1%nat)
        else
          match t with
          | EmptyString => (RuneError, 1%nat)
          | String c1 t1 =>
              let s1 := byte_of c1 in
              if ((s1 <? fst accept) || (snd accept <? s1))%bool then (RuneError, 1%nat)
              else if sz <=? 2 then
                (Z.lor (Z.shiftl (Z.land s0 mask2) 6) (Z.land s1 maskx), 2%nat)
              else
                match t1 with
                | EmptyString => (RuneError, 1%nat)
                | String c2 t2 =>
                    let s2 := byte_of c2 in
                    if ((s2 <? locb) || (hicb <? s2))%bool then (RuneError, 1%nat)
                    else if sz <=? 3 then
                      (Z.lor (Z.lor (Z.shiftl (Z.land s0 mask3) 12)
                                    (Z.shiftl (Z.land s1 maskx) 6))
                             (Z.land s2 maskx), 3%nat)
                    else
                      match t2 with
                      | EmptyString => (RuneError, 1%nat)
                      | String c3 _ =>
                          let s3 := byte_of c3 in
                          if ((s3 <? locb) || (hicb <? s3))%bool then (RuneError, 1%nat)
                          else
                            (Z.lor (Z.lor (Z.lor (Z.shiftl (Z.land s0 mask4) 18)
                                                 (Z.shiftl (Z.land s1 maskx) 12))
                                          (Z.shiftl (Z.land s2 maskx) 6))
                                   (Z.land s3 maskx), 4%nat)
                      end
                end
          end
  end.

(** The runes of [for _, r := range s]: one for every valid encoding and
    [RuneError] for every other byte.  A rune is at least one byte wide,
    so the loop runs at most [len(s)] times. *)
Fixpoint runes_from (n : nat) (s : string) : list Z :=
  match n, s with
  | S n', String _ _ =>
      let '(r, w) := DecodeRuneInString s in
      r :: runes_from n' (drop_bytes w s)
  | _, _ => []
  end.

Definition runes (s : string) : list Z := runes_from (String.length s) s.

Definition bytes (l : list Z) : string :=
  string_of_list_ascii (List.map ascii_of_byte l).

Definition encode3 (r : Z) : string :=
  bytes [Z.lor t3 (byte (Z.shiftr r 12));
         Z.lor tx (Z.land (byte (Z.shiftr r 6)) maskx);
         Z.lor tx (Z.land (byte r) maskx)].

(** [utf8.AppendRune] to an empty slice: what [WriteRune] writes. *)
Definition AppendRune (r : Z) : string :=
  let i := r mod 2 ^ 32 in
  if i <=? rune1Max then bytes [byte r]
  else if i <=? rune2Max then
    bytes [Z.lor t2 (byte (Z.shiftr r 6)); Z.lor tx (Z.land (byte r) maskx)]
  else if ((MaxRune <? i) || ((surrogateMin <=? i) && (i <=? surrogateMax)))%bool then
    encode3 RuneError
  else if i <=? rune3Max then encode3 r
  else
    bytes [Z.lor t4 (byte (Z.shiftr r 18));
           Z.lor tx (Z.land (byte (Z.shiftr r 12)) maskx);
           Z.lor tx (Z.land (byte (Z.shiftr r 6)) maskx);
           Z.lor tx (Z.land (byte r) maskx)].

End utf8.

(** [strings.Index(s, substr)]: the offset of the first occurrence. *)
Fixpoint Index (s substr : string) : option nat :=
  if HasPrefix s substr then Some 0%nat
  else match s with
       | EmptyString => None
       | String _ r => option_map S (Index r substr)
       end.

(** [s[:n]] for [n <= len(s)] *)
Fixpoint take_bytes (n : nat) (s : string) : string :=
  match n, s with
  | S n', String c r => String c (take_bytes n' r)
  | _, _ => EmptyString
  end.

(** [strings.ReplaceAll(s, old, new)] for an [old] of one byte. *)
Fixpoint ReplaceAll_byte (old : ascii) (new : string) (s : string) : string :=
  match s with
  | EmptyString => EmptyString
  | String c r =>
      if Ascii.eqb c old then new +:+ ReplaceAll_byte old new r
      else String c (ReplaceAll_byte old new r)
  end.

Module highlight.

Definition TAB : ascii := Ascii.ascii_of_nat 9.
Definition quote : string := String (Ascii.ascii_of_nat 34) EmptyString.

Definition nbsp : string := "&nbsp;".
Definition zwsp : string := "&#8203;".
Definition spanClose : string := "</span>".

(** The constants of [extractChromaLines]. *)
Definition lineOpen : string := "<span class=" +:+ quote +:+ "line" +:+ quote +:+ ">".
Definition clOpen : string := "<span class=" +:+ quote +:+ "cl" +:+ quote +:+ ">".
Definition lineClose : string := "</span></span>".
Definition chromaOpen : string := "<span class=" +:+ quote +:+ "chroma" +:+ quote +:+ ">".

(** The literal that opens [whitespaceSpanRE]. *)
Definition wOpen : string := "<span class=" +:+ quote +:+ "w" +:+ quote +:+ ">".

(** The function given to [ReplaceAllStringFunc], from [content := sub[1]]
    on. *)
Definition whitespace_span (content : string) : string :=
  let content := ReplaceAll_byte TAB (nbsp +:+ nbsp +:+ nbsp +:+ nbsp) content in
  let content := ReplaceAll_byte " " nbsp content in
  let content := if String.eqb content "" then nbsp else content in
  let content := content +:+ zwsp in
  wOpen +:+ content +:+ spanClose.

(** The match of [whitespaceSpanRE] that starts where [s] starts: the
    group.  The lazy [.*?] ends at the first [</span>], and a dot takes no
    line feed.  An ASCII byte never lies inside the encoding of a rune, so
    the places are found byte by byte. *)
Definition span_at (s : string) : option string :=
  if HasPrefix s wOpen then
    let rest := drop_bytes (String.length wOpen) s in
    match Index rest spanClose with
    | Some j =>
        let content := take_bytes j rest in
        if existsb (Ascii.eqb LF) (list_ascii_of_string content) then None
        else Some content
    | None => None
    end
  else None.

(** [whitespaceSpanRE.ReplaceAllStringFunc(input, f)]: the matches from
    left to right without overlap, the text between them as it is.
    [skip] counts the bytes of a match that are still to be passed. *)
Fixpoint replace_spans (skip : nat) (s : string) : string :=
  match s with
  | EmptyString => EmptyString
  | String c r =>
      match skip with
      | S k => replace_spans k r
      | O =>
          match span_at s with
          | Some content =>
              whitespace_span content +:+
              replace_spans (String.length wOpen + String.length content
                             + String.length spanClose - 1) r
          | None => String c (replace_spans 0 r)
          end
      end
  end.

Definition fixWhitespaceSpans (input : string) : string := replace_spans 0 input.

(** The variables of [normalizeTextWhitespace]. *)
Record norm := mkNorm {
  out : string;
  inTag : bool;
  textBuf : string
}.

(** The loop over the runes of the segment in [flushText]: [segOut] and
    [onlyWhitespace]. *)
Definition segment_step (acc : string * bool) (r : Z) : string * bool :=
  let '(segOut, onlyWhitespace) := acc in
  if r =? 32 then (segOut +:+ nbsp, onlyWhitespace)
  else if r =? 9 then (segOut +:+ nbsp +:+ nbsp +:+ nbsp +:+ nbsp, onlyWhitespace)
  else if ((r =? 10) || (r =? 13))%bool then (segOut, onlyWhitespace)
  else (segOut +:+ utf8.AppendRune r, false).

Definition flushText (st : norm) : norm :=
  if (String.length (textBuf st) =? 0)%nat then st
  else
    let segment := textBuf st in
    let '(segOut, onlyWhitespace) :=
      fold_left segment_step (utf8.runes segment) (EmptyString, true) in
    let segOut := if onlyWhitespace then segOut +:+ zwsp else segOut in
    mkNorm (out st +:+ segOut) (inTag st) EmptyString.

(** The body of the loop over the runes of the input. *)
Definition norm_step (st : norm) (r : Z) : norm :=
  if r =? 60 then
    let st := if negb (inTag st) then
                let st := flushText st in mkNorm (out st) true (textBuf st)
              else st in
    mkNorm (out st +:+ utf8.AppendRune r) (inTag st) (textBuf st)
  else if r =? 62 then
    let st := mkNorm (out st +:+ utf8.AppendRune r) (inTag st) (textBuf st) in
    if inTag st then mkNorm (out st) false (textBuf st) else st
  else
    if inTag st then mkNorm (out st +:+ utf8.AppendRune r) (inTag st) (textBuf st)
    else mkNorm (out st) (inTag st) (textBuf st +:+ utf8.AppendRune r).

Definition normalizeTextWhitespace (input : string) : string :=
  out (flushText (fold_left norm_step (utf8.runes input)
                    (mkNorm EmptyString false EmptyString))).

(** The loop of [extractChromaLines]: every pass appends one line, so
    with [lines] empty at the start it runs at most [expected] times;
    [n] is the number of lines still wanted. *)
Fixpoint extract_loop (n : nat) (remaining : string) (lines : list HTML) : list HTML :=
  match n with
  | O => lines
  | S n' =>
      match Index remaining lineOpen with
      | None => lines
      | Some lineIdx =>
          let remaining := drop_bytes (lineIdx + String.length lineOpen) remaining in
          match Index remaining clOpen with
          | None => lines
          | Some clIdx =>
              let remaining := drop_bytes (clIdx + String.length clOpen) remaining in
              match Index remaining lineClose with
              | None => lines
              | Some endIdx =>
                  let lineHTML := fixWhitespaceSpans (take_bytes endIdx remaining) in
                  let lineHTML := normalizeTextWhitespace lineHTML in
                  let lineHTML :=
                    if String.eqb (TrimSpace lineHTML) "" then nbsp else lineHTML in
                  extract_loop n'
                    (drop_bytes (endIdx + String.length lineClose) remaining)
                    (lines ++ [chromaOpen +:+ lineHTML +:+ spanClose])
              end
          end
      end
  end.

Definition extractChromaLines (htmlIn : string) (expected : Z) : list HTML :=
  extract_loop (Z.to_nat expected) htmlIn [].

(** [Renderer.RenderLines]; [chroma] is the lexer and the formatter of the
    library on the path and the joined source: the HTML, or [None] for an
    error. *)
Definition RenderLines (chroma : string -> string -> option string)
    (path : string) (lines : list string) : list HTML :=
  match chroma path (Join lines (String LF EmptyString)) with
  | None => []
  | Some htmlIn => extractChromaLines htmlIn (len lines)
  end.

End highlight.

(** app.go: the template function [id]. *)
Definition is_alnum (r : Z) : bool :=
  (((97 <=? r) && (r <=? 122)) || ((65 <=? r) && (r <=? 90))
   || ((48 <=? r) && (r <=? 57)))%bool.

Definition template_id (s : string) : string :=
  fold_left (fun b r => if is_alnum r then b +:+ utf8.AppendRune r else b +:+ "-")
            (utf8.runes s) EmptyString.

Section Collaborators.

(** [renderMarkdown] (goldmark) and [codeRenderer.RenderLines] (chroma)
    are outside of the engine; [strings.ToLower] folds case by Unicode. *)
Variable renderMarkdown : string -> HTML.
Variable RenderLines : string -> list string -> list HTML.
Variable ToLower : string -> string.

Definition isMarkdownPath (path : string) : bool :=
  let ext := ToLower (Ext path) in
  (String.eqb ext ".md" || String.eqb ext ".markdown")%bool.

(** One iteration of the loop of [projectLineComments]. *)
Definition comment_step (path : string) (lineNum : Z)
    (acc : bool * list ViewComment) (c : Comment) : bool * list ViewComment :=
  let '(commented, lineComments) := acc in
  if negb (String.eqb (CPath c) path) then (commented, lineComments)
  else
    let commented :=
      if ((StartLine c <=? lineNum) && (lineNum <=? EndLine c))%bool
      then true else commented in
    let lineComments :=
      if lineNum =? StartLine c
      then lineComments ++ [mkViewComment c (renderMarkdown (CText c))]
      else lineComments in
    (commented, lineComments).

Definition projectLineComments (path : string) (lineNum : Z) (comments : list Comment)
    : bool * list ViewComment :=
  fold_left (comment_step path lineNum) comments (false, []).

(** [buildSingleViewLine]; [file.Lines[idx]] panics out of range.  [idx]
    is below [len(file.Lines)], so [idx + 1] does not overflow. *)
Definition buildSingleViewLine (file : File) (comments : list Comment)
    (start end_ : Z) (rendered : list HTML) (idx : Z) : option ViewLine :=
  let lineNum := idx + 1 in
  raw ← index (FLines file) idx;
  let selected :=
    ((0 <? start) && (0 <? end_) && (start <=? lineNum) && (lineNum <=? end_))%bool in
  let '(commented, lineComments) := projectLineComments (FPath file) lineNum comments in
  let lineHTML := if idx <? len rendered then default "" (index rendered idx) else "" in
  Some (mkViewLine lineNum raw lineHTML selected commented lineComments).

(** [for i := lo; i < hi; i++ { lines = append(lines, buildSingleViewLine(.., i)) }] *)
Definition append_lines (file : File) (comments : list Comment) (start end_ : Z)
    (rendered : list HTML) (lo hi : Z) (lines : list ViewLine) : option (list ViewLine) :=
  for_each (fun lines i =>
              vl ← buildSingleViewLine file comments start end_ rendered i;
              Some (lines ++ [vl]))
           (seqZ lo (hi - lo)) lines.

Definition buildViewLines (file : File) (comments : list Comment) (start end_ : Z)
    (rendered : list HTML) : option (list ViewLine) :=
  append_lines file comments start end_ rendered 0 (len (FLines file)) [].

(** The body of [for _, r := range norm] in [buildViewLinesWithRanges];
    [r.Start - 1] is taken with [1 <= r.Start]. *)
Definition range_step (file : File) (comments : list Comment) (start end_ : Z)
    (rendered : list HTML) (lines : list ViewLine) (r : LineRange) : option (list ViewLine) :=
  let rs := if RStart r <? 1 then 1 else RStart r in
  let re := if len (FLines file) <? REnd r then len (FLines file) else REnd r in
  append_lines file comments start end_ rendered (rs - 1) re lines.

Definition buildViewLinesWithRanges (file : File) (comments : list Comment) (start end_ : Z)
    (rendered : list HTML) (ranges : list LineRange) : option (list ViewLine) :=
  if len ranges =? 0 then buildViewLines file comments start end_ rendered
  else
    norm ← normalizeRanges ranges;
    for_each (range_step file comments start end_ rendered) norm [].

(** The body of [for i, dl := range h.Lines] in [buildViewDiff]. *)
Definition buildViewDiffLine (path : string) (comments : list Comment) (start end_ : Z)
    (rendered : list HTML) (i : Z) (dl : DiffLine) : ViewDiffLine :=
  let html := if i <? len rendered then default "" (index rendered i) else "" in
  let sel :=
    if (selectable dl && (0 <? start) && (0 <? end_)
        && (start <=? NewLine dl) && (NewLine dl <=? end_))%bool
    then true else false in
  let '(commented, lineComments) :=
    if 0 <? NewLine dl then projectLineComments path (NewLine dl) comments
    else (false, []) in
  let sel := if negb (selectable dl) then false else sel in
  mkViewDiffLine (Kind dl) (OldLine dl) (NewLine dl) (Text dl) html sel commented lineComments.

(** The body of [for _, h := range file.Hunks]. *)
Definition buildViewDiffHunk (path : string) (comments : list Comment) (start end_ : Z)
    (render : bool) (h : DiffHunk) : ViewDiffHunk :=
  let rendered :=
    if render
    then RenderLines path (fold_left (fun lines dl => lines ++ [Text dl]) (Lines h) [])
    else [] in
  mkViewDiffHunk (hunk_header h)
    (for_range (fun lines i dl =>
                  lines ++ [buildViewDiffLine path comments start end_ rendered i dl])
               0 (Lines h) []).

Definition buildViewDiff (file : DiffFile) (comments : list Comment) (start end_ : Z)
    (render : bool) : ViewDiffFile :=
  mkViewDiffFile (DPath file)
    (fold_left (fun hunks h =>
                  hunks ++ [buildViewDiffHunk (DPath file) comments start end_ render h])
               (Hunks file) []).

(* ===================================================================== *)
(** * view.go: [updateView], and app.go: the event handlers *)
(* ===================================================================== *)

(** Assignments to the fields of [*ReviewModel] that the handlers write. *)
Definition set_Selection (m : ReviewModel) (s e : Z) : ReviewModel :=
  mkReviewModel (Files m) (DiffFiles m) (Tree m) (SelectedPath m) (SelectedLabel m)
    (CodeViewKey m) (Mode m) (RenderFile m) (RenderComments m) (Prompt m) (PromptHTML m)
    s e (CommentDraft m) (MComments m) (Ranges m) (MarkdownRenderByPath m)
    (MViewFile m) (MViewDiff m) (Error m).

Definition set_Error (m : ReviewModel) (msg : string) : ReviewModel :=
  mkReviewModel (Files m) (DiffFiles m) (Tree m) (SelectedPath m) (SelectedLabel m)
    (CodeViewKey m) (Mode m) (RenderFile m) (RenderComments m) (Prompt m) (PromptHTML m)
    (SelectionStart m) (SelectionEnd m) (CommentDraft m) (MComments m) (Ranges m)
    (MarkdownRenderByPath m) (MViewFile m) (MViewDiff m) msg.

Definition set_CommentDraft (m : ReviewModel) (d : string) : ReviewModel :=
  mkReviewModel (Files m) (DiffFiles m) (Tree m) (SelectedPath m) (SelectedLabel m)
    (CodeViewKey m) (Mode m) (RenderFile m) (RenderComments m) (Prompt m) (PromptHTML m)
    (SelectionStart m) (SelectionEnd m) d (MComments m) (Ranges m)
    (MarkdownRenderByPath m) (MViewFile m) (MViewDiff m) (Error m).

Definition set_Comments (m : ReviewModel) (cs : list Comment) : ReviewModel :=
  mkReviewModel (Files m) (DiffFiles m) (Tree m) (SelectedPath m) (SelectedLabel m)
    (CodeViewKey m) (Mode m) (RenderFile m) (RenderComments m) (Prompt m) (PromptHTML m)
    (SelectionStart m) (SelectionEnd m) (CommentDraft m) cs (Ranges m)
    (MarkdownRenderByPath m) (MViewFile m) (MViewDiff m) (Error m).

Definition set_MarkdownRenderByPath (m : ReviewModel) (md : gmap string bool) : ReviewModel :=
  mkReviewModel (Files m) (DiffFiles m) (Tree m) (SelectedPath m) (SelectedLabel m)
    (CodeViewKey m) (Mode m) (RenderFile m) (RenderComments m) (Prompt m) (PromptHTML m)
    (SelectionStart m) (SelectionEnd m) (CommentDraft m) (MComments m) (Ranges m)
    md (MViewFile m) (MViewDiff m) (Error m).

Definition set_ViewFile (m : ReviewModel) (vf : ViewFile) : ReviewModel :=
  mkReviewModel (Files m) (DiffFiles m) (Tree m) (SelectedPath m) (SelectedLabel m)
    (CodeViewKey m) (Mode m) (RenderFile m) (RenderComments m) (Prompt m) (PromptHTML m)
    (SelectionStart m) (SelectionEnd m) (CommentDraft m) (MComments m) (Ranges m)
    (MarkdownRenderByPath m) vf (MViewDiff m) (Error m).

Definition set_ViewDiff (m : ReviewModel) (vd : ViewDiffFile) : ReviewModel :=
  mkReviewModel (Files m) (DiffFiles m) (Tree m) (SelectedPath m) (SelectedLabel m)
    (CodeViewKey m) (Mode m) (RenderFile m) (RenderComments m) (Prompt m) (PromptHTML m)
    (SelectionStart m) (SelectionEnd m) (CommentDraft m) (MComments m) (Ranges m)
    (MarkdownRenderByPath m) (MViewFile m) vd (Error m).

Definition set_SelectedLabel (m : ReviewModel) (l : string) : ReviewModel :=
  mkReviewModel (Files m) (DiffFiles m) (Tree m) (SelectedPath m) l
    (CodeViewKey m) (Mode m) (RenderFile m) (RenderComments m) (Prompt m) (PromptHTML m)
    (SelectionStart m) (SelectionEnd m) (CommentDraft m) (MComments m) (Ranges m)
    (MarkdownRenderByPath m) (MViewFile m) (MViewDiff m) (Error m).

(** [model.Ranges[path]]: nil for a missing key. *)
Definition ranges_of (m : ReviewModel) (path : string) : list LineRange :=
  default [] (Ranges m !! path).

(** The two lines that end both return paths of [updateFileView]. *)
Definition finish_file_view (m : ReviewModel) (viewFile : ViewFile) : option ReviewModel :=
  let m := set_ViewFile m viewFile in
  label ← formatSelectedLabel (SelectedPath m) (ranges_of m (SelectedPath m));
  Some (set_SelectedLabel m label).

Definition updateFileView (m : ReviewModel) : option ReviewModel :=
  match findFile (Files m) (SelectedPath m) with
  | None => finish_file_view m (mkViewFile (SelectedPath m) [] false false "")
  | Some selectedFile =>
      let mdFile := isMarkdownPath (FPath selectedFile) in
      let '(m, mdRendered) :=
        if mdFile then
          match MarkdownRenderByPath m !! FPath selectedFile with
          | Some rendered => (m, rendered)
          | None =>
              (set_MarkdownRenderByPath m
                 (<[FPath selectedFile := true]> (MarkdownRenderByPath m)), true)
          end
        else (m, false) in
      if (mdFile && mdRendered)%bool then
        finish_file_view m
          (mkViewFile (SelectedPath m) [] mdFile mdRendered
             (renderMarkdown (Join (FLines selectedFile) (String LF ""))))
      else
        let rendered :=
          if RenderFile m then RenderLines (FPath selectedFile) (FLines selectedFile)
          else [] in
        lines ← buildViewLinesWithRanges selectedFile (MComments m)
                  (SelectionStart m) (SelectionEnd m) rendered
                  (ranges_of m (FPath selectedFile));
        finish_file_view m (mkViewFile (SelectedPath m) lines mdFile mdRendered "")
  end.

Definition updateDiffView (m : ReviewModel) : ReviewModel :=
  let viewDiff :=
    match findDiffFile (DiffFiles m) (SelectedPath m) with
    | Some diffFile =>
        buildViewDiff diffFile (MComments m) (SelectionStart m) (SelectionEnd m)
          (RenderFile m)
    | None => mkViewDiffFile (SelectedPath m) []
    end in
  set_SelectedLabel (set_ViewDiff m viewDiff) (SelectedPath m).

(** [None] is a run-time panic. *)
Definition updateView (m : ReviewModel) : option ReviewModel :=
  if String.eqb (Mode m) ModeDiff then Some (updateDiffView m) else updateFileView m.

(** The [select-line] handler; [line] is [p.Int("line")] and [shiftParam]
    is [p.String("shift")]. *)
Definition selectLine (m : ReviewModel) (line : Z) (shiftParam : string)
    : option ReviewModel :=
  let shift := String.eqb shiftParam "1" in
  if line <=? 0 then Some m
  else if (String.eqb (Mode m) ModeDiff
           && negb (diffLineExists (DiffFiles m) (SelectedPath m) line))%bool
  then Some m
  else
    let m :=
      if (shift && (0 <? SelectionStart m))%bool then
        let start := SelectionStart m in
        let end_ := line in
        if end_ <? start then set_Selection m end_ start
        else set_Selection m start end_
      else set_Selection m line line in
    updateView (set_Error m "").

(** The [add-comment] handler; [commentParam] is [p.String("comment")]. *)
Definition addComment (m : ReviewModel) (commentParam : string) : option ReviewModel :=
  let text := TrimSpace commentParam in
  if String.eqb text "" then Some (set_Error m "comment text is required")
  else if ((SelectionStart m =? 0) || (SelectionEnd m =? 0))%bool
  then Some (set_Error m "select a line or range first")
  else
    let m := set_Comments m
               (MComments m ++
                [mkComment (SelectedPath m) (SelectionStart m) (SelectionEnd m) text]) in
    let m := set_CommentDraft m "" in
    let m := set_Error m "" in
    let m := set_Selection m 0 0 in
    updateView m.

(** The [cancel-comment] handler. *)
Definition cancelComment (m : ReviewModel) : option ReviewModel :=
  updateView (set_Selection (set_Error (set_CommentDraft m "") "") 0 0).

(* ===================================================================== *)
(** * app.go: the other handlers, and the model that [Run] starts with *)
(* ===================================================================== *)

Definition set_SelectedPath (m : ReviewModel) (p : string) : ReviewModel :=
  mkReviewModel (Files m) (DiffFiles m) (Tree m) p (SelectedLabel m)
    (CodeViewKey m) (Mode m) (RenderFile m) (RenderComments m) (Prompt m) (PromptHTML m)
    (SelectionStart m) (SelectionEnd m) (CommentDraft m) (MComments m) (Ranges m)
    (MarkdownRenderByPath m) (MViewFile m) (MViewDiff m) (Error m).

Definition set_CodeViewKey (m : ReviewModel) (k : string) : ReviewModel :=
  mkReviewModel (Files m) (DiffFiles m) (Tree m) (SelectedPath m) (SelectedLabel m)
    k (Mode m) (RenderFile m) (RenderComments m) (Prompt m) (PromptHTML m)
    (SelectionStart m) (SelectionEnd m) (CommentDraft m) (MComments m) (Ranges m)
    (MarkdownRenderByPath m) (MViewFile m) (MViewDiff m) (Error m).

Definition set_Tree (m : ReviewModel) (t : list TreeItem) : ReviewModel :=
  mkReviewModel (Files m) (DiffFiles m) t (SelectedPath m) (SelectedLabel m)
    (CodeViewKey m) (Mode m) (RenderFile m) (RenderComments m) (Prompt m) (PromptHTML m)
    (SelectionStart m) (SelectionEnd m) (CommentDraft m) (MComments m) (Ranges m)
    (MarkdownRenderByPath m) (MViewFile m) (MViewDiff m) (Error m).

Definition set_RenderFile (m : ReviewModel) (b : bool) : ReviewModel :=
  mkReviewModel (Files m) (DiffFiles m) (Tree m) (SelectedPath m) (SelectedLabel m)
    (CodeViewKey m) (Mode m) b (RenderComments m) (Prompt m) (PromptHTML m)
    (SelectionStart m) (SelectionEnd m) (CommentDraft m) (MComments m) (Ranges m)
    (MarkdownRenderByPath m) (MViewFile m) (MViewDiff m) (Error m).

Definition set_RenderComments (m : ReviewModel) (b : bool) : ReviewModel :=
  mkReviewModel (Files m) (DiffFiles m) (Tree m) (SelectedPath m) (SelectedLabel m)
    (CodeViewKey m) (Mode m) (RenderFile m) b (Prompt m) (PromptHTML m)
    (SelectionStart m) (SelectionEnd m) (CommentDraft m) (MComments m) (Ranges m)
    (MarkdownRenderByPath m) (MViewFile m) (MViewDiff m) (Error m).

Definition set_PromptHTML (m : ReviewModel) (h : HTML) : ReviewModel :=
  mkReviewModel (Files m) (DiffFiles m) (Tree m) (SelectedPath m) (SelectedLabel m)
    (CodeViewKey m) (Mode m) (RenderFile m) (RenderComments m) (Prompt m) h
    (SelectionStart m) (SelectionEnd m) (CommentDraft m) (MComments m) (Ranges m)
    (MarkdownRenderByPath m) (MViewFile m) (MViewDiff m) (Error m).

(** The [select-file] handler; [path] is [p.String("path")] and [now] is
    [time.Now().UnixNano()]. *)
Definition selectFile (m : ReviewModel) (path : string) (now : Z) : option ReviewModel :=
  if String.eqb path "" then Some m
  else if String.eqb (Mode m) ModeDiff then
    if hasDiffFile (DiffFiles m) path then
      let m := set_SelectedPath m path in
      let m := set_CodeViewKey m (itoa now) in
      let m := set_Selection m 0 0 in
      let m := set_Error m "" in
      tree ← buildTree (diffFilesAsFiles (DiffFiles m)) (SelectedPath m);
      updateView (set_Tree m tree)
    else Some m
  else
    if hasFile (Files m) path then
      let m := set_SelectedPath m path in
      let m := set_CodeViewKey m (itoa now) in
      let m := set_Selection m 0 0 in
      let m := set_Error m "" in
      tree ← buildTree (Files m) (SelectedPath m);
      updateView (set_Tree m tree)
    else Some m.

(** The [toggle-file-render] handler.  [MarkdownRenderByPath] is the map
    that [Run] makes, so the assignment does not panic. *)
Definition toggleFileRender (m : ReviewModel) : option ReviewModel :=
  let m :=
    if (String.eqb (Mode m) ModeFile && isMarkdownPath (SelectedPath m))%bool then
      let current := default true (MarkdownRenderByPath m !! SelectedPath m) in
      set_MarkdownRenderByPath m
        (<[SelectedPath m := negb current]> (MarkdownRenderByPath m))
    else set_RenderFile m (negb (RenderFile m)) in
  updateView m.

(** The [toggle-comment-render] handler. *)
Definition toggleCommentRender (m : ReviewModel) : option ReviewModel :=
  updateView (set_RenderComments m (negb (RenderComments m))).

(** The events of the page with their parameters.  [finish] closes the
    tab and the channel and leaves the model as it is. *)
Inductive event : Type :=
  | EvSelectFile (path : string) (now : Z)
  | EvToggleFileRender
  | EvToggleCommentRender
  | EvSelectLine (line : Z) (shift : string)
  | EvAddComment (comment : string)
  | EvCancelComment
  | EvFinish.

Definition handle (m : ReviewModel) (e : event) : option ReviewModel :=
  match e with
  | EvSelectFile path now => selectFile m path now
  | EvToggleFileRender => toggleFileRender m
  | EvToggleCommentRender => toggleCommentRender m
  | EvSelectLine line shift => selectLine m line shift
  | EvAddComment comment => addComment m comment
  | EvCancelComment => cancelComment m
  | EvFinish => Some m
  end.

(** io_helpers.go: [loadFiles].  [ReadFile] is [os.ReadFile]: the text of
    the error, or the content. *)
Definition loadFiles (ReadFile : string -> string + string) (paths : list string)
    : string + list File :=
  try_each (fun files path =>
              match ReadFile path with
              | inl err => inl ("read " +:+ path +:+ ": " +:+ err)
              | inr data =>
                  inr (files ++ [mkFile path (ToSlash path)
                                   (Split_LF (ReplaceAll_CRLF data))])
              end)
           paths [].

(** model.go: the fields of [Config] that [Run] reads before it serves. *)
Record Config := mkConfig {
  Paths : list string;
  CPrompt : string;
  Diff : string;
  CRanges : gmap string (list LineRange);
  StdDiff : string
}.

(** [Run] from the literal [&ReviewModel{...}] to [updateView(model)];
    [None] is a panic. *)
Definition start (files : list File) (diffFiles : list DiffFile) (mode : ViewMode)
    (cfg : Config) (now : Z) : option ReviewModel :=
  let m := mkReviewModel files diffFiles [] "" "" "" mode true true (CPrompt cfg) ""
             0 0 "" [] (CRanges cfg) ∅
             (mkViewFile "" [] false false "") (mkViewDiffFile "" []) "" in
  let m := if negb (String.eqb (TrimSpace (CPrompt cfg)) "")
           then set_PromptHTML m (renderMarkdown (CPrompt cfg)) else m in
  let m := set_CodeViewKey m (itoa now) in
  m ← (if String.eqb mode ModeDiff then
         d0 ← index diffFiles 0;
         let m := set_SelectedPath m (DPath d0) in
         tree ← buildTree (diffFilesAsFiles diffFiles) (SelectedPath m);
         Some (set_Tree m tree)
       else
         f0 ← index files 0;
         let m := set_SelectedPath m (FPath f0) in
         tree ← buildTree files (SelectedPath m);
         Some (set_Tree m tree));
  updateView m.

(** [Run] up to the model it serves: the error it returns, or the model. *)
Definition Run (ReadFile : string -> string + string) (cfg : Config) (now : Z)
    : string + option ReviewModel :=
  let diffInput := TrimSpace (StdDiff cfg) in
  match (if negb (String.eqb (Diff cfg) "") then
           match ReadFile (Diff cfg) with
           | inl err => inl ("read diff: " +:+ err)
           | inr data => inr data
           end
         else inr diffInput) with
  | inl e => inl e
  | inr diffInput =>
      if negb (String.eqb diffInput "") then
        match parseUnifiedDiff diffInput with
        | (_, Some err) => inl err
        | (parsed, None) =>
            if len parsed =? 0 then inl "no files in diff"
            else inr (start [] parsed ModeDiff cfg now)
        end
      else
        if len (Paths cfg) =? 0 then inl "no files provided"
        else
          match loadFiles ReadFile (Paths cfg) with
          | inl e => inl e
          | inr loaded => inr (start loaded [] ModeFile cfg now)
          end
  end.


(* ===================================================================== *)
(** * Line numbering of parsed hunks *)
(* ===================================================================== *)








(** ** Facts about wrap-around *)

Lemma wrap_in_range z : GoInt.in_range (GoInt.wrap z).
Proof.
  unfold GoInt.in_range, GoInt.wrap, GoInt.MinInt, GoInt.MaxInt.
  pose proof (Z.mod_pos_bound (z + 2 ^ 63) (2 ^ 64) ltac:(lia)). lia.
Qed.

Lemma wrap_id z : GoInt.in_range z -> GoInt.wrap z = z.
Proof.
  unfold GoInt.in_range, GoInt.wrap, GoInt.MinInt, GoInt.MaxInt. intros H.
  rewrite Z.mod_small by lia. lia.
Qed.


(** Wrapping never increases a value that is not below [MinInt]. *)
Lemma wrap_le z : GoInt.MinInt <= z -> GoInt.wrap z <= z.
Proof.
  unfold GoInt.wrap, GoInt.MinInt. intros H.
  pose proof (Z.mod_le (z + 2 ^ 63) (2 ^ 64) ltac:(lia) ltac:(lia)). lia.
Qed.



Lemma ParseUint_loop_nonneg s : forall n un r,
  0 <= n -> ParseUint_loop n s = inr (un, r) -> 0 <= un.
Proof.
  induction s as [|c s IH]; intros n un r Hn; simpl.
  - intros [= <- _]. exact Hn.
  - destruct (negb (is_digit c)) eqn:Hd; [discriminate|].
    destruct (maxUint64 / 10 + 1 <=? n); [intros [= <- _]; by vm_compute|].
    destruct (maxUint64 <? n * 10 + digit_val c); [intros [= <- _]; by vm_compute|].
    apply IH. apply negb_false_iff in Hd. unfold is_digit in Hd.
    apply andb_true_iff in Hd as [Hd _]. apply Nat.leb_le in Hd.
    unfold digit_val. lia.
Qed.

Lemma ParseInt_in_range s : GoInt.in_range (fst (ParseInt s)).
Proof.
  assert (H0 : GoInt.in_range 0) by (by vm_compute).
  unfold ParseInt. destruct s as [|c r]; [exact H0|].
  set (s' := if (Ascii.eqb c "+" || Ascii.eqb c "-")%bool then r else String c r).
  destruct (ParseUint s') as [|[un rng]] eqn:HP; [exact H0|].
  assert (0 <= un) as Hun.
  { unfold ParseUint in HP. destruct s'; [discriminate|].
    eapply ParseUint_loop_nonneg; [|exact HP]. lia. }
  destruct (Ascii.eqb c "-"); simpl.
  - destruct (2 ^ 63 <? un) eqn:Hc; simpl; [by vm_compute|].
    apply Z.ltb_ge in Hc. unfold GoInt.in_range, GoInt.MinInt, GoInt.MaxInt. lia.
  - destruct (2 ^ 63 <=? un) eqn:Hc; simpl; [by vm_compute|].
    apply Z.leb_gt in Hc. unfold GoInt.in_range, GoInt.MinInt, GoInt.MaxInt. lia.
Qed.

Lemma mustAtoi_in_range s : GoInt.in_range (mustAtoi s).
Proof.
  unfold mustAtoi, Atoi. destruct (_ =? 0); [by vm_compute|apply ParseInt_in_range].
Qed.














(** ** Scenario A and the fixture of [TestParseUnifiedDiff] *)

Definition nl : string := String LF "".

(** The hunk header followed by the five body lines. *)
Definition scenarioA : string :=
  Join ["@@ -1,3 +1,4 @@"; " line1"; "-line2"; "+line2-new"; " line3"; "+line4"] nl.

Definition scenarioA_lines : list DiffLine :=
  [ mkDiffLine DiffContext 1 1 "line1";
    mkDiffLine DiffDel 2 0 "line2";
    mkDiffLine DiffAdd 0 2 "line2-new";
    mkDiffLine DiffContext 3 3 "line3";
    mkDiffLine DiffAdd 0 4 "line4" ].

Definition scenarioA_hunk : DiffHunk := mkDiffHunk 1 3 1 4 scenarioA_lines.

Definition scenarioA_file : DiffFile := mkDiffFile "" "" "" [scenarioA_hunk].

(** The input of [TestParseUnifiedDiff]: every line ends in a newline. *)
Definition test_fixture : string :=
  Join ["diff --git a/hello.txt b/hello.txt"; "index 111..222 100644";
        "--- a/hello.txt"; "+++ b/hello.txt";
        "@@ -1,3 +1,4 @@"; " line1"; "-line2"; "+line2-new"; " line3"; "+line4"; ""] nl.



(** At the end of the int range the cursor wraps: after a line numbered
    [MaxInt] the next old-side line is numbered [MinInt]. *)
Remark cursor_wraps_at_MaxInt :
  parseUnifiedDiff (Join ["@@ -9223372036854775807 +1 @@"; " a"; " b"] nl) =
    ([mkDiffFile "" "" ""
        [mkDiffHunk GoInt.MaxInt 1 1 1
           [mkDiffLine DiffContext GoInt.MaxInt 1 "a";
            mkDiffLine DiffContext GoInt.MinInt 2 "b"]]], None).
Proof. by vm_compute. Qed.

(** The same text with a newline after its last line, as a diff file has
    it and as the fixture of [TestParseUnifiedDiff] does. *)
Definition scenarioA_terminated : string := scenarioA +:+ nl.

(** C2, as stated, fails on the newline-terminated text: its hunk does not
    have exactly five lines. *)
Lemma scenario_A_terminated_not_five :
  ~ (exists f h,
       parseUnifiedDiff scenarioA_terminated = ([f], None) /\
       Hunks f = [h] /\ length (Lines h) = 5%nat).
Proof.
  intros (f & h & Hp & Hh & Hl). vm_compute in Hp. injection Hp as <-.
  simpl in Hh. injection Hh as <-. simpl in Hl. lia.
Qed.

(** C2, amended: parsing the header [@@ -1,3 +1,4 @@] and the five body
    lines gives exactly one DiffFile with exactly one hunk, whose first
    five lines are numbered {1,1}, {2,0} (delete), {0,2} (add), {3,3} and
    {0,4}.  The hunk has exactly these five lines when the text stops after
    [+line4]; when the text ends in a newline, the empty last line adds a
    sixth, context line {old 4, new 5}. *)
Theorem scenario_A_parse :
  parseUnifiedDiff scenarioA = ([scenarioA_file], None) /\
  Hunks scenarioA_file = [scenarioA_hunk] /\
  length (Lines scenarioA_hunk) = 5%nat /\
  Lines scenarioA_hunk !! 1%nat = Some (mkDiffLine DiffDel 2 0 "line2") /\
  Lines scenarioA_hunk !! 2%nat = Some (mkDiffLine DiffAdd 0 2 "line2-new") /\
  Lines scenarioA_hunk !! 3%nat = Some (mkDiffLine DiffContext 3 3 "line3") /\
  Lines scenarioA_hunk !! 4%nat = Some (mkDiffLine DiffAdd 0 4 "line4") /\
  parseUnifiedDiff scenarioA_terminated =
    ([mkDiffFile "" "" ""
        [mkDiffHunk 1 3 1 4 (Lines scenarioA_hunk ++ [mkDiffLine DiffContext 4 5 ""])]],
     None).
Proof.
  split; [by vm_compute|]. do 6 (split; [reflexivity|]). by vm_compute.
Qed.

(** [TestParseUnifiedDiff] expects one file [hello.txt], one hunk and six
    lines. *)
Remark test_fixture_parse :
  parseUnifiedDiff test_fixture =
    ([mkDiffFile "hello.txt" "hello.txt" "hello.txt"
        [mkDiffHunk 1 3 1 4 (scenarioA_lines ++ [mkDiffLine DiffContext 4 5 ""])]], None).
Proof. by vm_compute. Qed.

(* ===================================================================== *)
(** * When parsing fails *)
(* ===================================================================== *)

(** ** The language of the hunk header pattern *)

Fixpoint all_digits (s : string) : bool :=
  match s with
  | EmptyString => true
  | String c r => (is_digit c && all_digits r)%bool
  end.

(** [(?:,(\d+))?] with the group's digits [m], empty when the group is
    absent. *)
Definition opt_group (m : string) : string :=
  if String.eqb m "" then "" else "," +:+ m.

(** [raw] matches [^@@ -(\d+)(?:,(\d+))? \+(\d+)(?:,(\d+))? @@] with the
    four groups [m1], [m2], [m3], [m4]; what follows the closing [@@] is
    free. *)
Definition header_match (raw m1 m2 m3 m4 : string) : Prop :=
  all_digits m1 = true /\ m1 <> "" /\ all_digits m2 = true /\
  all_digits m3 = true /\ m3 <> "" /\ all_digits m4 = true /\
  exists rest,
    raw = "@@ -" +:+ m1 +:+ opt_group m2 +:+ " +" +:+ m3 +:+ opt_group m4 +:+ " @@" +:+ rest.

Definition header_shape (raw : string) : Prop :=
  exists m1 m2 m3 m4, header_match raw m1 m2 m3 m4.

Lemma append_nil_l (s : string) : "" +:+ s = s.
Proof. reflexivity. Qed.

Lemma append_cons (c : ascii) (a b : string) : String c a +:+ b = String c (a +:+ b).
Proof. reflexivity. Qed.

Lemma append_assoc (a b c : string) : (a +:+ b) +:+ c = a +:+ (b +:+ c).
Proof.
  induction a as [|x a IH]; [done|]. rewrite !append_cons. by f_equal.
Qed.

Lemma lit_spec p : forall s r, lit p s = Some r <-> s = p +:+ r.
Proof.
  unfold lit. induction p as [|a p IH]; intros s r.
  - simpl. rewrite append_nil_l. split; congruence.
  - rewrite append_cons. destruct s as [|b s]; [done|]. simpl.
    destruct (Ascii.eqb_spec a b) as [<-|Hne].
    + rewrite andb_true_l, IH. split; congruence.
    + rewrite andb_false_l. split; congruence.
Qed.

(** A string that does not go on with a digit. *)
Definition no_digit_ahead (s : string) : Prop :=
  match s with
  | EmptyString => True
  | String c _ => is_digit c = false
  end.

Lemma span_digits_app d : forall r,
  all_digits d = true -> no_digit_ahead r -> span_digits (d +:+ r) = (d, r).
Proof.
  induction d as [|c d IH]; intros r Hd Hr.
  - rewrite append_nil_l. destruct r as [|c r]; [done|]. simpl in *. by rewrite Hr.
  - rewrite append_cons. simpl in *. apply andb_true_iff in Hd as [-> Hd].
    by rewrite (IH r Hd Hr).
Qed.

Lemma span_digits_inv s : forall d r,
  span_digits s = (d, r) -> s = d +:+ r /\ all_digits d = true /\ no_digit_ahead r.
Proof.
  induction s as [|c s IH]; intros d r; simpl.
  - by intros [= <- <-].
  - destruct (is_digit c) eqn:Hc.
    + destruct (span_digits s) as [d' r'] eqn:Hsp. intros [= <- <-].
      destruct (IH d' r' eq_refl) as (-> & Hd & Hr).
      rewrite append_cons. simpl. by rewrite Hc.
    + intros [= <- <-]. rewrite append_nil_l. simpl. by rewrite Hc.
Qed.

Lemma digits1_app d r :
  all_digits d = true -> d <> "" -> no_digit_ahead r ->
  digits1 (d +:+ r) = Some (d, r).
Proof.
  intros Hd Hne Hr. unfold digits1. rewrite span_digits_app by done.
  apply String.eqb_neq in Hne. by rewrite Hne.
Qed.

Lemma digits1_inv s d r :
  digits1 s = Some (d, r) ->
  s = d +:+ r /\ all_digits d = true /\ d <> "" /\ no_digit_ahead r.
Proof.
  unfold digits1. destruct (span_digits s) as [d' r'] eqn:Hsp.
  destruct (String.eqb_spec d' ""); [done|]. intros [= <- <-].
  apply span_digits_inv in Hsp as (? & ? & ?). done.
Qed.

(** What follows an optional group starts with a space. *)
Definition space_ahead (r : string) : Prop := exists r', r = " " +:+ r'.

Lemma space_no_digit r : space_ahead r -> no_digit_ahead r.
Proof. by intros [r' ->]. Qed.

Lemma opt_count_app d r :
  all_digits d = true -> space_ahead r -> opt_count (opt_group d +:+ r) = (d, r).
Proof.
  intros Hd Hr. unfold opt_count, opt_group.
  destruct (String.eqb_spec d "") as [->|Hne].
  - rewrite append_nil_l. destruct Hr as [r' ->]. done.
  - rewrite append_assoc, (proj2 (lit_spec "," _ (d +:+ r)) eq_refl).
    by rewrite digits1_app by (done || by apply space_no_digit).
Qed.

Lemma opt_count_inv s d r :
  opt_count s = (d, r) -> s = opt_group d +:+ r /\ all_digits d = true.
Proof.
  unfold opt_count, opt_group. destruct (lit "," s) as [s1|] eqn:Hlit.
  - apply lit_spec in Hlit as ->. destruct (digits1 s1) as [[d' r']|] eqn:Hd1.
    + apply digits1_inv in Hd1 as (-> & Hd' & Hne & _). intros [= <- <-].
      apply String.eqb_neq in Hne. rewrite Hne. by rewrite append_assoc.
    + by intros [= <- <-].
  - by intros [= <- <-].
Qed.

(** The matcher returns the groups of the pattern, and only those. *)
Lemma hunkHeaderRE_spec raw m1 m2 m3 m4 :
  hunkHeaderRE raw = Some (m1, m2, m3, m4) <-> header_match raw m1 m2 m3 m4.
Proof.
  unfold hunkHeaderRE, header_match. split.
  - intros H.
    destruct (lit "@@ -" raw) as [r1|] eqn:H1; [|done]. cbn [mbind option_bind] in H.
    destruct (digits1 r1) as [[d1 r2]|] eqn:H2; [|done]. cbn [mbind option_bind] in H.
    destruct (opt_count r2) as [d2 r3] eqn:H3.
    destruct (lit " +" r3) as [r4|] eqn:H4; [|done]. cbn [mbind option_bind] in H.
    destruct (digits1 r4) as [[d3 r5]|] eqn:H5; [|done]. cbn [mbind option_bind] in H.
    destruct (opt_count r5) as [d4 r6] eqn:H6.
    destruct (lit " @@" r6) as [r7|] eqn:H7; [|done]. cbn [mbind option_bind] in H.
    injection H as <- <- <- <-.
    apply lit_spec in H1, H4, H7. subst raw r3 r6.
    apply digits1_inv in H2 as (-> & Hd1 & Hn1 & _).
    apply digits1_inv in H5 as (-> & Hd3 & Hn3 & _).
    apply opt_count_inv in H3 as [-> Hd2].
    apply opt_count_inv in H6 as [-> Hd4].
    do 6 (split; [done|]). exists r7. by rewrite ?append_assoc.
  - intros (Hd1 & Hn1 & Hd2 & Hd3 & Hn3 & Hd4 & rest & ->).
    rewrite (proj2 (lit_spec "@@ -" _ _) eq_refl). cbn [mbind option_bind].
    rewrite digits1_app; [|done|done|].
    2: { unfold opt_group. by destruct (String.eqb m2 ""). }
    cbn [mbind option_bind].
    rewrite opt_count_app; [|done|by eexists].
    rewrite (proj2 (lit_spec " +" _ _) eq_refl). cbn [mbind option_bind].
    rewrite digits1_app; [|done|done|].
    2: { unfold opt_group. by destruct (String.eqb m4 ""). }
    cbn [mbind option_bind].
    rewrite opt_count_app; [|done|by eexists].
    by rewrite (proj2 (lit_spec " @@" _ _) eq_refl).
Qed.

Lemma hunkHeaderRE_None raw : hunkHeaderRE raw = None <-> ~ header_shape raw.
Proof.
  split.
  - intros Hn (m1 & m2 & m3 & m4 & Hm). apply hunkHeaderRE_spec in Hm. congruence.
  - intros Hn. destruct (hunkHeaderRE raw) as [[[[m1 m2] m3] m4]|] eqn:He; [|done].
    destruct Hn. exists m1, m2, m3, m4. by apply hunkHeaderRE_spec.
Qed.

(** A line that starts with [@@ ] is not taken by one of the three tests
    before the hunk header test. *)
Lemma at_prefix_exclusive raw :
  HasPrefix raw "@@ " = true ->
  HasPrefix raw "diff --git " = false /\ HasPrefix raw "--- " = false /\
  HasPrefix raw "+++ " = false.
Proof.
  destruct raw as [|c r]; [done|]. cbn [HasPrefix].
  destruct (Ascii.eqb_spec "@" c) as [<-|]; [|done]. done.
Qed.

(** One iteration fails exactly on a line that starts with [@@ ] and that
    the pattern does not match. *)
Lemma step_fails_iff st raw :
  (exists msg, step st raw = inl msg) <->
  HasPrefix raw "@@ " = true /\ hunkHeaderRE raw = None.
Proof.
  split.
  - intros [msg Hstep]. unfold step in Hstep.
    destruct (HasPrefix raw "diff --git "); [done|].
    destruct (HasPrefix raw "--- "); [done|].
    destruct (HasPrefix raw "+++ "); [done|].
    destruct (HasPrefix raw "@@ ").
    + destruct (hunkHeaderRE raw) as [[[[m1 m2] m3] m4]|]; done.
    + destruct (curHunk st); [|done].
      destruct (HasPrefix raw "\ No newline at end of file"); [done|].
      destruct raw as [|prefix text]; [done|]. by repeat case_match.
  - intros [Hat Hre]. destruct (at_prefix_exclusive raw Hat) as (H1 & H2 & H3).
    unfold step. rewrite H1, H2, H3, Hat, Hre. eauto.
Qed.

Lemma scan_fails_iff lines : forall st,
  (exists msg, scan st lines = inl msg) <->
  exists raw, raw ∈ lines /\ HasPrefix raw "@@ " = true /\ hunkHeaderRE raw = None.
Proof.
  induction lines as [|raw rest IH]; intros st; simpl.
  - split; [by intros [? ?]|]. by intros (? & ?%elem_of_nil & _).
  - destruct (step st raw) as [msg|st'] eqn:Hstep.
    + split; [|eauto]. intros _. exists raw. split; [left|].
      apply (step_fails_iff st raw). eauto.
    + rewrite IH. split.
      * intros (r & Hr & H). exists r. split; [by right|done].
      * intros (r & Hr & H). apply elem_of_cons in Hr as [->|Hr]; [|eauto].
        apply (step_fails_iff st raw) in H as [msg Hmsg]. congruence.
Qed.

(** C3: parseUnifiedDiff returns an error exactly when one of the input's
    lines starts with [@@ ] and does not match the hunk header pattern
    [@@ -O[,oc] +N[,nc] @@]; no other input makes it fail.  With the error
    it returns no DiffFile at all, whatever was parsed before. *)
Theorem parse_fails_iff (input : string) :
  ((parseUnifiedDiff input).2 <> None <->
   exists raw, raw ∈ input_lines input /\
               HasPrefix raw "@@ " = true /\ ~ header_shape raw) /\
  ((parseUnifiedDiff input).2 <> None -> (parseUnifiedDiff input).1 = []).
Proof.
  pose proof (scan_fails_iff (input_lines input) initial) as Hiff.
  setoid_rewrite hunkHeaderRE_None in Hiff.
  unfold parseUnifiedDiff.
  destruct (scan initial (input_lines input)) as [msg|st]; simpl.
  - split; [|done]. split; [|done]. intros _. apply Hiff. eauto.
  - split; [|done]. split; [done|]. intros H. apply Hiff in H as [? ?]. done.
Qed.

(** A header that lacks the closing [@@] aborts the parse although a file
    and a hunk were complete before it. *)
Example parse_fails_after_hunk :
  parseUnifiedDiff
    (Join ["--- a/x"; "+++ b/x"; "@@ -1 +1 @@"; "-a"; "+b"; "@@ -7,2 +7,2"] nl)
  = ([], Some "invalid hunk header: @@ -7,2 +7,2").
Proof. by vm_compute. Qed.

(* ===================================================================== *)
(** * Empty lines inside a hunk *)
(* ===================================================================== *)






(* ===================================================================== *)
(** * Range normalisation *)
(* ===================================================================== *)

(** ** The stages in the words of the specification *)

(** "dropping any range with non-positive bound" *)
Definition positive_bounds (r : LineRange) : bool :=
  ((0 <? RStart r) && (0 <? REnd r))%bool.

(** "an inverted input range is auto-swapped" *)
Definition swap_inverted (r : LineRange) : LineRange :=
  if REnd r <? RStart r then mkLineRange (REnd r) (RStart r) else r.

(** The order of "sorting by (start, end)". *)
Definition range_le (a b : LineRange) : Prop :=
  RStart a < RStart b \/ (RStart a = RStart b /\ REnd a <= REnd b).

(** "merging any two ranges where the next range's start is <= previous
    end + 1": [cur] is the range being grown, and the sum is the sum of
    the integers. *)
Fixpoint merge_spec (cur : LineRange) (rest : list LineRange) : list LineRange :=
  match rest with
  | [] => [cur]
  | r :: rest' =>
      if RStart r <=? REnd cur + 1
      then merge_spec (mkLineRange (RStart cur) (Z.max (REnd cur) (REnd r))) rest'
      else cur :: merge_spec r rest'
  end.

(** Normalisation as the specification words it: drop, swap, sort, merge. *)
Definition normalize_spec (ranges : list LineRange) : list LineRange :=
  match sort_Slice (List.map swap_inverted (List.filter positive_bounds ranges)) with
  | [] => []
  | c :: rest => merge_spec c rest
  end.

(** ** The loops of the code in closed form *)

(** The second loop of [normalizeRanges] by recursion on the rest of the
    slice: [cur] is [merged[len(merged)-1]], and [last.End+1] is Go's sum,
    which wraps at [MaxInt]. *)
Fixpoint merge_from (cur : LineRange) (rest : list LineRange) : list LineRange :=
  match rest with
  | [] => [cur]
  | r :: rest' =>
      if RStart r <=? GoInt.add (REnd cur) 1
      then merge_from (mkLineRange (RStart cur) (Z.max (REnd cur) (REnd r))) rest'
      else cur :: merge_from r rest'
  end.

(** What the two loops and the sort of [normalizeRanges] compute. *)
Definition normalize_stages (ranges : list LineRange) : list LineRange :=
  match sort_Slice (List.map swap_inverted (List.filter positive_bounds ranges)) with
  | [] => []
  | c :: rest => merge_from c rest
  end.

(** A list that is already normal: positive bounds, start <= end, and each
    range starts at least two after the end of the one before. *)
Fixpoint normalizedb (rs : list LineRange) : bool :=
  match rs with
  | [] => true
  | a :: rest =>
      ((0 <? RStart a) && (RStart a <=? REnd a)
       && match rest with
          | [] => true
          | b :: _ => REnd a + 2 <=? RStart b
          end
       && normalizedb rest)%bool
  end.

(** ** The sort *)

Lemma range_less_spec a b :
  range_less a b = true <-> range_le a b /\ a <> b.
Proof.
  unfold range_less, range_le. destruct a as [s1 e1], b as [s2 e2]. simpl.
  destruct (Z.eqb_spec s1 s2) as [->|Hne].
  - rewrite Z.ltb_lt. split.
    + intros H. split; [lia|]. intros [= ->]. lia.
    + intros [[H|[_ H]] Hneq]; [lia|].
      destruct (decide (e1 = e2)) as [->|]; [done|lia].
  - rewrite Z.ltb_lt. split.
    + intros H. split; [lia|]. intros [= -> _]. lia.
    + intros [[H|[H _]] _]; [lia|done].
Qed.

Lemma range_less_false a b : range_less a b = false -> range_le b a.
Proof.
  unfold range_less, range_le.
  destruct (Z.eqb_spec (RStart a) (RStart b)); intros H.
  - apply Z.ltb_ge in H. lia.
  - apply Z.ltb_ge in H. lia.
Qed.

Global Instance range_le_trans : Transitive range_le.
Proof. intros a b c. unfold range_le. lia. Qed.

Global Instance range_le_antisymm : AntiSymm (=) range_le.
Proof.
  intros [s1 e1] [s2 e2]. unfold range_le. simpl. intros H1 H2.
  f_equal; lia.
Qed.

Lemma insert_range_perm r l : insert_range r l ≡ₚ r :: l.
Proof.
  induction l as [|x l IH]; simpl; [done|].
  destruct (range_less x r); [|done].
  rewrite IH. apply perm_swap.
Qed.

Lemma sort_Slice_perm l : sort_Slice l ≡ₚ l.
Proof.
  induction l as [|x l IH]; simpl; [done|].
  by rewrite insert_range_perm, IH.
Qed.

Lemma insert_range_sorted r l :
  StronglySorted range_le l -> StronglySorted range_le (insert_range r l).
Proof.
  induction l as [|x l IH]; simpl; intros Hs.
  - repeat constructor.
  - apply StronglySorted_inv in Hs as [Hs Hall].
    destruct (range_less x r) eqn:Hlt.
    + constructor; [by apply IH|].
      rewrite (insert_range_perm r l). constructor; [|done].
      by apply range_less_spec in Hlt as [? _].
    + apply range_less_false in Hlt. constructor; [by constructor|].
      constructor; [done|].
      eapply Forall_impl; [exact Hall|]. intros y Hy. by etrans.
Qed.

Lemma sort_Slice_sorted l : StronglySorted range_le (sort_Slice l).
Proof.
  induction l as [|x l IH]; simpl; [constructor|by apply insert_range_sorted].
Qed.

(** Whatever algorithm [sort.Slice] runs, a result that is a permutation
    of the slice and sorted by [less] is this one. *)
Lemma sort_Slice_unique l l' :
  l' ≡ₚ l -> StronglySorted range_le l' -> l' = sort_Slice l.
Proof.
  intros Hp Hs. apply (StronglySorted_unique range_le); [done|apply sort_Slice_sorted|].
  by rewrite sort_Slice_perm.
Qed.

Lemma sort_Slice_length l : length (sort_Slice l) = length l.
Proof. by rewrite (sort_Slice_perm l). Qed.

(** ** The loops against the stages *)

Lemma clean_loop ranges : forall acc,
  fold_left clean_step ranges acc =
  acc ++ List.map swap_inverted (List.filter positive_bounds ranges).
Proof.
  induction ranges as [|r rs IH]; intros acc; simpl.
  - by rewrite app_nil_r.
  - rewrite IH. unfold clean_step, positive_bounds.
    destruct (Z.leb_spec (RStart r) 0) as [H1|H1];
      destruct (Z.leb_spec (REnd r) 0) as [H2|H2];
      destruct (Z.ltb_spec 0 (RStart r)); destruct (Z.ltb_spec 0 (REnd r));
      try lia; simpl; try done.
    by rewrite <- app_assoc.
Qed.

Lemma index_last {A} (pre : list A) (x : A) :
  index (pre ++ [x]) (len (pre ++ [x]) - 1) = Some x.
Proof.
  unfold index, len. rewrite length_app. simpl.
  destruct (Z.ltb_spec (Z.of_nat (length pre + 1) - 1) 0) as [H|H]; [lia|].
  replace (Z.to_nat (Z.of_nat (length pre + 1) - 1)) with (length pre + 0)%nat by lia.
  by rewrite lookup_app_r, Nat.add_0_r, Nat.sub_diag by lia.
Qed.

Lemma alter_last {A} (f : A -> A) (pre : list A) (x : A) :
  alter f (Z.to_nat (len (pre ++ [x]) - 1)) (pre ++ [x]) = pre ++ [f x].
Proof.
  unfold len. rewrite length_app. simpl.
  replace (Z.to_nat (Z.of_nat (length pre + 1) - 1)) with (length pre + 0)%nat by lia.
  by rewrite alter_app_r.
Qed.

(** One iteration on a slice whose last element is [cur]. *)
Lemma merge_step_last pre cur r :
  merge_step (pre ++ [cur]) r =
  Some (if RStart r <=? GoInt.add (REnd cur) 1
        then pre ++ [mkLineRange (RStart cur) (Z.max (REnd cur) (REnd r))]
        else (pre ++ [cur]) ++ [r]).
Proof.
  unfold merge_step. cbv zeta. rewrite index_last. cbn [mbind option_bind].
  destruct (RStart r <=? GoInt.add (REnd cur) 1); [|done].
  destruct (Z.ltb_spec (REnd cur) (REnd r)) as [Hlt|Hge].
  - rewrite alter_last. by rewrite Z.max_r by lia.
  - rewrite Z.max_l by lia. by destruct cur.
Qed.

(** The merge loop never indexes an empty slice, and computes
    [merge_from]. *)
Lemma merge_loop rest : forall pre cur,
  for_each merge_step rest (pre ++ [cur]) = Some (pre ++ merge_from cur rest).
Proof.
  induction rest as [|r rest IH]; intros pre cur; [done|].
  cbn [for_each merge_from]. rewrite merge_step_last. cbn [mbind option_bind].
  destruct (RStart r <=? GoInt.add (REnd cur) 1).
  - by rewrite IH.
  - rewrite IH. by rewrite <- app_assoc.
Qed.

(** [normalizeRanges] never panics and computes [normalize_stages]. *)
Lemma normalizeRanges_refines ranges :
  normalizeRanges ranges = Some (normalize_stages ranges).
Proof.
  unfold normalizeRanges, normalize_stages.
  rewrite (clean_loop ranges []). simpl.
  destruct ranges as [|r0 rs]; [done|].
  destruct (Z.eqb_spec (len (r0 :: rs)) 0) as [H|_]; [by unfold len in H|].
  set (cleaned := List.map swap_inverted (List.filter positive_bounds (r0 :: rs))).
  destruct (Z.eqb_spec (len cleaned) 0) as [H0|Hne].
  - destruct cleaned; [done|]. by unfold len in H0.
  - pose proof (sort_Slice_length cleaned) as Hlen.
    destruct (sort_Slice cleaned) as [|c rest]; simpl.
    + unfold len in Hne. simpl in Hlen. lia.
    + apply (merge_loop rest [] c).
Qed.

(** ** Lists that are already normal *)

Lemma sort_Slice_normalized rs : normalizedb rs = true -> sort_Slice rs = rs.
Proof.
  induction rs as [|a rest IH]; [done|]. simpl.
  intros (((Ha & Hae)%andb_true_iff & Hgap)%andb_true_iff & Hrest)%andb_true_iff.
  rewrite (IH Hrest). destruct rest as [|b rest']; [done|]. simpl.
  apply Z.ltb_lt in Ha. apply Z.leb_le in Hae, Hgap.
  unfold range_less. destruct (Z.eqb_spec (RStart b) (RStart a)); [lia|].
  by destruct (Z.ltb_spec (RStart b) (RStart a)); [lia|].
Qed.

Lemma merge_from_normalized rest : forall a,
  normalizedb (a :: rest) = true -> merge_from a rest = a :: rest.
Proof.
  induction rest as [|b rest IH]; intros a; [done|].
  intros H. pose proof H as H'. simpl in H.
  apply andb_true_iff in H as [H Hrest].
  apply andb_true_iff in H as [H Hgap].
  apply andb_true_iff in H as [Ha Hae].
  apply Z.ltb_lt in Ha. apply Z.leb_le in Hae, Hgap.
  cbn [merge_from].
  assert (GoInt.add (REnd a) 1 <= REnd a + 1) as Hw
    by (apply wrap_le; unfold GoInt.MinInt; lia).
  destruct (Z.leb_spec (RStart b) (GoInt.add (REnd a) 1)); [lia|].
  f_equal. apply IH. exact Hrest.
Qed.

Lemma normalized_clean rs :
  normalizedb rs = true ->
  List.map swap_inverted (List.filter positive_bounds rs) = rs.
Proof.
  induction rs as [|a rest IH]; [done|]. intros H. pose proof H as H'. simpl in H.
  apply andb_true_iff in H as [H Hrest].
  apply andb_true_iff in H as [H _].
  apply andb_true_iff in H as [Ha Hae].
  apply Z.ltb_lt in Ha. apply Z.leb_le in Hae.
  simpl. unfold positive_bounds at 1.
  destruct (Z.ltb_spec 0 (RStart a)); [|lia].
  destruct (Z.ltb_spec 0 (REnd a)); [|lia]. simpl.
  rewrite (IH Hrest). f_equal. unfold swap_inverted.
  by destruct (Z.ltb_spec (REnd a) (RStart a)); [lia|].
Qed.

(** ** The code against the specification *)

(** Below [MaxInt] the sum of the loop is the sum of the integers, and
    the loop merges where the specification says. *)
Lemma merge_from_spec rest : forall cur,
  Forall (fun r => GoInt.MinInt <= REnd r < GoInt.MaxInt) (cur :: rest) ->
  merge_from cur rest = merge_spec cur rest.
Proof.
  induction rest as [|r rest IH]; intros cur H; [done|].
  apply Forall_cons in H as [Hc H]. pose proof H as H'.
  apply Forall_cons in H' as [Hr Hrest].
  cbn [merge_from merge_spec]. unfold GoInt.add.
  rewrite wrap_id by (unfold GoInt.in_range, GoInt.MinInt, GoInt.MaxInt in *; lia).
  destruct (RStart r <=? REnd cur + 1).
  - apply IH. constructor; [simpl; lia|done].
  - f_equal. by apply IH.
Qed.

(** With every bound below [MaxInt], [normalizeRanges] is the
    normalisation of the specification: it drops the ranges with a
    non-positive bound, swaps the inverted ones, sorts by (start, end) and
    merges a range into the one before it exactly when its start is <=
    that one's end + 1. *)
Lemma normalizeRanges_below_MaxInt ranges :
  Forall (fun r => RStart r < GoInt.MaxInt /\ REnd r < GoInt.MaxInt) ranges ->
  normalizeRanges ranges = Some (normalize_spec ranges).
Proof.
  intros Hmax. rewrite normalizeRanges_refines. f_equal.
  unfold normalize_stages, normalize_spec.
  set (cleaned := List.map swap_inverted (List.filter positive_bounds ranges)).
  assert (Forall (fun r => GoInt.MinInt <= REnd r < GoInt.MaxInt) (sort_Slice cleaned))
    as Hm.
  { rewrite (sort_Slice_perm cleaned). subst cleaned.
    induction ranges as [|r rs IH]; simpl; [constructor|].
    apply Forall_cons in Hmax as [[H1 H2] Hmax].
    destruct (positive_bounds r) eqn:Hp; simpl; [|by apply IH].
    constructor; [|by apply IH].
    unfold positive_bounds in Hp. apply andb_true_iff in Hp as [Hp1 Hp2].
    apply Z.ltb_lt in Hp1, Hp2. unfold swap_inverted.
    destruct (REnd r <? RStart r); simpl; unfold GoInt.MinInt; lia. }
  destruct (sort_Slice cleaned) as [|c rest]; [done|]. by apply merge_from_spec.
Qed.

(** A list that is sorted, with positive start <= end and gaps of at least
    2, is returned unchanged, whatever its bounds. *)
Lemma normalizeRanges_normalized ranges :
  normalizedb ranges = true -> normalizeRanges ranges = Some ranges.
Proof.
  intros Hn. rewrite normalizeRanges_refines. f_equal.
  unfold normalize_stages. rewrite (normalized_clean _ Hn), (sort_Slice_normalized _ Hn).
  destruct ranges as [|a rest]; [done|]. by apply merge_from_normalized.
Qed.

(** The example of the specification, and a list that is already normal. *)
Remark normalize_example :
  normalizeRanges [mkLineRange 5 10; mkLineRange 9 15; mkLineRange 20 22]
    = Some [mkLineRange 5 15; mkLineRange 20 22] /\
  normalizeRanges [mkLineRange 5 15; mkLineRange 20 22]
    = Some [mkLineRange 5 15; mkLineRange 20 22].
Proof. split; by vm_compute. Qed.

(** C5: [normalizeRanges] does not merge exactly when the next start is
    <= the previous end + 1.  For the ranges {1, MaxInt} and {5, 10} the
    next start 5 is <= MaxInt + 1, and the normalisation of the
    specification is the one range {1, MaxInt}; but [last.End+1] is
    computed in [int] and wraps to [MinInt], so the code merges nothing and
    returns both ranges, the second inside the first. *)
Theorem no_merge_at_MaxInt :
  let input := [mkLineRange 1 GoInt.MaxInt; mkLineRange 5 10] in
  5 <= GoInt.MaxInt + 1 /\
  GoInt.add GoInt.MaxInt 1 = GoInt.MinInt /\
  normalize_spec input = [mkLineRange 1 GoInt.MaxInt] /\
  normalizeRanges input = Some [mkLineRange 1 GoInt.MaxInt; mkLineRange 5 10] /\
  normalizeRanges input <> Some (normalize_spec input).
Proof. cbv zeta. repeat split; by vm_compute. Qed.

(* ===================================================================== *)
(** * The view projector *)
(* ===================================================================== *)

(** ** Loops that append one element per iteration *)

Lemma fold_left_snoc {A B} (g : A -> B) (xs : list A) : forall acc,
  fold_left (fun acc x => acc ++ [g x]) xs acc = acc ++ List.map g xs.
Proof.
  induction xs as [|x xs IH]; intros acc; simpl.
  - by rewrite app_nil_r.
  - by rewrite IH, <- app_assoc.
Qed.

Lemma for_range_snoc {A B} (g : Z -> A -> B) (xs : list A) : forall i0 acc,
  for_range (fun acc i x => acc ++ [g i x]) i0 xs acc =
  acc ++ imap (fun k x => g (i0 + Z.of_nat k) x) xs.
Proof.
  induction xs as [|x xs IH]; intros i0 acc; simpl.
  - by rewrite app_nil_r.
  - rewrite IH, <- app_assoc. simpl. rewrite Z.add_0_r. do 2 f_equal.
    apply imap_ext. intros k y _. simpl. f_equal. lia.
Qed.

(** ** Comments of a line *)

(** The comment is on [path] and its range holds [n]. *)
Definition covers (path : string) (n : Z) (c : Comment) : bool :=
  (String.eqb (CPath c) path && (StartLine c <=? n) && (n <=? EndLine c))%bool.

(** The comment is on [path] and starts at [n]. *)
Definition anchored (path : string) (n : Z) (c : Comment) : bool :=
  (String.eqb (CPath c) path && (n =? StartLine c))%bool.

Definition render_comment (c : Comment) : ViewComment :=
  mkViewComment c (renderMarkdown (CText c)).

Lemma comment_step_eq path n b l c :
  comment_step path n (b, l) c =
  ((b || covers path n c)%bool,
   l ++ (if anchored path n c then [render_comment c] else [])).
Proof.
  unfold comment_step, covers, anchored.
  destruct (String.eqb (CPath c) path); simpl.
  - f_equal.
    + destruct ((StartLine c <=? n) && (n <=? EndLine c))%bool;
        [by rewrite orb_true_r|by rewrite orb_false_r].
    + destruct (n =? StartLine c); [done|by rewrite app_nil_r].
  - by rewrite orb_false_r, app_nil_r.
Qed.

Lemma projectLineComments_loop path n comments : forall b l,
  fold_left (comment_step path n) comments (b, l) =
  ((b || existsb (covers path n) comments)%bool,
   l ++ List.map render_comment (List.filter (anchored path n) comments)).
Proof.
  induction comments as [|c cs IH]; intros b l; cbn [fold_left].
  - simpl. by rewrite orb_false_r, app_nil_r.
  - rewrite comment_step_eq, IH. cbn [existsb List.filter]. f_equal.
    + by rewrite orb_assoc.
    + rewrite <- app_assoc. by destruct (anchored path n c).
Qed.

Lemma projectLineComments_eq path n comments :
  projectLineComments path n comments =
  (existsb (covers path n) comments,
   List.map render_comment (List.filter (anchored path n) comments)).
Proof. unfold projectLineComments. by rewrite projectLineComments_loop. Qed.

(** What the projection of line [n] of [path] must satisfy: the flag is
    range containment, the attached comments are those that start at [n],
    in the order of the comment list. *)
Definition anchoring_rule (path : string) (n : Z) (comments : list Comment)
    (commented : bool) (attached : list ViewComment) : Prop :=
  (commented = true <->
   exists c, c ∈ comments /\ CPath c = path /\ StartLine c <= n <= EndLine c) /\
  attached = List.map render_comment (List.filter (anchored path n) comments) /\
  (forall c, render_comment c ∈ attached <->
             c ∈ comments /\ CPath c = path /\ n = StartLine c).

Lemma covers_spec path n c :
  covers path n c = true <-> CPath c = path /\ StartLine c <= n <= EndLine c.
Proof.
  clear. unfold covers. rewrite !andb_true_iff, String.eqb_eq, !Z.leb_le. tauto.
Qed.

Lemma anchored_spec path n c :
  anchored path n c = true <-> CPath c = path /\ n = StartLine c.
Proof.
  clear. unfold anchored. rewrite andb_true_iff, String.eqb_eq, Z.eqb_eq. tauto.
Qed.

Lemma projectLineComments_rule path n comments :
  anchoring_rule path n comments
    (projectLineComments path n comments).1 (projectLineComments path n comments).2.
Proof.
  rewrite projectLineComments_eq. simpl. split; [|split; [done|]].
  - rewrite existsb_exists. split.
    + intros (c & Hin & Hc). exists c. apply covers_spec in Hc.
      split; [by apply list_elem_of_In|done].
    + intros (c & Hin & Hc). exists c. split; [by apply list_elem_of_In|].
      by apply covers_spec.
  - intros c. rewrite list_elem_of_In, in_map_iff. split.
    + intros (c' & [= ->] & Hin). apply filter_In in Hin as [Hin Ha].
      apply anchored_spec in Ha. split; [by apply list_elem_of_In|done].
    + intros (Hin & Ha). exists c. split; [done|]. apply filter_In.
      split; [by apply list_elem_of_In|by apply anchored_spec].
Qed.

(** ** The diff view, line by line *)

(** The highlighted lines that [buildViewDiff] indexes for hunk [h]. *)
Definition rendered_hunk (path : string) (render : bool) (h : DiffHunk) : list HTML :=
  if render
  then RenderLines path (fold_left (fun lines dl => lines ++ [Text dl]) (Lines h) [])
  else [].

(** The view has one hunk per hunk and one line per line, at the same
    places. *)
Lemma buildViewDiff_lookup file comments start end_ render j h i dl :
  Hunks file !! j = Some h -> Lines h !! i = Some dl ->
  exists vh,
    VDHunks (buildViewDiff file comments start end_ render) !! j = Some vh /\
    Header vh = hunk_header h /\
    VDLines vh !! i =
      Some (buildViewDiffLine (DPath file) comments start end_
              (rendered_hunk (DPath file) render h) (Z.of_nat i) dl).
Proof.
  intros Hj Hi. unfold buildViewDiff. simpl. rewrite fold_left_snoc. simpl.
  exists (buildViewDiffHunk (DPath file) comments start end_ render h).
  split; [by rewrite list_lookup_fmap, Hj|]. split; [done|].
  unfold buildViewDiffHunk. simpl. rewrite for_range_snoc. simpl.
  by rewrite list_lookup_imap, Hi.
Qed.

Lemma buildViewDiff_shape file comments start end_ render :
  length (VDHunks (buildViewDiff file comments start end_ render)) = length (Hunks file) /\
  Forall2 (fun vh h => length (VDLines vh) = length (Lines h))
    (VDHunks (buildViewDiff file comments start end_ render)) (Hunks file).
Proof.
  unfold buildViewDiff. simpl. rewrite fold_left_snoc. simpl. split.
  - by rewrite length_map.
  - apply Forall2_fmap_l, Forall_Forall2_diag, Forall_forall. intros h _.
    unfold buildViewDiffHunk. simpl. rewrite for_range_snoc. simpl.
    by rewrite length_imap.
Qed.

Lemma selectable_spec dl :
  selectable dl = true <-> 0 < NewLine dl /\ Kind dl <> DiffDel.
Proof.
  unfold selectable. rewrite andb_true_iff, negb_true_iff, Z.ltb_lt.
  by rewrite String.eqb_neq.
Qed.

Lemma buildViewDiffLine_fields path comments start end_ rendered i dl :
  let vl := buildViewDiffLine path comments start end_ rendered i dl in
  VDKind vl = Kind dl /\ VDOldLine vl = OldLine dl /\
  VDNewLine vl = NewLine dl /\ VDText vl = Text dl /\
  VDSelected vl =
    (selectable dl && (0 <? start) && (0 <? end_)
     && (start <=? NewLine dl) && (NewLine dl <=? end_))%bool /\
  (VDCommented vl, VDComments vl) =
    if 0 <? NewLine dl then projectLineComments path (NewLine dl) comments
    else (false, []).
Proof.
  unfold buildViewDiffLine.
  destruct (if 0 <? NewLine dl then _ else _) as [commented lineComments].
  simpl. repeat split.
  destruct (selectable dl); simpl; [|done].
  by destruct ((0 <? start) && (0 <? end_) && (start <=? NewLine dl)
               && (NewLine dl <=? end_))%bool.
Qed.

(** C6: for every line of every hunk, buildViewDiff holds a view line at
    the same place; the line is selectable exactly when newLine > 0 and
    its kind is not delete; its Selected flag is true exactly when it is
    selectable, start > 0 and end > 0, and start <= newLine <= end; a delete
    line is never Selected. *)
Theorem diff_line_selection (file : DiffFile) (comments : list Comment)
    (start end_ : Z) (render : bool) (j i : nat) (h : DiffHunk) (dl : DiffLine) :
  Hunks file !! j = Some h ->
  Lines h !! i = Some dl ->
  exists vh vl,
    VDHunks (buildViewDiff file comments start end_ render) !! j = Some vh /\
    VDLines vh !! i = Some vl /\
    VDKind vl = Kind dl /\ VDOldLine vl = OldLine dl /\
    VDNewLine vl = NewLine dl /\ VDText vl = Text dl /\
    (selectable dl = true <-> 0 < NewLine dl /\ Kind dl <> DiffDel) /\
    (VDSelected vl = true <->
     selectable dl = true /\ (0 < start /\ 0 < end_) /\
     start <= NewLine dl <= end_) /\
    (Kind dl = DiffDel -> VDSelected vl = false).
Proof.
  intros Hj Hi.
  destruct (buildViewDiff_lookup file comments start end_ render j h i dl Hj Hi)
    as (vh & Hvh & _ & Hvl).
  exists vh. eexists. split; [exact Hvh|]. split; [exact Hvl|].
  destruct (buildViewDiffLine_fields (DPath file) comments start end_
              (rendered_hunk (DPath file) render h) (Z.of_nat i) dl)
    as (Hk & Ho & Hn & Ht & Hsel & _).
  split; [exact Hk|]. split; [exact Ho|]. split; [exact Hn|]. split; [exact Ht|].
  split; [apply selectable_spec|]. rewrite Hsel. split.
  - rewrite !andb_true_iff, !Z.ltb_lt, !Z.leb_le. tauto.
  - intros Hdel. unfold selectable. rewrite Hdel. simpl.
    by rewrite andb_false_r.
Qed.

(** ** The file view, line by line *)

(** The comment flag and the attached comments of a file view line follow
    the rule for the line's own number. *)
Definition line_ok (file : File) (comments : list Comment) (vl : ViewLine) : Prop :=
  anchoring_rule (FPath file) (Number vl) comments (Commented vl) (Comments vl).

Lemma index_Some {A} (l : list A) (i : Z) :
  0 <= i < len l -> is_Some (index l i).
Proof.
  unfold index, len. intros H. destruct (Z.ltb_spec i 0); [lia|].
  apply lookup_lt_is_Some. lia.
Qed.

Lemma buildSingleViewLine_Some file comments start end_ rendered idx :
  0 <= idx < len (FLines file) ->
  exists vl,
    buildSingleViewLine file comments start end_ rendered idx = Some vl /\
    Number vl = idx + 1 /\
    index (FLines file) idx = Some (VText vl) /\
    Selected vl =
      ((0 <? start) && (0 <? end_) && (start <=? idx + 1) && (idx + 1 <=? end_))%bool /\
    line_ok file comments vl.
Proof.
  intros Hidx. destruct (index_Some (FLines file) idx Hidx) as [raw Hraw].
  unfold buildSingleViewLine, line_ok. rewrite Hraw. simpl.
  pose proof (projectLineComments_rule (FPath file) (idx + 1) comments) as Hrule.
  destruct (projectLineComments (FPath file) (idx + 1) comments) as [b l].
  eexists. split; [done|]. simpl. done.
Qed.

(** The inner loop over line indices that are in range. *)
Lemma append_lines_loop file comments start end_ rendered (idxs : list Z) :
  forall lines,
  Forall (fun i => 0 <= i < len (FLines file)) idxs ->
  exists new,
    for_each (fun lines i =>
                vl ← buildSingleViewLine file comments start end_ rendered i;
                Some (lines ++ [vl])) idxs lines = Some (lines ++ new) /\
    Forall (line_ok file comments) new /\
    Number <$> new = (fun i => i + 1) <$> idxs.
Proof.
  induction idxs as [|i idxs IH]; intros lines Hall.
  - exists []. simpl. by rewrite app_nil_r.
  - apply Forall_cons in Hall as [Hi Hall].
    destruct (buildSingleViewLine_Some file comments start end_ rendered i Hi)
      as (vl & Hvl & Hnum & _ & _ & Hok).
    destruct (IH (lines ++ [vl]) Hall) as (new & Hloop & Hnew & Hnums).
    exists (vl :: new). cbn [for_each]. rewrite Hvl. cbn [mbind option_bind].
    rewrite Hloop, <- app_assoc. split; [done|]. split; [by constructor|].
    by rewrite !fmap_cons, Hnum, Hnums.
Qed.

Lemma append_lines_Some file comments start end_ rendered lo hi lines :
  0 <= lo -> hi <= len (FLines file) ->
  exists new,
    append_lines file comments start end_ rendered lo hi lines = Some (lines ++ new) /\
    Forall (line_ok file comments) new /\
    Number <$> new = (fun i => i + 1) <$> seqZ lo (hi - lo).
Proof.
  intros Hlo Hhi. apply append_lines_loop.
  apply Forall_seqZ. intros i Hi. lia.
Qed.

(** [buildViewLines] never panics; it projects the lines 1, ..., n. *)
Lemma buildViewLines_Some file comments start end_ rendered :
  exists lines,
    buildViewLines file comments start end_ rendered = Some lines /\
    Forall (line_ok file comments) lines /\
    Number <$> lines = seqZ 1 (len (FLines file)).
Proof.
  destruct (append_lines_Some file comments start end_ rendered 0 (len (FLines file)) [])
    as (new & Heq & Hok & Hnum); [lia|lia|].
  exists new. split; [exact Heq|]. split; [exact Hok|].
  rewrite Hnum, Z.sub_0_r. rewrite <- (fmap_add_seqZ 1 0).
  apply list_fmap_ext. intros _ i _. lia.
Qed.

Lemma range_loop_Some file comments start end_ rendered norm : forall lines,
  Forall (line_ok file comments) lines ->
  exists lines',
    for_each (range_step file comments start end_ rendered) norm lines = Some lines' /\
    Forall (line_ok file comments) lines'.
Proof.
  induction norm as [|r norm IH]; intros lines Hok; [by exists lines|].
  assert (exists new,
            range_step file comments start end_ rendered lines r = Some (lines ++ new) /\
            Forall (line_ok file comments) new) as (new & Heq & Hnew).
  { unfold range_step. cbv zeta.
    edestruct append_lines_Some as (new & Heq & Hnew & _); [| |by eauto].
    - destruct (Z.ltb_spec (RStart r) 1); lia.
    - destruct (Z.ltb_spec (len (FLines file)) (REnd r)); lia. }
  cbn [for_each]. rewrite Heq. cbn [mbind option_bind]. apply IH.
  apply Forall_app. by split.
Qed.

(** [buildViewLinesWithRanges] never panics. *)
Lemma buildViewLinesWithRanges_Some file comments start end_ rendered ranges :
  exists lines,
    buildViewLinesWithRanges file comments start end_ rendered ranges = Some lines /\
    Forall (line_ok file comments) lines.
Proof.
  unfold buildViewLinesWithRanges. destruct (len ranges =? 0).
  - destruct (buildViewLines_Some file comments start end_ rendered)
      as (lines & Heq & Hok & _). by exists lines.
  - rewrite normalizeRanges_refines. cbn [mbind option_bind].
    by apply range_loop_Some.
Qed.

(** C7: a projected line with number N (the line number in file mode, the
    newLine of a diff line with newLine > 0 in diff mode) has Commented
    true exactly when a comment on the same path has startLine <= N <=
    endLine, and carries the rendered comments whose startLine is N; a
    comment {5,7} flags the lines 5, 6 and 7 and its body is on line 5
    only. *)
Theorem comment_anchoring :
  (forall file comments start end_ rendered ranges,
     exists lines,
       buildViewLinesWithRanges file comments start end_ rendered ranges = Some lines /\
       forall vl, vl ∈ lines ->
         anchoring_rule (FPath file) (Number vl) comments (Commented vl) (Comments vl)) /\
  (forall file comments start end_ rendered,
     exists lines,
       buildViewLines file comments start end_ rendered = Some lines /\
       Number <$> lines = seqZ 1 (len (FLines file))) /\
  (forall file comments start end_ render (j i : nat) h dl,
     Hunks file !! j = Some h -> Lines h !! i = Some dl ->
     exists vh vl,
       VDHunks (buildViewDiff file comments start end_ render) !! j = Some vh /\
       VDLines vh !! i = Some vl /\ VDNewLine vl = NewLine dl /\
       (0 < NewLine dl ->
        anchoring_rule (DPath file) (NewLine dl) comments
          (VDCommented vl) (VDComments vl)) /\
       (NewLine dl <= 0 -> VDCommented vl = false /\ VDComments vl = [])) /\
  (forall path text n,
     let c := mkComment path 5 7 text in
     ((projectLineComments path n [c]).1 = true <-> n = 5 \/ n = 6 \/ n = 7) /\
     (projectLineComments path n [c]).2 = if n =? 5 then [render_comment c] else []).
Proof.
  split; [|split; [|split]].
  - intros file comments start end_ rendered ranges.
    destruct (buildViewLinesWithRanges_Some file comments start end_ rendered ranges)
      as (lines & Heq & Hok).
    exists lines. split; [exact Heq|]. intros vl Hvl.
    rewrite Forall_forall in Hok. by apply Hok.
  - intros file comments start end_ rendered.
    destruct (buildViewLines_Some file comments start end_ rendered)
      as (lines & Heq & _ & Hnum). by exists lines.
  - intros file comments start end_ render j i h dl Hj Hi.
    destruct (buildViewDiff_lookup file comments start end_ render j h i dl Hj Hi)
      as (vh & Hvh & _ & Hvl).
    exists vh. eexists. split; [exact Hvh|]. split; [exact Hvl|].
    destruct (buildViewDiffLine_fields (DPath file) comments start end_
                (rendered_hunk (DPath file) render h) (Z.of_nat i) dl)
      as (_ & _ & Hn & _ & _ & Hc).
    split; [exact Hn|]. split.
    + intros Hpos. destruct (Z.ltb_spec 0 (NewLine dl)); [|lia].
      pose proof (projectLineComments_rule (DPath file) (NewLine dl) comments) as Hr.
      rewrite <- Hc in Hr. exact Hr.
    + intros Hle. destruct (Z.ltb_spec 0 (NewLine dl)); [lia|]. by injection Hc.
  - intros path text n c. rewrite projectLineComments_eq. simpl.
    unfold covers, anchored. simpl. rewrite String.eqb_refl. simpl.
    rewrite orb_false_r. split.
    + rewrite andb_true_iff, !Z.leb_le. lia.
    + rewrite (Z.eqb_sym n 5). by destruct (5 =? n).
Qed.

(* ===================================================================== *)
(** * The selection and comment handlers *)
(* ===================================================================== *)

(** The session state proper: every field but the derived view
    ([ViewFile], [ViewDiff], [SelectedLabel]) and the per-path markdown
    toggle that [updateFileView] fills in. *)
Record session := mkSession {
  s_Files : list File;
  s_DiffFiles : list DiffFile;
  s_Tree : list TreeItem;
  s_SelectedPath : string;
  s_CodeViewKey : string;
  s_Mode : ViewMode;
  s_RenderFile : bool;
  s_RenderComments : bool;
  s_Prompt : string;
  s_PromptHTML : HTML;
  s_SelectionStart : Z;
  s_SelectionEnd : Z;
  s_CommentDraft : string;
  s_Comments : list Comment;
  s_Ranges : gmap string (list LineRange);
  s_Error : string
}.

Definition session_of (m : ReviewModel) : session :=
  mkSession (Files m) (DiffFiles m) (Tree m) (SelectedPath m) (CodeViewKey m) (Mode m)
    (RenderFile m) (RenderComments m) (Prompt m) (PromptHTML m)
    (SelectionStart m) (SelectionEnd m) (CommentDraft m) (MComments m) (Ranges m)
    (Error m).

Lemma formatSelectedLabel_Some path ranges : is_Some (formatSelectedLabel path ranges).
Proof.
  unfold formatSelectedLabel. destruct (len ranges =? 0); [done|].
  by rewrite normalizeRanges_refines.
Qed.

Lemma finish_file_view_Some m vf :
  exists m', finish_file_view m vf = Some m' /\ session_of m' = session_of m.
Proof.
  unfold finish_file_view.
  destruct (formatSelectedLabel_Some (SelectedPath (set_ViewFile m vf))
              (ranges_of (set_ViewFile m vf) (SelectedPath (set_ViewFile m vf))))
    as [label ->].
  by eexists.
Qed.

Lemma updateFileView_Some m :
  exists m', updateFileView m = Some m' /\ session_of m' = session_of m.
Proof.
  unfold updateFileView.
  destruct (findFile (Files m) (SelectedPath m)) as [sf|]; [|apply finish_file_view_Some].
  set (mdFile := isMarkdownPath (FPath sf)).
  assert (exists m1 r,
    (if mdFile
     then match MarkdownRenderByPath m !! FPath sf with
          | Some rendered => (m, rendered)
          | None => (set_MarkdownRenderByPath m
                       (<[FPath sf:=true]> (MarkdownRenderByPath m)), true)
          end
     else (m, false)) = (m1, r) /\ session_of m1 = session_of m) as (m1 & r & -> & Hm1).
  { destruct mdFile; [|by eexists _, _].
    destruct (MarkdownRenderByPath m !! FPath sf); by eexists _, _. }
  destruct (mdFile && r)%bool.
  - destruct (finish_file_view_Some m1
                (mkViewFile (SelectedPath m1) [] mdFile r
                   (renderMarkdown (Join (FLines sf) (String LF "")))))
      as (m' & -> & Hs). exists m'. split; [done|congruence].
  - destruct (buildViewLinesWithRanges_Some sf (MComments m1) (SelectionStart m1)
                (SelectionEnd m1)
                (if RenderFile m1 then RenderLines (FPath sf) (FLines sf) else [])
                (ranges_of m1 (FPath sf))) as (lines & -> & _).
    cbn [mbind option_bind].
    destruct (finish_file_view_Some m1 (mkViewFile (SelectedPath m1) lines mdFile r ""))
      as (m' & -> & Hs). exists m'. split; [done|congruence].
Qed.

(** [updateView] never panics and leaves the session state alone. *)
Lemma updateView_Some m :
  exists m', updateView m = Some m' /\ session_of m' = session_of m.
Proof.
  unfold updateView. destruct (String.eqb (Mode m) ModeDiff).
  - by eexists.
  - apply updateFileView_Some.
Qed.

(** ** Which lines of a diff can be clicked *)

Lemma diffLineExists_spec files path line :
  diffLineExists files path line = true <->
  exists f h dl,
    findDiffFile files path = Some f /\ h ∈ Hunks f /\ dl ∈ Lines h /\
    NewLine dl = line /\ Kind dl <> DiffDel.
Proof.
  unfold diffLineExists. destruct (findDiffFile files path) as [f|].
  - rewrite existsb_exists. split.
    + intros (h & Hh & Hex). apply existsb_exists in Hex as (dl & Hdl & Hc).
      apply andb_true_iff in Hc as [Hn Hk].
      apply Z.eqb_eq in Hn. apply negb_true_iff, String.eqb_neq in Hk.
      exists f, h, dl. by rewrite !list_elem_of_In.
    + intros (f' & h & dl & [= <-] & Hh & Hdl & Hn & Hk).
      exists h. split; [by apply list_elem_of_In|].
      apply existsb_exists. exists dl. split; [by apply list_elem_of_In|].
      apply andb_true_iff. split; [by apply Z.eqb_eq|].
      by apply negb_true_iff, String.eqb_neq.
  - split; [done|]. by intros (f & h & dl & ? & _).
Qed.

(** The two guards of the handler let the click through. *)
Definition guard_passed (m : ReviewModel) (line : Z) : Prop :=
  0 < line /\
  (Mode m = ModeDiff -> diffLineExists (DiffFiles m) (SelectedPath m) line = true).

(** [line] is the newLine of a line of the selected diff file that is not
    a deleted one. *)
Definition new_line_of (m : ReviewModel) (line : Z) : Prop :=
  exists f h dl,
    findDiffFile (DiffFiles m) (SelectedPath m) = Some f /\ h ∈ Hunks f /\
    dl ∈ Lines h /\ NewLine dl = line /\ Kind dl <> DiffDel.

(** A click that can be taken: the line number is positive and, in diff
    mode, it is the newLine of a non-delete line of the selected file. *)
Definition click_taken (m : ReviewModel) (line : Z) : Prop :=
  0 < line /\ (Mode m = ModeDiff -> new_line_of m line).

Lemma click_taken_guard m line : click_taken m line -> guard_passed m line.
Proof.
  intros [Hpos Hdiff]. split; [done|]. intros Hmode.
  apply diffLineExists_spec. exact (Hdiff Hmode).
Qed.

(** It depends on the mode, the diff and the selected path only. *)
Lemma click_taken_same m m' line :
  Mode m' = Mode m -> DiffFiles m' = DiffFiles m -> SelectedPath m' = SelectedPath m ->
  click_taken m line -> click_taken m' line.
Proof.
  intros Hm Hd Hp [Hpos Hdiff]. split; [done|].
  unfold new_line_of. rewrite Hm, Hd, Hp. exact Hdiff.
Qed.

(** The session state after a taken click that selects [s..e]. *)
Definition selected (m : ReviewModel) (s e : Z) : session :=
  session_of (set_Error (set_Selection m s e) "").

Lemma selectLine_taken m line shiftParam :
  guard_passed m line ->
  exists m',
    selectLine m line shiftParam = Some m' /\
    session_of m' =
      if (String.eqb shiftParam "1" && (0 <? SelectionStart m))%bool
      then selected m (Z.min (SelectionStart m) line) (Z.max (SelectionStart m) line)
      else selected m line line.
Proof.
  intros [Hpos Hdiff]. unfold selectLine.
  destruct (Z.leb_spec line 0); [lia|].
  assert ((String.eqb (Mode m) ModeDiff
           && negb (diffLineExists (DiffFiles m) (SelectedPath m) line))%bool = false) as ->.
  { destruct (String.eqb_spec (Mode m) ModeDiff) as [He|]; [|done].
    by rewrite (Hdiff He). }
  destruct (String.eqb shiftParam "1" && (0 <? SelectionStart m))%bool.
  - destruct (Z.ltb_spec line (SelectionStart m)).
    + rewrite Z.min_r, Z.max_l by lia. apply updateView_Some.
    + rewrite Z.min_l, Z.max_r by lia. apply updateView_Some.
  - apply updateView_Some.
Qed.

(** C8: select-line.  A click that can be taken, without shift, selects
    {L, L} from any state; with shift and a prior non-empty selection it
    keeps the prior start as anchor and selects {min(anchor, L),
    max(anchor, L)}; with shift and the empty selection it is a plain
    click; in diff mode a click on a number that is not the newLine of a
    non-delete line of the selected file changes nothing; select(5) then
    shift-select(2) gives {2, 5}, in file mode and in diff mode.  A click
    can be taken when its line number is positive and, in diff mode, is the
    newLine of a non-delete line of the selected file; a number <= 0 is
    ignored. *)
Theorem select_line_behaviour :
  (forall m L shiftParam,
     click_taken m L -> shiftParam <> "1" ->
     exists m', selectLine m L shiftParam = Some m' /\
       SelectionStart m' = L /\ SelectionEnd m' = L /\
       session_of m' = selected m L L) /\
  (forall m L,
     click_taken m L -> 0 < SelectionStart m -> 0 < SelectionEnd m ->
     exists m', selectLine m L "1" = Some m' /\
       SelectionStart m' = Z.min (SelectionStart m) L /\
       SelectionEnd m' = Z.max (SelectionStart m) L /\
       session_of m' = selected m (Z.min (SelectionStart m) L) (Z.max (SelectionStart m) L)) /\
  (forall m L shiftParam,
     SelectionStart m = 0 -> SelectionEnd m = 0 ->
     selectLine m L "1" = selectLine m L shiftParam) /\
  (forall m L shiftParam,
     Mode m = ModeDiff -> ~ new_line_of m L ->
     selectLine m L shiftParam = Some m) /\
  (forall m, click_taken m 5 -> click_taken m 2 ->
     exists m1 m2,
       selectLine m 5 "" = Some m1 /\ selectLine m1 2 "1" = Some m2 /\
       SelectionStart m2 = 2 /\ SelectionEnd m2 = 5) /\
  (forall m L shiftParam, L <= 0 -> selectLine m L shiftParam = Some m).
Proof.
  split; [|split; [|split; [|split; [|split]]]].
  - intros m L p Htaken%click_taken_guard Hp.
    destruct (selectLine_taken m L p Htaken) as (m' & Heq & Hs).
    apply String.eqb_neq in Hp. rewrite Hp in Hs. simpl in Hs.
    exists m'. split; [exact Heq|].
    split; [exact (f_equal s_SelectionStart Hs)|].
    split; [exact (f_equal s_SelectionEnd Hs)|exact Hs].
  - intros m L Htaken%click_taken_guard Hstart _.
    destruct (selectLine_taken m L "1" Htaken) as (m' & Heq & Hs).
    destruct (Z.ltb_spec 0 (SelectionStart m)); [|lia]. simpl in Hs.
    exists m'. split; [exact Heq|].
    split; [exact (f_equal s_SelectionStart Hs)|].
    split; [exact (f_equal s_SelectionEnd Hs)|exact Hs].
  - intros m L p Hs _. unfold selectLine. rewrite Hs. simpl.
    by rewrite !andb_false_r.
  - intros m L p Hmode Hno. unfold selectLine.
    destruct (L <=? 0); [done|].
    destruct (diffLineExists (DiffFiles m) (SelectedPath m) L) eqn:Hex.
    + by apply diffLineExists_spec in Hex.
    + by rewrite Hmode.
  - intros m H5 H2.
    destruct (selectLine_taken m 5 "" (click_taken_guard _ _ H5)) as (m1 & Heq1 & Hs1).
    simpl in Hs1.
    assert (SelectionStart m1 = 5) as Hst by exact (f_equal s_SelectionStart Hs1).
    assert (click_taken m1 2) as H2'.
    { apply (click_taken_same m); [exact (f_equal s_Mode Hs1)|
        exact (f_equal s_DiffFiles Hs1)|exact (f_equal s_SelectedPath Hs1)|exact H2]. }
    destruct (selectLine_taken m1 2 "1" (click_taken_guard _ _ H2')) as (m2 & Heq2 & Hs2).
    rewrite Hst in Hs2. simpl in Hs2.
    exists m1, m2. split; [exact Heq1|]. split; [exact Heq2|].
    split; [exact (f_equal s_SelectionStart Hs2)|exact (f_equal s_SelectionEnd Hs2)].
  - intros m L p HL. unfold selectLine. by destruct (Z.leb_spec L 0); [|lia].
Qed.

(** ** add-comment *)

Definition new_comment (m : ReviewModel) (text : string) : Comment :=
  mkComment (SelectedPath m) (SelectionStart m) (SelectionEnd m) text.

Lemma addComment_accepted m commentParam :
  TrimSpace commentParam <> "" -> SelectionStart m <> 0 -> SelectionEnd m <> 0 ->
  exists m',
    addComment m commentParam = Some m' /\
    session_of m' =
      session_of
        (set_Selection
           (set_Error
              (set_CommentDraft
                 (set_Comments m (MComments m ++ [new_comment m (TrimSpace commentParam)]))
                 "") "") 0 0).
Proof.
  intros Ht Hs He. unfold addComment. cbv zeta.
  apply String.eqb_neq in Ht. rewrite Ht.
  apply Z.eqb_neq in Hs, He. rewrite Hs, He. simpl.
  apply updateView_Some.
Qed.

(** C9: add-comment.  With empty or white-space-only text, or with an
    empty selection (start or end 0), it sets a validation message,
    creates no comment and leaves the comment list and the selection as
    they are; with non-empty trimmed text and a non-empty selection it
    appends exactly one comment {selected path, start, end, trimmed text}
    at the end of the comment list and resets the selection to {0, 0}. *)
Theorem add_comment_behaviour :
  (forall m commentParam,
     TrimSpace commentParam = "" \/ SelectionStart m = 0 \/ SelectionEnd m = 0 ->
     exists m', addComment m commentParam = Some m' /\
       Error m' <> "" /\
       m' = set_Error m (Error m') /\
       MComments m' = MComments m /\
       SelectionStart m' = SelectionStart m /\ SelectionEnd m' = SelectionEnd m) /\
  (forall m commentParam,
     TrimSpace commentParam <> "" -> SelectionStart m <> 0 -> SelectionEnd m <> 0 ->
     exists m', addComment m commentParam = Some m' /\
       MComments m' =
         MComments m ++
         [mkComment (SelectedPath m) (SelectionStart m) (SelectionEnd m)
            (TrimSpace commentParam)] /\
       SelectionStart m' = 0 /\ SelectionEnd m' = 0 /\
       Error m' = "" /\ CommentDraft m' = "") /\
  TrimSpace "" = "" /\
  TrimSpace (String " " (String LF (String (ascii_of_nat 9) " "))) = "".
Proof.
  split; [|split; [|split; by vm_compute]].
  - intros m p H. unfold addComment. cbv zeta.
    destruct (String.eqb_spec (TrimSpace p) "") as [Ht|Ht].
    + eexists. split; [done|]. by repeat split.
    + destruct H as [H|H]; [done|].
      assert ((SelectionStart m =? 0) || (SelectionEnd m =? 0) = true)%bool as ->.
      { apply orb_true_iff. rewrite !Z.eqb_eq. done. }
      eexists. split; [done|]. by repeat split.
  - intros m p Ht Hs He.
    destruct (addComment_accepted m p Ht Hs He) as (m' & Heq & Hsess).
    exists m'. split; [exact Heq|].
    split; [exact (f_equal s_Comments Hsess)|].
    split; [exact (f_equal s_SelectionStart Hsess)|].
    split; [exact (f_equal s_SelectionEnd Hsess)|].
    split; [exact (f_equal s_Error Hsess)|exact (f_equal s_CommentDraft Hsess)].
Qed.

(** C10: in file mode select-line takes every L > 0 without looking at the
    number of lines of the selected file: a plain click selects {L, L}, and
    the add-comment that follows records a comment on L..L, also when L is
    beyond the last line of the file. *)
Theorem file_mode_line_unchecked (m : ReviewModel) (L : Z)
    (shiftParam commentParam : string) :
  Mode m <> ModeDiff -> 0 < L -> shiftParam <> "1" ->
  TrimSpace commentParam <> "" ->
  exists m1 m2,
    selectLine m L shiftParam = Some m1 /\
    SelectionStart m1 = L /\ SelectionEnd m1 = L /\
    addComment m1 commentParam = Some m2 /\
    MComments m2 =
      MComments m ++ [mkComment (SelectedPath m) L L (TrimSpace commentParam)] /\
    forall f, findFile (Files m) (SelectedPath m) = Some f -> len (FLines f) < L ->
      exists c, last (MComments m2) = Some c /\
        len (FLines f) < StartLine c /\ len (FLines f) < EndLine c.
Proof.
  intros Hmode HL Hp Ht.
  destruct (selectLine_taken m L shiftParam) as (m1 & Heq1 & Hs1); [by split|].
  apply String.eqb_neq in Hp. rewrite Hp in Hs1. simpl in Hs1.
  assert (SelectionStart m1 = L) as Hst by exact (f_equal s_SelectionStart Hs1).
  assert (SelectionEnd m1 = L) as Hen by exact (f_equal s_SelectionEnd Hs1).
  destruct (addComment_accepted m1 commentParam Ht) as (m2 & Heq2 & Hs2); [lia|lia|].
  assert (MComments m2 =
          MComments m ++ [mkComment (SelectedPath m) L L (TrimSpace commentParam)]) as Hc.
  { pose proof (f_equal s_Comments Hs2) as Hc2.
    pose proof (f_equal s_Comments Hs1) as Hc1.
    pose proof (f_equal s_SelectedPath Hs1) as Hp1.
    simpl in Hc2, Hc1, Hp1. unfold new_comment in Hc2.
    by rewrite Hc2, Hst, Hen, Hc1, Hp1. }
  exists m1, m2. do 4 (split; [done|]). split; [exact Hc|].
  intros f _ Hlen. eexists. rewrite Hc, last_snoc. split; [done|]. simpl. lia.
Qed.

(* ===================================================================== *)
(** * More of diff.go: what every parsed file, hunk and line looks like *)
(* ===================================================================== *)

(** ** The lines that the loop emits *)

(** The line that a body line [raw] appends at the cursors [o] and [n]. *)
Definition line_from (raw : string) (o n : Z) (dl : DiffLine) : Prop :=
  (raw = "" /\ dl = mkDiffLine DiffContext o n "") \/
  (exists text, raw = String " " text /\ dl = mkDiffLine DiffContext o n text) \/
  (exists text, raw = String "+" text /\ dl = mkDiffLine DiffAdd 0 n text) \/
  (exists text, raw = String "-" text /\ dl = mkDiffLine DiffDel o 0 text) \/
  (raw <> "" /\ dl = mkDiffLine DiffContext o n raw).

(** Every line of every hunk of [f] satisfies [P]. *)
Definition lines_all (P : DiffLine -> Prop) (f : DiffFile) : Prop :=
  Forall (fun h => Forall P (Lines h)) (Hunks f).

Definition state_lines_all (P : DiffLine -> Prop) (st : pstate) : Prop :=
  Forall (lines_all P) (files st) /\
  forall f, curFile st = Some f -> lines_all P f.

Lemma lines_all_ensureFile P st :
  state_lines_all P st -> lines_all P (ensureFile st).
Proof.
  intros [_ Hc]. unfold ensureFile. destruct (curFile st) as [f|]; [by apply Hc|].
  constructor.
Qed.

Lemma lines_all_appendLine P i dl f :
  lines_all P f -> P dl -> lines_all P (appendLine i dl f).
Proof.
  unfold lines_all, appendLine. simpl. intros Hall Hdl.
  apply Forall_forall. intros h Hh. apply list_elem_of_lookup in Hh as [j Hj].
  rewrite Forall_forall in Hall.
  destruct (decide (j = i)) as [->|Hne].
  - rewrite list_lookup_alter_eq in Hj.
    destruct (Hunks f !! i) as [h0|] eqn:Hi; [|done]. simpl in Hj.
    injection Hj as <-. simpl. apply Forall_app. split; [|by repeat constructor].
    apply Hall. by eapply list_elem_of_lookup_2.
  - rewrite list_lookup_alter_ne in Hj by done.
    apply Hall. by eapply list_elem_of_lookup_2.
Qed.

Lemma state_lines_all_emit P st i dl old new :
  state_lines_all P st -> P dl -> state_lines_all P (emit st i dl old new).
Proof.
  intros [Hf Hc] Hdl. split; simpl; [done|].
  intros f. destruct (curFile st) as [f0|]; [|done]. simpl. intros [= <-].
  apply lines_all_appendLine; [by apply Hc|done].
Qed.

Lemma state_lines_all_step P st raw st' :
  (forall o n dl, line_from raw o n dl -> P dl) ->
  state_lines_all P st -> step st raw = inr st' -> state_lines_all P st'.
Proof.
  intros HP Hinv. unfold step.
  destruct (HasPrefix raw "diff --git ").
  { intros [= <-]. split; simpl.
    - unfold flushFile. destruct Hinv as [Hf Hc].
      destruct (curFile st) as [f|]; simpl; [|done].
      apply Forall_app. split; [done|]. constructor; [by apply Hc|constructor].
    - intros f [= <-]. constructor. }
  destruct (HasPrefix raw "--- ").
  { intros [= <-]. split; simpl; [apply Hinv|].
    intros f [= <-]. by apply lines_all_ensureFile. }
  destruct (HasPrefix raw "+++ ").
  { intros [= <-]. split; simpl; [apply Hinv|].
    intros f [= <-]. by apply lines_all_ensureFile. }
  destruct (HasPrefix raw "@@ ").
  { destruct (hunkHeaderRE raw) as [[[[m1 m2] m3] m4]|]; [|done].
    intros [= <-]. split; simpl; [apply Hinv|].
    intros f [= <-]. unfold lines_all. simpl. apply Forall_app.
    split; [by apply lines_all_ensureFile|]. by repeat constructor. }
  destruct (curHunk st) as [i|]; [|by intros [= <-]].
  destruct (HasPrefix raw "\ No newline at end of file"); [by intros [= <-]|].
  destruct raw as [|prefix text].
  { intros [= <-]. apply state_lines_all_emit; [done|].
    apply (HP (oldLine st) (newLine st)). left. done. }
  destruct (Ascii.eqb_spec prefix " ") as [->|H1].
  { intros [= <-]. apply state_lines_all_emit; [done|].
    apply (HP (oldLine st) (newLine st)). right. left. by eexists. }
  destruct (Ascii.eqb_spec prefix "+") as [->|H2].
  { intros [= <-]. apply state_lines_all_emit; [done|].
    apply (HP (oldLine st) (newLine st)). right. right. left. by eexists. }
  destruct (Ascii.eqb_spec prefix "-") as [->|H3].
  { intros [= <-]. apply state_lines_all_emit; [done|].
    apply (HP (oldLine st) (newLine st)). do 3 right. left. by eexists. }
  intros [= <-]. apply state_lines_all_emit; [done|].
  apply (HP (oldLine st) (newLine st)). do 4 right. done.
Qed.

Lemma state_lines_all_scan P lines : forall st st',
  (forall raw o n dl, raw ∈ lines -> line_from raw o n dl -> P dl) ->
  state_lines_all P st -> scan st lines = inr st' -> state_lines_all P st'.
Proof.
  induction lines as [|raw rest IH]; intros st st' HP Hinv; simpl.
  - by intros [= <-].
  - destruct (step st raw) as [msg|st1] eqn:Hstep; [done|].
    apply IH.
    + intros r o n dl Hr. apply HP. by right.
    + eapply state_lines_all_step; [|done|done].
      intros o n dl. apply HP. by left.
Qed.

(** Every line that [parseUnifiedDiff] returns was emitted for one of the
    input's lines. *)
Lemma parsed_lines_all (P : DiffLine -> Prop) input :
  (forall raw o n dl, raw ∈ input_lines input -> line_from raw o n dl -> P dl) ->
  Forall (lines_all P) (parseUnifiedDiff input).1.
Proof.
  intros HP. unfold parseUnifiedDiff.
  destruct (scan initial (input_lines input)) as [msg|st] eqn:Hscan; [constructor|].
  simpl.
  assert (state_lines_all P st) as [Hf Hc].
  { eapply state_lines_all_scan; [exact HP| |exact Hscan]. split; [constructor|done]. }
  unfold flushFile. destruct (curFile st) as [f|]; simpl; [|done].
  apply Forall_app. split; [done|]. constructor; [by apply Hc|constructor].
Qed.

(** ** Kinds and the absent side *)

(** X1: every line that parseUnifiedDiff returns has one of the three
    kinds; an add line has oldLine 0 and a delete line has newLine 0. *)
Theorem parsed_line_kinds (input : string) (f : DiffFile) (h : DiffHunk) (dl : DiffLine) :
  f ∈ (parseUnifiedDiff input).1 -> h ∈ Hunks f -> dl ∈ Lines h ->
  Kind dl = DiffContext \/
  (Kind dl = DiffAdd /\ OldLine dl = 0) \/
  (Kind dl = DiffDel /\ NewLine dl = 0).
Proof.
  intros Hf Hh Hdl.
  pose proof (parsed_lines_all
    (fun dl => Kind dl = DiffContext \/ (Kind dl = DiffAdd /\ OldLine dl = 0) \/
               (Kind dl = DiffDel /\ NewLine dl = 0)) input) as Hall.
  rewrite Forall_forall in Hall. specialize (Hall ltac:(clear; intros raw o n dl _
    [[_ ->]|[(t & _ & ->)|[(t & _ & ->)|[(t & _ & ->)|[_ ->]]]]]; simpl; auto) f Hf).
  unfold lines_all in Hall. rewrite Forall_forall in Hall. specialize (Hall h Hh).
  rewrite Forall_forall in Hall. by apply Hall.
Qed.

(** ** No line feed inside a line *)

Fixpoint has_byte (c : ascii) (s : string) : bool :=
  match s with
  | EmptyString => false
  | String d r => (Ascii.eqb d c || has_byte c r)%bool
  end.

Lemma Split_LF_no_LF s : forall l, l ∈ Split_LF s -> has_byte LF l = false.
Proof.
  induction s as [|c s IH]; intros l; simpl.
  - by intros ->%list_elem_of_singleton.
  - destruct (Ascii.eqb c LF) eqn:Hc.
    + intros [->|Hl]%elem_of_cons; [done|by apply IH].
    + destruct (Split_LF s) as [|l0 ls].
      * intros ->%list_elem_of_singleton. simpl. by rewrite Hc.
      * intros [->|Hl]%elem_of_cons.
        -- simpl. rewrite Hc. simpl. apply IH. by left.
        -- apply IH. by right.
Qed.

(** X2: no line of the input and no Text of a parsed line holds a line
    feed. *)
Theorem parsed_text_single_line (input : string) :
  (forall raw, raw ∈ input_lines input -> has_byte LF raw = false) /\
  (forall f h dl,
     f ∈ (parseUnifiedDiff input).1 -> h ∈ Hunks f -> dl ∈ Lines h ->
     has_byte LF (Text dl) = false).
Proof.
  split; [intros raw; apply Split_LF_no_LF|].
  intros f h dl Hf Hh Hdl.
  pose proof (parsed_lines_all (fun dl => has_byte LF (Text dl) = false) input) as Hall.
  rewrite Forall_forall in Hall.
  assert (forall raw o n dl0, raw ∈ input_lines input -> line_from raw o n dl0 ->
                              has_byte LF (Text dl0) = false) as HP.
  { clear. intros raw o n dl Hraw Hfrom. apply Split_LF_no_LF in Hraw.
    destruct Hfrom as [[_ ->]|[(t & -> & ->)|[(t & -> & ->)|[(t & -> & ->)|[_ ->]]]]];
      simpl in *; try done; by apply orb_false_iff in Hraw as [_ ?]. }
  specialize (Hall HP f Hf).
  unfold lines_all in Hall. rewrite Forall_forall in Hall. specialize (Hall h Hh).
  rewrite Forall_forall in Hall. by apply Hall.
Qed.

(** ** The display path *)

(** A file that has a new path is shown under it. *)
Definition shown_under_new_path (f : DiffFile) : Prop :=
  NewPath f <> "" -> DPath f = NewPath f.

Definition state_paths (st : pstate) : Prop :=
  Forall shown_under_new_path (files st) /\
  forall f, curFile st = Some f -> shown_under_new_path f.

Lemma shown_ensureFile st : state_paths st -> shown_under_new_path (ensureFile st).
Proof.
  intros [_ Hc]. unfold ensureFile. destruct (curFile st) as [f|]; [by apply Hc|done].
Qed.

Lemma state_paths_step st raw st' :
  state_paths st -> step st raw = inr st' -> state_paths st'.
Proof.
  intros Hinv. pose proof (shown_ensureFile st Hinv) as He. unfold step.
  destruct (HasPrefix raw "diff --git ").
  { intros [= <-]. split; simpl; [|by intros f [= <-]].
    unfold flushFile. destruct Hinv as [Hf Hc].
    destruct (curFile st) as [f|]; simpl; [|done].
    apply Forall_app. split; [done|]. constructor; [by apply Hc|constructor]. }
  destruct (HasPrefix raw "--- ").
  { intros [= <-]. split; simpl; [apply Hinv|]. by intros f [= <-]. }
  destruct (HasPrefix raw "+++ ").
  { intros [= <-]. split; simpl; [apply Hinv|]. intros f [= <-].
    unfold shown_under_new_path, pickDiffPath. simpl.
    intros Hne%String.eqb_neq. by rewrite Hne. }
  destruct (HasPrefix raw "@@ ").
  { destruct (hunkHeaderRE raw) as [[[[m1 m2] m3] m4]|]; [|done].
    intros [= <-]. split; simpl; [apply Hinv|]. by intros f [= <-]. }
  assert (forall i dl old new, state_paths (emit st i dl old new)) as Hemit.
  { intros i dl old new. split; simpl; [apply Hinv|].
    intros f. destruct Hinv as [_ Hc]. destruct (curFile st) as [f0|]; [|done].
    simpl. intros [= <-]. by apply (Hc f0). }
  destruct (curHunk st) as [i|]; [|by intros [= <-]].
  destruct (HasPrefix raw "\ No newline at end of file"); [by intros [= <-]|].
  destruct raw as [|prefix text]; [by intros [= <-]|].
  by repeat case_match; intros [= <-].
Qed.

(** X3: a parsed file whose new path is not empty has that path as its
    display path. *)
Theorem parsed_display_path (input : string) (f : DiffFile) :
  f ∈ (parseUnifiedDiff input).1 -> NewPath f <> "" -> DPath f = NewPath f.
Proof.
  intros Hf. unfold parseUnifiedDiff in Hf.
  destruct (scan initial (input_lines input)) as [msg|st] eqn:Hscan;
    [by apply elem_of_nil in Hf|].
  simpl in Hf.
  assert (state_paths st) as [Hfs Hc].
  { clear Hf. revert Hscan. generalize (input_lines input).
    assert (state_paths initial) as H0 by (split; [constructor|done]).
    revert H0. generalize initial. intros st0 H0 lines. revert st0 H0.
    induction lines as [|raw rest IH]; intros st0 H0; simpl.
    - by intros [= <-].
    - destruct (step st0 raw) as [msg|st1] eqn:Hstep; [done|].
      apply IH. by eapply state_paths_step. }
  unfold flushFile in Hf. destruct (curFile st) as [f0|]; simpl in Hf.
  - apply elem_of_app in Hf as [Hf|Hf%list_elem_of_singleton].
    + rewrite Forall_forall in Hfs. by apply Hfs.
    + subst. by apply Hc.
  - rewrite Forall_forall in Hfs. by apply Hfs.
Qed.

(** ** How many files and hunks *)

Definition is_git (raw : string) : bool := HasPrefix raw "diff --git ".
Definition is_header (raw : string) : bool := HasPrefix raw "@@ ".
Definition is_marker (raw : string) : bool :=
  (HasPrefix raw "--- " || HasPrefix raw "+++ " || HasPrefix raw "@@ ")%bool.

(** The first line that opens a file is not a [diff --git] line: the file
    starts from [---], [+++] or [@@] alone. *)
Fixpoint implicit_first (lines : list string) : bool :=
  match lines with
  | [] => false
  | raw :: rest =>
      if is_git raw then false
      else if is_marker raw then true
      else implicit_first rest
  end.

Definition hunk_total (fs : list DiffFile) : nat := length (concat (Hunks <$> fs)).

Definition hunks_in (st : pstate) : nat :=
  (hunk_total (files st) + length (Hunks (ensureFile st)))%nat.

Definition files_in (st : pstate) : nat :=
  (length (files st) + if curFile st is Some _ then 1 else 0)%nat.

Lemma hunk_total_snoc fs f :
  hunk_total (fs ++ [f]) = (hunk_total fs + length (Hunks f))%nat.
Proof.
  unfold hunk_total. rewrite fmap_app, concat_app, length_app. simpl.
  by rewrite app_nil_r.
Qed.

Lemma flushFile_counts st :
  hunk_total (files (flushFile st)) = hunks_in st /\
  length (files (flushFile st)) = files_in st.
Proof.
  unfold flushFile, hunks_in, files_in, ensureFile.
  destruct (curFile st) as [f|]; simpl.
  - by rewrite hunk_total_snoc, length_app.
  - split; lia.
Qed.

Lemma prefixes_exclusive raw :
  (is_git raw = true -> is_marker raw = false) /\
  (is_header raw = true ->
   HasPrefix raw "--- " = false /\ HasPrefix raw "+++ " = false).
Proof.
  unfold is_git, is_marker, is_header. destruct raw as [|c r]; [done|].
  cbn [HasPrefix].
  destruct (Ascii.eqb_spec "d" c) as [<-|]; [done|].
  destruct (Ascii.eqb_spec "@" c) as [<-|]; [done|]. done.
Qed.

Lemma step_counts st raw st' :
  step st raw = inr st' ->
  hunks_in st' = (hunks_in st + if is_header raw then 1 else 0)%nat /\
  files_in st' =
    (files_in st + (if is_git raw then 1 else 0) +
     if curFile st is Some _ then 0 else if (negb (is_git raw) && is_marker raw)%bool then 1 else 0)%nat.
Proof.
  destruct (prefixes_exclusive raw) as [Hg Hh].
  destruct (flushFile_counts st) as [Hfh Hff].
  unfold step, is_marker, is_git, is_header in *.
  destruct (HasPrefix raw "diff --git ") eqn:Hgit.
  { intros [= <-]. specialize (Hg eq_refl).
    apply orb_false_iff in Hg as [_ ->]. unfold hunks_in, files_in in *. simpl.
    rewrite Hfh, Hff. destruct (curFile st); simpl; lia. }
  destruct (HasPrefix raw "--- ") eqn:H1.
  { intros [= <-]. destruct (HasPrefix raw "@@ "); [by destruct (Hh eq_refl)|].
    unfold hunks_in, files_in, ensureFile. simpl. destruct (curFile st); simpl; lia. }
  destruct (HasPrefix raw "+++ ") eqn:H2.
  { intros [= <-]. destruct (HasPrefix raw "@@ "); [by destruct (Hh eq_refl)|].
    unfold hunks_in, files_in, ensureFile. simpl. destruct (curFile st); simpl; lia. }
  destruct (HasPrefix raw "@@ ") eqn:H3.
  { destruct (hunkHeaderRE raw) as [[[[m1 m2] m3] m4]|]; [|done].
    intros [= <-]. unfold hunks_in, files_in, ensureFile. simpl.
    rewrite length_app. simpl. destruct (curFile st); simpl; lia. }
  assert (forall i dl old new,
            hunks_in (emit st i dl old new) = hunks_in st /\
            files_in (emit st i dl old new) = files_in st) as Hemit.
  { intros i dl old new. unfold hunks_in, files_in, ensureFile, emit. simpl.
    destruct (curFile st) as [f|]; simpl; [|done].
    by rewrite length_alter. }
  cbn [negb andb orb].
  assert (forall st1, hunks_in st1 = hunks_in st -> files_in st1 = files_in st ->
            hunks_in st1 = (hunks_in st + 0)%nat /\
            files_in st1 = (files_in st + 0 + if curFile st is Some _ then 0 else 0)%nat)
    as Hsame.
  { intros st1 -> ->. destruct (curFile st); lia. }
  destruct (curHunk st) as [i|]; [|intros [= <-]; by apply Hsame].
  destruct (HasPrefix raw "\ No newline at end of file"); [intros [= <-]; by apply Hsame|].
  destruct raw as [|prefix text]; [intros [= <-]; apply Hsame; apply Hemit|].
  repeat case_match; intros [= <-]; apply Hsame; apply Hemit.
Qed.

Lemma scan_counts lines : forall st st',
  scan st lines = inr st' ->
  hunks_in st' = (hunks_in st + length (List.filter is_header lines))%nat /\
  files_in st' =
    (files_in st + length (List.filter is_git lines) +
     if curFile st is Some _ then 0 else if implicit_first lines then 1 else 0)%nat.
Proof.
  induction lines as [|raw rest IH]; intros st st'; simpl.
  - intros [= <-]. destruct (curFile st); lia.
  - destruct (step st raw) as [msg|st1] eqn:Hstep; [done|]. intros Hscan.
    destruct (IH st1 st' Hscan) as [Hh Hf].
    destruct (step_counts st raw st1 Hstep) as [Hh1 Hf1].
    split.
    + rewrite Hh, Hh1. destruct (is_header raw); simpl; lia.
    + rewrite Hf, Hf1.
      assert (curFile st1 = None -> curFile st = None /\ is_git raw = false /\
                                    is_marker raw = false) as Hnone.
      { clear -Hstep. unfold step, is_git, is_marker in *.
        destruct (HasPrefix raw "diff --git "); [by intros; simplify_eq|].
        destruct (HasPrefix raw "--- "); [by intros; simplify_eq|].
        destruct (HasPrefix raw "+++ "); [by intros; simplify_eq|].
        destruct (HasPrefix raw "@@ ").
        { destruct (hunkHeaderRE raw) as [[[[? ?] ?] ?]|]; by intros; simplify_eq. }
        destruct (curHunk st).
        2: { injection Hstep as <-. done. }
        destruct (HasPrefix raw "\ No newline at end of file").
        { injection Hstep as <-. done. }
        destruct raw; repeat case_match; injection Hstep as <-; simpl;
          destruct (curFile st); done. }
      destruct (curFile st1) as [f1|] eqn:Hc1.
      * destruct (is_git raw) eqn:Hg; simpl; [destruct (curFile st); lia|].
        destruct (curFile st) eqn:Hc; [lia|].
        destruct (is_marker raw) eqn:Hm; simpl; [lia|].
        (* the line left the state without a file: impossible here *)
        exfalso. clear -Hstep Hc Hc1 Hg Hm. unfold step, is_git, is_marker in *.
        rewrite Hg in Hstep.
        apply orb_false_iff in Hm as [Hm H3]. apply orb_false_iff in Hm as [H1 H2].
        rewrite H1, H2, H3 in Hstep.
        destruct (curHunk st).
        2: { injection Hstep as <-. congruence. }
        destruct (HasPrefix raw "\ No newline at end of file").
        { injection Hstep as <-. congruence. }
        destruct raw; repeat case_match; injection Hstep as <-; simpl in Hc1;
          rewrite Hc in Hc1; done.
      * destruct (Hnone eq_refl) as (-> & -> & ->). simpl. lia.
Qed.

(** X4: when parseUnifiedDiff succeeds it returns one hunk for every line
    that starts with [@@ ], and one file for every line that starts with
    [diff --git ], plus one when a [---], [+++] or [@@] line comes before
    the first [diff --git ] line. *)
Theorem parsed_counts (input : string) (fs : list DiffFile) :
  parseUnifiedDiff input = (fs, None) ->
  hunk_total fs = length (List.filter is_header (input_lines input)) /\
  length fs =
    (length (List.filter is_git (input_lines input)) +
     if implicit_first (input_lines input) then 1 else 0)%nat.
Proof.
  unfold parseUnifiedDiff.
  destruct (scan initial (input_lines input)) as [msg|st] eqn:Hscan; [done|].
  intros [= <-]. destruct (flushFile_counts st) as [-> ->].
  destruct (scan_counts _ _ _ Hscan) as [-> ->]. done.
Qed.

(** ** The integers of a hunk header *)

(** The number that a string of decimal digits denotes. *)
Fixpoint decimal_from (n : Z) (s : string) : Z :=
  match s with
  | EmptyString => n
  | String c r => decimal_from (n * 10 + digit_val c) r
  end.

Definition decimal (s : string) : Z := decimal_from 0 s.

(** [mustAtoi] on digits: the number, or [MaxInt] beyond the range. *)
Definition saturated (s : string) : Z := Z.min (decimal s) GoInt.MaxInt.

Lemma is_digit_val c : is_digit c = true -> 0 <= digit_val c <= 9.
Proof.
  unfold is_digit, digit_val. intros [H1 H2]%andb_true_iff.
  apply Nat.leb_le in H1, H2. lia.
Qed.

Lemma decimal_from_ge s : forall n,
  0 <= n -> all_digits s = true -> n <= decimal_from n s.
Proof.
  induction s as [|c s IH]; intros n Hn; simpl; [lia|].
  intros [Hc Hs]%andb_true_iff. pose proof (is_digit_val c Hc).
  etrans; [|apply IH; [lia|done]]. lia.
Qed.

Lemma ParseUint_loop_digits s : forall n,
  0 <= n <= maxUint64 -> all_digits s = true ->
  ParseUint_loop n s =
  inr (if decimal_from n s <=? maxUint64 then (decimal_from n s, false)
       else (maxUint64, true)).
Proof.
  induction s as [|c s IH]; intros n Hn; cbn [ParseUint_loop decimal_from all_digits].
  - intros _. by destruct (Z.leb_spec n maxUint64); [|lia].
  - intros [Hc Hs]%andb_true_iff. rewrite Hc. cbn [negb].
    pose proof (is_digit_val c Hc) as Hd.
    pose proof (decimal_from_ge s (n * 10 + digit_val c) ltac:(lia) Hs) as Hge.
    assert (maxUint64 = 18446744073709551615) as Hmax by reflexivity.
    assert (maxUint64 / 10 + 1 = 1844674407370955162) as Hcut by reflexivity.
    destruct (Z.leb_spec (maxUint64 / 10 + 1) n) as [Hover|Hfit].
    { by destruct (Z.leb_spec (decimal_from (n * 10 + digit_val c) s) maxUint64); [lia|]. }
    destruct (Z.ltb_spec maxUint64 (n * 10 + digit_val c)) as [Hover|Hfit1].
    { by destruct (Z.leb_spec (decimal_from (n * 10 + digit_val c) s) maxUint64); [lia|]. }
    apply IH; [lia|done].
Qed.

Lemma digit_not_sign c :
  is_digit c = true -> Ascii.eqb c "+" = false /\ Ascii.eqb c "-" = false.
Proof.
  intros Hc. split.
  - destruct (Ascii.eqb_spec c "+") as [->|]; [by vm_compute in Hc|done].
  - destruct (Ascii.eqb_spec c "-") as [->|]; [by vm_compute in Hc|done].
Qed.

(** [mustAtoi] of a non-empty string of digits: leading zeros count for
    nothing, and a number beyond the range of int becomes [MaxInt]. *)
Lemma mustAtoi_digits s :
  all_digits s = true -> s <> "" -> mustAtoi s = saturated s.
Proof.
  intros Hs Hne. destruct s as [|c r]; [done|]. clear Hne.
  pose proof Hs as Hs'. cbn [all_digits] in Hs'.
  apply andb_true_iff in Hs' as [Hc _].
  destruct (digit_not_sign c Hc) as [Hplus Hminus].
  unfold mustAtoi, Atoi, ParseInt. rewrite Hplus, Hminus. cbn [orb negb andb].
  unfold ParseUint. rewrite (ParseUint_loop_digits (String c r) 0) by (done || by vm_compute).
  fold (decimal (String c r)). unfold saturated.
  pose proof (decimal_from_ge (String c r) 0 ltac:(lia) Hs) as Hge.
  fold (decimal (String c r)) in Hge.
  assert (maxUint64 = 18446744073709551615) as Hmax by reflexivity.
  assert (GoInt.MaxInt = 9223372036854775807) as Hmi by reflexivity.
  assert (2 ^ 63 = 9223372036854775808) as H63 by reflexivity.
  destruct (Z.leb_spec (decimal (String c r)) maxUint64) as [Hfit|Hover].
  - destruct (Z.leb_spec (2 ^ 63) (decimal (String c r))) as [Hbig|Hsmall]; cbn [fst].
    + rewrite Z.min_r by lia. by rewrite H63, Hmi.
    + rewrite Z.min_l by lia.
      by destruct (Z.eqb_spec (decimal (String c r)) 0) as [->|].
  - destruct (Z.leb_spec (2 ^ 63) maxUint64) as [_|]; [|lia]. cbn [fst].
    rewrite Z.min_r by lia. by rewrite H63, Hmi.
Qed.

(** The count of an optional group: 1 when the group is absent. *)
Definition count_of (m : string) : Z := if String.eqb m "" then 1 else saturated m.

Lemma header_is_header raw m1 m2 m3 m4 :
  header_match raw m1 m2 m3 m4 -> HasPrefix raw "@@ " = true.
Proof. intros (_ & _ & _ & _ & _ & _ & rest & ->). done. Qed.

(** X5: a line that matches the hunk header pattern opens a new, empty
    hunk at the end of the current file (of a new file when there is none):
    the starts are the numbers written, [MaxInt] when they are beyond the
    range of int; a count that is left out is 1; both cursors are set to
    the starts. *)
Theorem header_opens_hunk (st : pstate) (raw m1 m2 m3 m4 : string) :
  header_match raw m1 m2 m3 m4 ->
  let f := ensureFile st in
  let h := mkDiffHunk (saturated m1) (count_of m2) (saturated m3) (count_of m4) [] in
  step st raw =
    inr (mkPState (files st)
           (Some (mkDiffFile (OldPath f) (NewPath f) (DPath f) (Hunks f ++ [h])))
           (Some (length (Hunks f))) (saturated m1) (saturated m3)).
Proof.
  intros Hm f h. pose proof (header_is_header _ _ _ _ _ Hm) as Hat.
  destruct (at_prefix_exclusive raw Hat) as (H1 & H2 & H3).
  pose proof (proj2 (hunkHeaderRE_spec raw m1 m2 m3 m4) Hm) as Hre.
  destruct Hm as (Hd1 & Hn1 & Hd2 & Hd3 & Hn3 & Hd4 & _).
  unfold step. rewrite H1, H2, H3, Hat, Hre.
  assert (forall m, all_digits m = true -> parseOptionalCount m = count_of m) as Hcount.
  { intros m Hd. unfold parseOptionalCount, count_of.
    destruct (String.eqb_spec m ""); [done|]. by apply mustAtoi_digits. }
  rewrite !mustAtoi_digits, !Hcount by done.
  rewrite length_app. cbn [length].
  by replace (length (Hunks (ensureFile st)) + 1 - 1)%nat
    with (length (Hunks (ensureFile st))) by lia.
Qed.

Lemma header_opens_hunk_witness :
  header_match "@@ -12,3 +14 @@ func main()" "12" "3" "14" "" /\
  step initial "@@ -12,3 +14 @@ func main()" =
    inr (mkPState [] (Some (mkDiffFile "" "" "" [mkDiffHunk 12 3 14 1 []]))
           (Some 0%nat) 12 14).
Proof.
  assert (header_match "@@ -12,3 +14 @@ func main()" "12" "3" "14" "") as Hm.
  { do 6 (split; [done|]). by exists " func main()". }
  split; [exact Hm|]. exact (header_opens_hunk initial _ _ _ _ _ Hm).
Defined.

(* ===================================================================== *)
(** * More of view.go: what [normalizeRanges] returns *)
(* ===================================================================== *)

(** Line [n] lies in the range. *)
Definition in_range_of (r : LineRange) (n : Z) : bool :=
  ((RStart r <=? n) && (n <=? REnd r))%bool.

(** Line [n] lies in one of the ranges. *)
Definition covered (rs : list LineRange) (n : Z) : bool :=
  existsb (fun r => in_range_of r n) rs.

(** Line [n] is asked for by a range of the input: one with two positive
    bounds, read in either order. *)
Definition requested (rs : list LineRange) (n : Z) : bool :=
  existsb (fun r => (positive_bounds r &&
                     (Z.min (RStart r) (REnd r) <=? n) &&
                     (n <=? Z.max (RStart r) (REnd r)))%bool) rs.

(** A range as the cleaning loop leaves it. *)
Definition well_formed (r : LineRange) : Prop := 0 < RStart r <= REnd r.

Definition by_start (a b : LineRange) : Prop := RStart a <= RStart b.

Lemma covered_perm rs rs' n : rs ≡ₚ rs' -> covered rs n = covered rs' n.
Proof.
  clear. intros Hp. apply eq_true_iff_eq. unfold covered. rewrite !existsb_exists.
  split; intros (r & Hr & Hn); exists r; (split; [|done]).
  - eapply Permutation_in; [exact Hp|done].
  - eapply Permutation_in; [symmetry; exact Hp|done].
Qed.

Lemma clean_well_formed rs :
  Forall well_formed (List.map swap_inverted (List.filter positive_bounds rs)).
Proof.
  clear. induction rs as [|r rs IH]; simpl; [constructor|].
  unfold positive_bounds at 1.
  destruct (Z.ltb_spec 0 (RStart r)); [|done].
  destruct (Z.ltb_spec 0 (REnd r)); [|done]. simpl.
  constructor; [|done]. unfold well_formed, swap_inverted.
  destruct (Z.ltb_spec (REnd r) (RStart r)); simpl; lia.
Qed.

Lemma clean_covered rs n :
  covered (List.map swap_inverted (List.filter positive_bounds rs)) n = requested rs n.
Proof.
  clear. induction rs as [|r rs IH]; simpl; [done|].
  unfold covered in *. destruct (positive_bounds r) eqn:Hp; simpl; [|done].
  rewrite IH. f_equal. unfold in_range_of, swap_inverted.
  destruct (Z.ltb_spec (REnd r) (RStart r)); simpl.
  - by rewrite Z.min_r, Z.max_l by lia.
  - by rewrite Z.min_l, Z.max_r by lia.
Qed.

Lemma sorted_by_start l : StronglySorted range_le l -> StronglySorted by_start l.
Proof.
  clear. induction 1 as [|a l Hs IH Hall]; constructor; [done|].
  eapply Forall_impl; [exact Hall|]. unfold range_le, by_start. intros; lia.
Qed.

(** The head of a merged list starts where [cur] starts and ends no
    earlier. *)
Lemma merge_from_head rest : forall cur,
  exists a l, merge_from cur rest = a :: l /\ RStart a = RStart cur /\ REnd cur <= REnd a.
Proof.
  clear. induction rest as [|r rest IH]; intros cur; cbn [merge_from].
  - eexists _, _. split; [done|]. split; [done|lia].
  - destruct (RStart r <=? GoInt.add (REnd cur) 1).
    + destruct (IH (mkLineRange (RStart cur) (Z.max (REnd cur) (REnd r))))
        as (a & l & -> & Hs & He). simpl in *. eexists _, _. split; [done|]. split; [done|lia].
    + eexists _, _. split; [done|]. split; [done|lia].
Qed.

(** Merging keeps the lines that are covered, also at the end of the int
    range: a sum that wraps only prevents a merge. *)
Lemma merge_from_covered rest : forall cur n,
  Forall well_formed (cur :: rest) -> StronglySorted by_start (cur :: rest) ->
  covered (merge_from cur rest) n = covered (cur :: rest) n.
Proof.
  clear. induction rest as [|r rest IH]; intros cur n Hwf Hs; cbn [merge_from]; [done|].
  apply Forall_cons in Hwf as [Hcur Hwf]. pose proof Hwf as Hwf'.
  apply Forall_cons in Hwf as [Hr Hrest].
  apply StronglySorted_inv in Hs as [Hs Hle]. pose proof Hs as Hs'.
  apply StronglySorted_inv in Hs as [Hs Hle'].
  apply Forall_cons in Hle as [Hcr Hle].
  unfold well_formed, by_start in *.
  destruct (Z.leb_spec (RStart r) (GoInt.add (REnd cur) 1)) as [Hmerge|Hgap].
  - assert (GoInt.add (REnd cur) 1 <= REnd cur + 1) as Hw
      by (apply wrap_le; unfold GoInt.MinInt; lia).
    rewrite IH.
    + unfold covered. cbn [existsb]. rewrite orb_assoc. f_equal.
      unfold in_range_of. simpl.
      destruct (Z.leb_spec (RStart cur) n), (Z.leb_spec n (REnd cur)),
        (Z.leb_spec (RStart r) n), (Z.leb_spec n (REnd r)),
        (Z.leb_spec n (Z.max (REnd cur) (REnd r))); simpl; try done; lia.
    + constructor; [unfold well_formed; simpl; lia|done].
    + constructor; [done|]. eapply Forall_impl; [exact Hle|]. done.
  - unfold covered. cbn [existsb]. f_equal. fold (covered (merge_from r rest) n).
    by rewrite IH.
Qed.

(** Below [MaxInt] the merged list is normal. *)
Lemma merge_from_normal rest : forall cur,
  Forall well_formed (cur :: rest) -> StronglySorted by_start (cur :: rest) ->
  Forall (fun r => REnd r < GoInt.MaxInt) (cur :: rest) ->
  normalizedb (merge_from cur rest) = true.
Proof.
  clear. induction rest as [|r rest IH]; intros cur Hwf Hs Hmax; cbn [merge_from].
  - apply Forall_cons in Hwf as [Hcur _]. unfold well_formed in Hcur. simpl.
    destruct (Z.ltb_spec 0 (RStart cur)); [|lia].
    by destruct (Z.leb_spec (RStart cur) (REnd cur)); [|lia].
  - apply Forall_cons in Hwf as [Hcur Hwf]. pose proof Hwf as Hwf'.
    apply Forall_cons in Hwf as [Hr Hrest].
    apply StronglySorted_inv in Hs as [Hs Hle]. pose proof Hs as Hs'.
    apply StronglySorted_inv in Hs as [Hs Hle'].
    apply Forall_cons in Hle as [Hcr Hle].
    apply Forall_cons in Hmax as [Hmc Hmax]. pose proof Hmax as Hmax'.
    apply Forall_cons in Hmax as [Hmr Hmax].
    unfold well_formed, by_start in *.
    assert (GoInt.add (REnd cur) 1 = REnd cur + 1) as ->.
    { apply wrap_id. unfold GoInt.in_range, GoInt.MinInt, GoInt.MaxInt in *. lia. }
    destruct (Z.leb_spec (RStart r) (REnd cur + 1)) as [Hmerge|Hgap].
    + apply IH.
      * constructor; [unfold well_formed; simpl; lia|done].
      * constructor; [done|]. eapply Forall_impl; [exact Hle|]. done.
      * constructor; [simpl; lia|done].
    + destruct (merge_from_head rest r) as (a & l & Heq & Hsa & Hea).
      specialize (IH r Hwf' Hs' Hmax'). rewrite Heq in *.
      change (normalizedb (cur :: a :: l)) with
        ((0 <? RStart cur) && (RStart cur <=? REnd cur) && (REnd cur + 2 <=? RStart a)
         && normalizedb (a :: l))%bool.
      rewrite IH.
      destruct (Z.ltb_spec 0 (RStart cur)); [|lia].
      destruct (Z.leb_spec (RStart cur) (REnd cur)); [|lia].
      by destruct (Z.leb_spec (REnd cur + 2) (RStart a)); [|lia].
Qed.

Lemma normalize_stages_normal (ranges : list LineRange) :
  Forall (fun r => RStart r < GoInt.MaxInt /\ REnd r < GoInt.MaxInt) ranges ->
  normalizedb (normalize_stages ranges) = true.
Proof.
  clear. intros Hmax. unfold normalize_stages.
  set (cleaned := List.map swap_inverted (List.filter positive_bounds ranges)).
  assert (Forall well_formed (sort_Slice cleaned)) as Hwf.
  { rewrite (sort_Slice_perm cleaned). apply clean_well_formed. }
  assert (Forall (fun r => REnd r < GoInt.MaxInt) (sort_Slice cleaned)) as Hm.
  { rewrite (sort_Slice_perm cleaned). subst cleaned.
    clear Hwf. induction ranges as [|r rs IH]; simpl; [constructor|].
    apply Forall_cons in Hmax as [[H1 H2] Hmax].
    destruct (positive_bounds r); simpl; [|by apply IH].
    constructor; [|by apply IH]. unfold swap_inverted.
    by destruct (REnd r <? RStart r). }
  pose proof (sorted_by_start _ (sort_Slice_sorted cleaned)) as Hs.
  destruct (sort_Slice cleaned) as [|c rest]; [done|].
  by apply merge_from_normal.
Qed.

Lemma normalize_stages_covers (ranges : list LineRange) (n : Z) :
  covered (normalize_stages ranges) n = requested ranges n.
Proof.
  clear. rewrite <- clean_covered. unfold normalize_stages.
  set (cleaned := List.map swap_inverted (List.filter positive_bounds ranges)).
  rewrite <- (covered_perm _ _ n (sort_Slice_perm cleaned)).
  assert (Forall well_formed (sort_Slice cleaned)) as Hwf.
  { rewrite (sort_Slice_perm cleaned). apply clean_well_formed. }
  pose proof (sorted_by_start _ (sort_Slice_sorted cleaned)) as Hs.
  destruct (sort_Slice cleaned) as [|c rest]; [done|].
  by apply merge_from_covered.
Qed.

(** X6: with every bound below [MaxInt], [normalizeRanges] returns a list
    in normal form (positive bounds, start <= end, sorted, gaps of at least
    two lines), and normalising that list again changes nothing. *)
Theorem normalizeRanges_normal (ranges : list LineRange) :
  Forall (fun r => RStart r < GoInt.MaxInt /\ REnd r < GoInt.MaxInt) ranges ->
  exists out, normalizeRanges ranges = Some out /\
              normalizedb out = true /\
              normalizeRanges out = Some out.
Proof.
  clear. intros Hmax. exists (normalize_stages ranges).
  split; [apply normalizeRanges_refines|].
  pose proof (normalize_stages_normal ranges Hmax) as Hn.
  split; [exact Hn|].
  rewrite normalizeRanges_refines. f_equal.
  unfold normalize_stages at 1. rewrite (normalized_clean _ Hn), (sort_Slice_normalized _ Hn).
  destruct (normalize_stages ranges) as [|a rest]; [done|]. by apply merge_from_normalized.
Qed.

(** X7: [normalizeRanges] neither loses nor invents a line: a line is in a
    returned range exactly when a range of the input with two positive
    bounds, read in either order, contains it.  This holds for every int,
    also where [End + 1] wraps. *)
Theorem normalizeRanges_covers (ranges : list LineRange) (n : Z) :
  exists out, normalizeRanges ranges = Some out /\
              covered out n = requested ranges n.
Proof.
  clear. exists (normalize_stages ranges). split; [apply normalizeRanges_refines|].
  apply normalize_stages_covers.
Qed.

(* ===================================================================== *)
(** * More of view.go: the lines of a file view *)
(* ===================================================================== *)

(** The line numbers that one iteration of the loop of
    [buildViewLinesWithRanges] appends, for a file of [n] lines. *)
Definition shown (n : Z) (r : LineRange) : list Z :=
  seqZ (Z.max 1 (RStart r)) (Z.min n (REnd r) - Z.max 1 (RStart r) + 1).

(** What a view line shows of line [Number vl] of the file. *)
Definition shows_line (file : File) (start end_ : Z) (rendered : list HTML)
    (vl : ViewLine) : Prop :=
  index (FLines file) (Number vl - 1) = Some (VText vl) /\
  VHTML vl = default "" (index rendered (Number vl - 1)) /\
  Selected vl = ((0 <? start) && (0 <? end_) &&
                 (start <=? Number vl) && (Number vl <=? end_))%bool.

Lemma seqZ_sorted n : forall m, StronglySorted Z.lt (seqZ m n).
Proof.
  clear. remember (Z.to_nat n) as k eqn:Hk. revert n Hk.
  induction k as [|k IH]; intros n Hk m.
  - rewrite seqZ_nil by lia. constructor.
  - rewrite seqZ_cons by lia. constructor; [apply IH; lia|].
    apply Forall_seqZ. intros; lia.
Qed.

Lemma filter_sorted {A} (R : relation A) (f : A -> bool) l :
  StronglySorted R l -> StronglySorted R (List.filter f l).
Proof.
  clear. induction 1 as [|a l Hs IH Hall]; simpl; [constructor|].
  destruct (f a); [|done]. constructor; [done|].
  rewrite Forall_forall in Hall |- *. intros x Hx.
  apply Hall. apply list_elem_of_In in Hx. apply filter_In in Hx as [Hx _].
  by apply list_elem_of_In.
Qed.

Lemma sorted_lt_NoDup l : StronglySorted Z.lt l -> NoDup l.
Proof.
  clear. induction 1 as [|a l Hs IH Hall]; constructor; [|done].
  intros Hin. rewrite Forall_forall in Hall. specialize (Hall a Hin). lia.
Qed.

Lemma elem_shown n out k :
  k ∈ concat (List.map (shown n) out) <-> 1 <= k <= n /\ covered out k = true.
Proof.
  clear. induction out as [|r out IH]; simpl.
  - split; [by intros ?%elem_of_nil|by intros [_ ?]].
  - rewrite elem_of_app, IH. unfold shown. rewrite elem_of_seqZ.
    change (covered (r :: out) k) with (in_range_of r k || covered out k)%bool.
    rewrite orb_true_iff. unfold in_range_of.
    rewrite andb_true_iff, !Z.leb_le.
    split.
    + intros [H|[H1 H2]]; [split; [lia|left; lia]|split; [lia|by right]].
    + intros [H1 [H2|H2]]; [left; lia|by right].
Qed.

Lemma normalized_lower rest : forall a k,
  normalizedb (a :: rest) = true -> covered rest k = true -> REnd a + 2 <= k.
Proof.
  clear. induction rest as [|b rest IH]; intros a k Hn Hc; [done|].
  change (normalizedb (a :: b :: rest)) with
    ((0 <? RStart a) && (RStart a <=? REnd a) && (REnd a + 2 <=? RStart b)
     && normalizedb (b :: rest))%bool in Hn.
  apply andb_true_iff in Hn as [Hn Hrest]. apply andb_true_iff in Hn as [_ Hgap].
  apply Z.leb_le in Hgap.
  unfold covered in Hc. simpl in Hc. apply orb_true_iff in Hc as [Hc|Hc].
  - unfold in_range_of in Hc. apply andb_true_iff in Hc as [Hc _].
    apply Z.leb_le in Hc. lia.
  - specialize (IH b k Hrest Hc).
    simpl in Hrest. apply andb_true_iff in Hrest as [Hb _].
    apply andb_true_iff in Hb as [Hb _]. apply andb_true_iff in Hb as [_ Hb].
    apply Z.leb_le in Hb. lia.
Qed.

Lemma normalized_tail a rest : normalizedb (a :: rest) = true -> normalizedb rest = true.
Proof. clear. simpl. by intros [_ ?]%andb_true_iff. Qed.

Lemma shown_sorted n out :
  normalizedb out = true -> StronglySorted Z.lt (concat (List.map (shown n) out)).
Proof.
  clear. induction out as [|a out IH]; intros Hn; simpl; [constructor|].
  apply StronglySorted_app_2.
  - intros x1 x2 H1 H2. unfold shown in H1. apply elem_of_seqZ in H1.
    apply elem_shown in H2 as [_ H2].
    pose proof (normalized_lower out a x2 Hn H2). lia.
  - apply seqZ_sorted.
  - apply IH. by apply normalized_tail in Hn.
Qed.

(** The numbers of the lines that are shown, from the normal form. *)
Lemma shown_filter n ranges out :
  normalizedb out = true -> (forall k, covered out k = requested ranges k) ->
  concat (List.map (shown n) out) = List.filter (requested ranges) (seqZ 1 n).
Proof.
  clear. intros Hn Hc.
  apply (StronglySorted_unique_strong Z.lt).
  - intros; lia.
  - by apply shown_sorted.
  - apply filter_sorted, seqZ_sorted.
  - apply NoDup_Permutation.
    + by apply sorted_lt_NoDup, shown_sorted.
    + apply sorted_lt_NoDup, filter_sorted, seqZ_sorted.
    + intros k. rewrite elem_shown, Hc, list_elem_of_In, filter_In.
      rewrite <- list_elem_of_In, elem_of_seqZ.
      split; (intros [H1 H2]; split; [lia || done|lia || done]).
Qed.

Lemma buildSingleViewLine_shows file comments start end_ rendered idx vl :
  buildSingleViewLine file comments start end_ rendered idx = Some vl ->
  Number vl = idx + 1 /\ shows_line file start end_ rendered vl.
Proof.
  unfold buildSingleViewLine, shows_line. cbv zeta.
  destruct (index (FLines file) idx) as [raw|] eqn:Hraw; [|done].
  cbn [mbind option_bind].
  destruct (projectLineComments (FPath file) (idx + 1) comments) as [b l].
  intros [= <-]. simpl. replace (idx + 1 - 1) with idx by lia.
  split; [done|]. split; [done|]. split; [|done].
  destruct (Z.ltb_spec idx (len rendered)) as [|Hge]; [done|].
  unfold index in *. destruct (idx <? 0); [done|].
  rewrite lookup_ge_None_2; [done|]. unfold len in Hge. lia.
Qed.

(** The inner loop, line by line. *)
Lemma append_lines_each file comments start end_ rendered (idxs : list Z) :
  forall lines,
  Forall (fun i => 0 <= i < len (FLines file)) idxs ->
  exists new,
    for_each (fun lines i =>
                vl ← buildSingleViewLine file comments start end_ rendered i;
                Some (lines ++ [vl])) idxs lines = Some (lines ++ new) /\
    Number <$> new = (fun i => i + 1) <$> idxs /\
    Forall (shows_line file start end_ rendered) new.
Proof.
  induction idxs as [|i idxs IH]; intros lines Hall.
  - exists []. simpl. by rewrite app_nil_r.
  - apply Forall_cons in Hall as [Hi Hall].
    destruct (buildSingleViewLine_Some file comments start end_ rendered i Hi)
      as (vl & Hvl & _).
    destruct (buildSingleViewLine_shows _ _ _ _ _ _ _ Hvl) as [Hnum Hshow].
    destruct (IH (lines ++ [vl]) Hall) as (new & Hloop & Hnums & Hnew).
    exists (vl :: new). cbn [for_each]. rewrite Hvl. cbn [mbind option_bind].
    rewrite Hloop, <- app_assoc. split; [done|].
    split; [by rewrite !fmap_cons, Hnum, Hnums|by constructor].
Qed.

Lemma range_step_each file comments start end_ rendered lines r :
  exists new,
    range_step file comments start end_ rendered lines r = Some (lines ++ new) /\
    Number <$> new = shown (len (FLines file)) r /\
    Forall (shows_line file start end_ rendered) new.
Proof.
  unfold range_step, append_lines. cbv zeta.
  set (rs := if RStart r <? 1 then 1 else RStart r).
  set (re := if len (FLines file) <? REnd r then len (FLines file) else REnd r).
  assert (rs = Z.max 1 (RStart r)) as Hrs
    by (subst rs; destruct (Z.ltb_spec (RStart r) 1); lia).
  assert (re = Z.min (len (FLines file)) (REnd r)) as Hre
    by (subst re; destruct (Z.ltb_spec (len (FLines file)) (REnd r)); lia).
  destruct (append_lines_each file comments start end_ rendered
              (seqZ (rs - 1) (re - (rs - 1))) lines) as (new & Heq & Hnum & Hnew).
  { apply Forall_seqZ. intros i Hi. lia. }
  exists new. split; [exact Heq|]. split; [|exact Hnew].
  rewrite Hnum. unfold shown. rewrite <- Hrs, <- Hre.
  replace (re - rs + 1) with (re - (rs - 1)) by lia.
  replace (seqZ rs (re - (rs - 1))) with (seqZ (1 + (rs - 1)) (re - (rs - 1)))
    by (f_equal; lia).
  rewrite <- fmap_add_seqZ.
  apply list_fmap_ext. intros _ i _. lia.
Qed.

Lemma range_loop_each file comments start end_ rendered norm : forall lines,
  exists new,
    for_each (range_step file comments start end_ rendered) norm lines
      = Some (lines ++ new) /\
    Number <$> new = concat (List.map (shown (len (FLines file))) norm) /\
    Forall (shows_line file start end_ rendered) new.
Proof.
  induction norm as [|r norm IH]; intros lines.
  - exists []. simpl. by rewrite app_nil_r.
  - destruct (range_step_each file comments start end_ rendered lines r)
      as (new1 & Heq1 & Hnum1 & Hnew1).
    destruct (IH (lines ++ new1)) as (new2 & Heq2 & Hnum2 & Hnew2).
    exists (new1 ++ new2). cbn [for_each]. rewrite Heq1. cbn [mbind option_bind].
    rewrite Heq2, <- app_assoc. split; [done|].
    split; [by rewrite fmap_app, Hnum1, Hnum2|by apply Forall_app].
Qed.

(** X8: the lines of a file view.  Without ranges every line of the file is
    shown.  With ranges whose bounds are below [MaxInt], the lines shown
    are the lines of the file that a range with two positive bounds asks
    for, each one once and in the order of the file, however the ranges
    overlap, repeat or are ordered; a file whose ranges ask for no line of
    it shows nothing.  Every line shown carries the text of the line of
    its number, the highlighted HTML at that index if there is one, and
    the selection flag of its number. *)
Theorem file_view_lines (file : File) (comments : list Comment) (start end_ : Z)
    (rendered : list HTML) (ranges : list LineRange) :
  Forall (fun r => RStart r < GoInt.MaxInt /\ REnd r < GoInt.MaxInt) ranges ->
  exists lines,
    buildViewLinesWithRanges file comments start end_ rendered ranges = Some lines /\
    Number <$> lines =
      (if ranges is [] then seqZ 1 (len (FLines file))
       else List.filter (requested ranges) (seqZ 1 (len (FLines file)))) /\
    Forall (shows_line file start end_ rendered) lines.
Proof.
  intros Hmax. unfold buildViewLinesWithRanges. destruct ranges as [|r0 rs].
  - simpl. unfold buildViewLines, append_lines.
    destruct (append_lines_each file comments start end_ rendered
                (seqZ 0 (len (FLines file) - 0)) []) as (new & Heq & Hnum & Hnew).
    { apply Forall_seqZ. intros i Hi. lia. }
    exists new. split; [exact Heq|]. split; [|exact Hnew].
    rewrite Hnum, Z.sub_0_r. rewrite <- (fmap_add_seqZ 1 0).
    apply list_fmap_ext. intros _ i _. lia.
  - destruct (Z.eqb_spec (len (r0 :: rs)) 0) as [H|_]; [by unfold len in H|].
    rewrite normalizeRanges_refines. cbn [mbind option_bind].
    destruct (range_loop_each file comments start end_ rendered
                (normalize_stages (r0 :: rs)) []) as (new & Heq & Hnum & Hnew).
    exists new. split; [exact Heq|]. split; [|exact Hnew].
    rewrite Hnum. apply shown_filter; [by apply normalize_stages_normal|].
    intros k. apply normalize_stages_covers.
Qed.

(* ===================================================================== *)
(** * io_helpers.go: what [ParseRangeFlag] accepts and returns *)
(* ===================================================================== *)

(** [cut] splits at the first separator. *)
Lemma cut_Some sep s : forall a b,
  cut sep s = Some (a, b) <-> s = a +:+ String sep b /\ has_byte sep a = false.
Proof.
  clear. induction s as [|c s IH]; intros a b; cbn [cut].
  - split; [done|]. intros [H _]. destruct a.
    + by rewrite append_nil_l in H.
    + by rewrite append_cons in H.
  - destruct (Ascii.eqb_spec c sep) as [->|Hne].
    + split.
      * intros [= <- <-]. by rewrite append_nil_l.
      * intros [H Hno]. destruct a as [|c0 a].
        -- rewrite append_nil_l in H. by injection H as ->.
        -- rewrite append_cons in H. injection H as <- _.
           simpl in Hno. by rewrite Ascii.eqb_refl in Hno.
    + destruct (cut sep s) as [[a' b']|].
      * split.
        -- intros [= <- <-]. destruct (proj1 (IH a' b') eq_refl) as [-> Hno].
           rewrite append_cons. split; [done|]. simpl.
           by destruct (Ascii.eqb_spec c sep).
        -- intros [H Hno]. destruct a as [|c0 a].
           ++ rewrite append_nil_l in H. by injection H as ? _.
           ++ rewrite append_cons in H. injection H as <- Hs.
              simpl in Hno. apply orb_false_iff in Hno as [_ Hno].
              pose proof (proj2 (IH a b) (conj Hs Hno)) as Hc'.
              by injection Hc' as -> ->.
      * split; [done|]. intros [H Hno]. destruct a as [|c0 a].
        -- rewrite append_nil_l in H. by injection H as ? _.
        -- rewrite append_cons in H. injection H as <- Hs.
           simpl in Hno. apply orb_false_iff in Hno as [_ Hno].
           pose proof (proj2 (IH a b) (conj Hs Hno)) as Hc'. discriminate Hc'.
Qed.

Lemma SplitN2_two s sep a b : SplitN2 s sep = [a; b] <-> cut sep s = Some (a, b).
Proof.
  clear. unfold SplitN2. destruct (cut sep s) as [[a' b']|].
  - split; [by intros [= -> ->]|by intros [= -> ->]].
  - split; [done|done].
Qed.

Lemma SplitN2_cases s sep :
  (exists a b, SplitN2 s sep = [a; b]) \/ SplitN2 s sep = [s].
Proof.
  clear. unfold SplitN2. destruct (cut sep s) as [[a b]|]; [left; by exists a, b|by right].
Qed.

(** The range that the two segments give. *)
Definition flag_range (seg0 seg1 : string) : LineRange :=
  mkLineRange (Z.min (mustAtoi seg0) (mustAtoi seg1)) (Z.max (mustAtoi seg0) (mustAtoi seg1)).

(** One iteration, by the shape of the trimmed value. *)
Lemma range_flag_step_blank ranges val :
  TrimSpace val = "" -> range_flag_step ranges val = inr ranges.
Proof. clear. unfold range_flag_step. cbv zeta. by intros ->. Qed.

Lemma range_flag_step_entry ranges val p seg0 seg1 :
  cut ":" (TrimSpace val) = Some (p, seg0 +:+ String "-" seg1) ->
  has_byte "-" seg0 = false ->
  range_flag_step ranges val =
    if ((mustAtoi seg0 =? 0) || (mustAtoi seg1 =? 0))%bool
    then inl (invalid_range (TrimSpace val))
    else inr (<[p := default [] (ranges !! p) ++ [flag_range seg0 seg1]]> ranges).
Proof.
  clear. intros Hcut Hno. unfold range_flag_step. cbv zeta.
  destruct (String.eqb_spec (TrimSpace val) "") as [He|_].
  { rewrite He in Hcut. discriminate Hcut. }
  rewrite (proj2 (SplitN2_two _ _ _ _) Hcut).
  assert (cut "-" (seg0 +:+ String "-" seg1) = Some (seg0, seg1)) as Hc2
    by (by apply cut_Some).
  rewrite (proj2 (SplitN2_two _ _ _ _) Hc2).
  destruct ((mustAtoi seg0 =? 0) || (mustAtoi seg1 =? 0))%bool; [done|].
  unfold flag_range.
  destruct (Z.ltb_spec (mustAtoi seg1) (mustAtoi seg0)).
  - by rewrite Z.min_r, Z.max_l by lia.
  - by rewrite Z.min_l, Z.max_r by lia.
Qed.

(** Every other shape is an error, whatever the map holds. *)
Lemma range_flag_step_cases val :
  TrimSpace val = "" \/
  (exists p seg0 seg1,
     cut ":" (TrimSpace val) = Some (p, seg0 +:+ String "-" seg1) /\
     has_byte "-" seg0 = false) \/
  (forall ranges, range_flag_step ranges val = inl (invalid_range (TrimSpace val))).
Proof.
  clear. destruct (String.eqb_spec (TrimSpace val) "") as [He|Hne]; [by left|right].
  assert (forall ranges, range_flag_step ranges val =
            match SplitN2 (TrimSpace val) ":" with
            | [path; r] =>
                match SplitN2 r "-" with
                | [seg0; seg1] => range_flag_step ranges val
                | _ => inl (invalid_range (TrimSpace val))
                end
            | _ => inl (invalid_range (TrimSpace val))
            end) as Hstep.
  { intros ranges. unfold range_flag_step. cbv zeta.
    destruct (String.eqb_spec (TrimSpace val) "") as [|_]; [done|].
    destruct (SplitN2 (TrimSpace val) ":") as [|path [|r [|]]]; try done.
    by destruct (SplitN2 r "-") as [|seg0 [|seg1 [|]]]. }
  destruct (SplitN2_cases (TrimSpace val) ":") as [(p & r & Hs)|Hs].
  - destruct (SplitN2_cases r "-") as [(seg0 & seg1 & Hr)|Hr].
    + left. apply SplitN2_two in Hs. apply SplitN2_two, cut_Some in Hr as [-> Hno].
      by exists p, seg0, seg1.
    + right. intros ranges. rewrite Hstep, Hs, Hr. done.
  - right. intros ranges. rewrite Hstep, Hs. done.
Qed.

Lemma ParseRangeFlag_one v : ParseRangeFlag [v] = range_flag_step ∅ v.
Proof. clear. unfold ParseRangeFlag. simpl. by destruct (range_flag_step ∅ v). Qed.

Lemma colon_append b : String ":" b = ":" +:+ b.
Proof. clear. by rewrite append_cons, append_nil_l. Qed.

Lemma dash_append b : String "-" b = "-" +:+ b.
Proof. clear. by rewrite append_cons, append_nil_l. Qed.

(** X9: the syntax of one [--range] value.  It is accepted exactly when,
    with the white space around it trimmed, it is empty (and then gives
    nothing) or reads [path:seg0-seg1], where the path is what precedes the
    first colon, seg0 is what precedes the first dash after it, and both
    segments are integers other than zero for [strconv.Atoi]; the range
    stored for the path runs from the smaller to the larger of the two. *)
Theorem range_flag_syntax (v : string) (m : gmap string (list LineRange)) :
  ParseRangeFlag [v] = inr m <->
    (TrimSpace v = "" /\ m = ∅) \/
    exists p seg0 seg1,
      TrimSpace v = p +:+ ":" +:+ seg0 +:+ "-" +:+ seg1 /\
      has_byte ":" p = false /\ has_byte "-" seg0 = false /\
      mustAtoi seg0 <> 0 /\ mustAtoi seg1 <> 0 /\
      m = {[ p := [flag_range seg0 seg1] ]}.
Proof.
  clear. rewrite ParseRangeFlag_one. split.
  - destruct (range_flag_step_cases v) as [Hb|[(p & seg0 & seg1 & Hcut & Hno)|Herr]].
    + rewrite (range_flag_step_blank _ _ Hb). intros [= <-]. by left.
    + rewrite (range_flag_step_entry _ _ _ _ _ Hcut Hno).
      destruct (Z.eqb_spec (mustAtoi seg0) 0) as [|H0]; [done|].
      destruct (Z.eqb_spec (mustAtoi seg1) 0) as [|H1]; [done|].
      cbn [orb]. intros [= <-]. right. exists p, seg0, seg1.
      apply cut_Some in Hcut as [Heq Hp].
      rewrite <- colon_append, <- dash_append.
      split; [exact Heq|]. split; [exact Hp|]. split; [exact Hno|].
      split; [exact H0|]. split; [exact H1|].
      by rewrite lookup_empty, insert_empty.
    + by rewrite Herr.
  - intros [[Hb ->]|(p & seg0 & seg1 & Heq & Hp & Hno & H0 & H1 & ->)].
    + by rewrite (range_flag_step_blank _ _ Hb).
    + rewrite <- colon_append, <- dash_append in Heq.
      assert (cut ":" (TrimSpace v) = Some (p, seg0 +:+ String "-" seg1)) as Hcut
        by (by apply cut_Some).
      rewrite (range_flag_step_entry _ _ _ _ _ Hcut Hno).
      destruct (Z.eqb_spec (mustAtoi seg0) 0) as [|_]; [done|].
      destruct (Z.eqb_spec (mustAtoi seg1) 0) as [|_]; [done|].
      cbn [orb]. by rewrite lookup_empty, insert_empty.
Qed.

(** One iteration on any map, from the iteration on the empty map. *)
Lemma range_flag_step_alone ranges val :
  match range_flag_step ∅ val with
  | inl e => range_flag_step ranges val = inl e
  | inr mv =>
      exists m', range_flag_step ranges val = inr m' /\
        forall p, default [] (m' !! p) = default [] (ranges !! p) ++ default [] (mv !! p)
  end.
Proof.
  clear. destruct (range_flag_step_cases val)
    as [Hb|[(p & seg0 & seg1 & Hcut & Hno)|Herr]].
  - rewrite !(range_flag_step_blank _ _ Hb). exists ranges. split; [done|].
    intros p. by rewrite lookup_empty, app_nil_r.
  - rewrite !(range_flag_step_entry _ _ _ _ _ Hcut Hno).
    destruct ((mustAtoi seg0 =? 0) || (mustAtoi seg1 =? 0))%bool; [done|].
    eexists. split; [done|]. intros q.
    destruct (decide (p = q)) as [->|Hne].
    + by rewrite !lookup_insert_eq, lookup_empty.
    + by rewrite !lookup_insert_ne, lookup_empty, app_nil_r.
  - by rewrite !Herr.
Qed.

(** The ranges that one value gives for a path. *)
Definition flag_ranges (p : string) (v : string) : list LineRange :=
  match ParseRangeFlag [v] with
  | inr mv => default [] (mv !! p)
  | inl _ => []
  end.

Lemma range_flag_loop values : forall acc,
  match try_each range_flag_step values acc with
  | inr m =>
      forall p, default [] (m !! p) =
                default [] (acc !! p) ++ concat (List.map (flag_ranges p) values)
  | inl e =>
      exists pre v post, values = pre ++ v :: post /\
        (forall u, u ∈ pre -> exists mu, ParseRangeFlag [u] = inr mu) /\
        ParseRangeFlag [v] = inl e
  end.
Proof.
  clear. induction values as [|v values IH]; intros acc; cbn [try_each].
  - intros p. by rewrite app_nil_r.
  - pose proof (range_flag_step_alone acc v) as Hstep.
    destruct (range_flag_step ∅ v) as [e|mv] eqn:Hv.
    + rewrite Hstep. exists [], v, values. split; [done|].
      split; [by intros u ?%elem_of_nil|]. by rewrite ParseRangeFlag_one.
    + destruct Hstep as (m' & -> & Hm'). specialize (IH m').
      destruct (try_each range_flag_step values m') as [e|m].
      * destruct IH as (pre & w & post & -> & Hpre & Hw).
        exists (v :: pre), w, post. split; [done|]. split; [|done].
        intros u [->|Hu]%elem_of_cons; [|by apply Hpre].
        exists mv. by rewrite ParseRangeFlag_one.
      * intros p. rewrite IH, Hm'. cbn [List.map concat].
        unfold flag_ranges at 2. rewrite ParseRangeFlag_one, Hv.
        by rewrite <- app_assoc.
Qed.

Lemma range_flag_loop_fails pre v post e : forall acc,
  (forall u, u ∈ pre -> exists mu, ParseRangeFlag [u] = inr mu) ->
  ParseRangeFlag [v] = inl e ->
  try_each range_flag_step (pre ++ v :: post) acc = inl e.
Proof.
  clear. induction pre as [|u pre IH]; intros acc Hpre Hv; cbn [app try_each].
  - rewrite ParseRangeFlag_one in Hv.
    pose proof (range_flag_step_alone acc v) as Hstep. rewrite Hv in Hstep.
    by rewrite Hstep.
  - destruct (Hpre u) as [mu Hu]; [by left|]. rewrite ParseRangeFlag_one in Hu.
    pose proof (range_flag_step_alone acc u) as Hstep. rewrite Hu in Hstep.
    destruct Hstep as (m' & -> & _). apply IH; [|done].
    intros w Hw. apply Hpre. by right.
Qed.

(** X10: [ParseRangeFlag] treats every value by itself.  When it succeeds,
    the ranges of a path are those that the values give for that path, in
    the order of the values and with repetitions kept; it fails exactly
    when a value fails by itself, and then with the error of the first
    such value. *)
Theorem range_flags_in_order (values : list string) :
  (forall m, ParseRangeFlag values = inr m ->
     forall p, default [] (m !! p) = concat (List.map (flag_ranges p) values)) /\
  (forall e, ParseRangeFlag values = inl e <->
     exists pre v post, values = pre ++ v :: post /\
       (forall u, u ∈ pre -> exists mu, ParseRangeFlag [u] = inr mu) /\
       ParseRangeFlag [v] = inl e).
Proof.
  clear. split.
  - intros m Hm p. unfold ParseRangeFlag in Hm.
    destruct values as [|v values]; [by injection Hm as <-|].
    change (len (v :: values) =? 0) with (Z.pos (Pos.of_succ_nat (length values)) =? 0) in Hm.
    cbn [Z.eqb] in Hm.
    pose proof (range_flag_loop (v :: values) ∅) as Hloop. rewrite Hm in Hloop.
    by rewrite Hloop, lookup_empty.
  - intros e. unfold ParseRangeFlag. destruct values as [|v values].
    + split; [done|]. intros (pre & w & post & Heq & _). by destruct pre.
    + change (len (v :: values) =? 0) with (Z.pos (Pos.of_succ_nat (length values)) =? 0).
      cbn [Z.eqb]. split.
      * intros He. pose proof (range_flag_loop (v :: values) ∅) as Hloop.
        by rewrite He in Hloop.
      * intros (pre & w & post & -> & Hpre & Hw). by apply range_flag_loop_fails.
Qed.

(** What [ParseRangeFlag] stores. *)
Definition stored_range (r : LineRange) : Prop :=
  RStart r <= REnd r /\ RStart r <> 0 /\ REnd r <> 0 /\
  GoInt.in_range (RStart r) /\ GoInt.in_range (REnd r).

Definition stored_ranges (m : gmap string (list LineRange)) : Prop :=
  forall p rs, m !! p = Some rs ->
    has_byte ":" p = false /\ rs <> [] /\ Forall stored_range rs.

Lemma stored_ranges_step ranges val m :
  stored_ranges ranges -> range_flag_step ranges val = inr m -> stored_ranges m.
Proof.
  clear. intros Hinv.
  destruct (range_flag_step_cases val)
    as [Hb|[(p & seg0 & seg1 & Hcut & Hno)|Herr]].
  - rewrite (range_flag_step_blank _ _ Hb). by intros [= <-].
  - rewrite (range_flag_step_entry _ _ _ _ _ Hcut Hno).
    destruct (Z.eqb_spec (mustAtoi seg0) 0) as [|H0]; [done|].
    destruct (Z.eqb_spec (mustAtoi seg1) 0) as [|H1]; [done|].
    cbn [orb]. intros [= <-]. intros q rs Hq.
    apply lookup_insert_Some in Hq as [[<- <-]|[Hne Hq]]; [|by apply Hinv].
    apply cut_Some in Hcut as [_ Hp]. split; [exact Hp|].
    split; [by destruct (default [] (ranges !! p))|].
    apply Forall_app. split.
    + destruct (ranges !! p) as [rs|] eqn:Hrs; [|constructor].
      by apply (Hinv p rs).
    + constructor; [|constructor]. unfold stored_range, flag_range. simpl.
      pose proof (mustAtoi_in_range seg0). pose proof (mustAtoi_in_range seg1).
      unfold GoInt.in_range in *. lia.
  - by rewrite Herr.
Qed.

(** X11: what [ParseRangeFlag] returns: no path holds a colon, no path has
    an empty list, and every range has start <= end, both other than zero
    and both ints.  A bound may be negative: the second segment of
    [a.go:5--3] is [-3]. *)
Theorem range_flags_stored (values : list string) (m : gmap string (list LineRange))
    (p : string) (rs : list LineRange) :
  ParseRangeFlag values = inr m -> m !! p = Some rs ->
  has_byte ":" p = false /\ rs <> [] /\ Forall stored_range rs.
Proof.
  clear. unfold ParseRangeFlag. destruct (len values =? 0).
  { intros [= <-]. by rewrite lookup_empty. }
  assert (stored_ranges ∅) as H0 by (intros q qs Hq; by rewrite lookup_empty in Hq).
  revert H0. generalize (∅ : gmap string (list LineRange)).
  induction values as [|v values IH]; intros acc Hacc; cbn [try_each].
  - intros [= <-]. by apply Hacc.
  - destruct (range_flag_step acc v) as [e|acc'] eqn:Hstep; [done|].
    apply IH. by eapply stored_ranges_step.
Qed.

(** The values of [TestParseRangeFlag], a negative bound, and an error. *)
Remark test_ParseRangeFlag :
  ParseRangeFlag ["a.go:10-20"; "a.go:30-25"; "b.go:5-8"] =
    inr {[ "a.go" := [mkLineRange 10 20; mkLineRange 25 30];
           "b.go" := [mkLineRange 5 8] ]} /\
  ParseRangeFlag ["a.go:5--3"] = inr {[ "a.go" := [mkLineRange (-3) 5] ]} /\
  ParseRangeFlag ["a.go:5-0"; "b.go"] = inl "invalid range: a.go:5-0".
Proof. clear. split; [|split]; by vm_compute. Qed.

(* ===================================================================== *)
(** * app.go: what holds in every state of a review *)
(* ===================================================================== *)

Definition tree_root : treeNode := mkTreeNode "" "" true (Some []) None.

(** The files that the tree is built from. *)
Definition tree_files (s : session) : list File :=
  if String.eqb (s_Mode s) ModeDiff then diffFilesAsFiles (s_DiffFiles s) else s_Files s.

(** [path] names a file of the review. *)
Definition names_file (s : session) (path : string) : bool :=
  if String.eqb (s_Mode s) ModeDiff then hasDiffFile (s_DiffFiles s) path
  else hasFile (s_Files s) path.

(** In diff mode, [line] is the new-side number of a line of the file
    [path] that is not a deleted line. *)
Definition on_new_side (s : session) (path : string) (line : Z) : Prop :=
  s_Mode s = ModeDiff -> diffLineExists (s_DiffFiles s) path line = true.

Definition comment_ok (s : session) (c : Comment) : Prop :=
  0 < StartLine c <= EndLine c /\ CText c <> "" /\
  names_file s (CPath c) = true /\
  on_new_side s (CPath c) (StartLine c) /\ on_new_side s (CPath c) (EndLine c).

Definition selection_ok (s : session) : Prop :=
  (s_SelectionStart s = 0 /\ s_SelectionEnd s = 0) \/
  (0 < s_SelectionStart s <= s_SelectionEnd s /\
   on_new_side s (s_SelectedPath s) (s_SelectionStart s) /\
   on_new_side s (s_SelectedPath s) (s_SelectionEnd s)).

Definition session_ok (s : session) : Prop :=
  selection_ok s /\ names_file s (s_SelectedPath s) = true /\
  Forall (comment_ok s) (s_Comments s) /\
  is_Some (for_each add_file (tree_files s) tree_root).

(** What no handler writes. *)
Definition frame (s : session) : list File * list DiffFile * ViewMode * string
                                 * gmap string (list LineRange) :=
  (s_Files s, s_DiffFiles s, s_Mode s, s_Prompt s, s_Ranges s).

Lemma comment_ok_frame s s' c :
  frame s = frame s' -> comment_ok s c -> comment_ok s' c.
Proof.
  clear. unfold frame, comment_ok, names_file, on_new_side.
  by intros [= -> -> -> _ _].
Qed.

Lemma buildTree_Some files sel :
  is_Some (for_each add_file files tree_root) -> is_Some (buildTree files sel).
Proof.
  clear. unfold buildTree. fold tree_root. by intros [root ->].
Qed.

Lemma buildTree_is_Some files sel :
  is_Some (buildTree files sel) -> is_Some (for_each add_file files tree_root).
Proof.
  clear. unfold buildTree. fold tree_root.
  destruct (for_each add_file files tree_root); [done|by intros [? ?]].
Qed.

(** [select-line], in all its cases. *)
Lemma selectLine_cases m line shiftParam :
  exists m',
    selectLine m line shiftParam = Some m' /\
    (m' = m \/
     (guard_passed m line /\
      session_of m' =
        if (String.eqb shiftParam "1" && (0 <? SelectionStart m))%bool
        then selected m (Z.min (SelectionStart m) line) (Z.max (SelectionStart m) line)
        else selected m line line)).
Proof.
  destruct (Z.leb_spec line 0) as [Hle|Hpos].
  { exists m. split; [|by left]. unfold selectLine.
    by destruct (Z.leb_spec line 0); [|lia]. }
  destruct (String.eqb (Mode m) ModeDiff
            && negb (diffLineExists (DiffFiles m) (SelectedPath m) line))%bool eqn:Hd.
  { exists m. split; [|by left]. unfold selectLine.
    destruct (Z.leb_spec line 0); [lia|]. by rewrite Hd. }
  assert (guard_passed m line) as Htaken.
  { split; [done|]. intros Hm. rewrite Hm in Hd. simpl in Hd.
    by apply negb_false_iff in Hd. }
  destruct (selectLine_taken m line shiftParam Htaken) as (m' & Heq & Hs).
  exists m'. split; [exact Heq|]. right. by split.
Qed.

(** [add-comment], in all its cases. *)
Lemma addComment_cases m commentParam :
  exists m',
    addComment m commentParam = Some m' /\
    ((exists msg, m' = set_Error m msg) \/
     (TrimSpace commentParam <> "" /\ SelectionStart m <> 0 /\ SelectionEnd m <> 0 /\
      session_of m' =
        session_of
          (set_Selection
             (set_Error
                (set_CommentDraft
                   (set_Comments m
                      (MComments m ++ [new_comment m (TrimSpace commentParam)]))
                   "") "") 0 0))).
Proof.
  destruct (String.eqb_spec (TrimSpace commentParam) "") as [Ht|Ht].
  { eexists. split; [|left; by eexists]. unfold addComment. cbv zeta.
    rewrite Ht. done. }
  destruct (Z.eqb_spec (SelectionStart m) 0) as [Hs|Hs].
  { eexists. split; [|left; by eexists]. unfold addComment. cbv zeta.
    apply String.eqb_neq in Ht. rewrite Ht, Hs. done. }
  destruct (Z.eqb_spec (SelectionEnd m) 0) as [He|He].
  { eexists. split; [|left; by eexists]. unfold addComment. cbv zeta.
    apply String.eqb_neq in Ht. rewrite Ht, He.
    by rewrite orb_true_r. }
  destruct (addComment_accepted m commentParam Ht Hs He) as (m' & Heq & Hses).
  exists m'. split; [exact Heq|]. right. done.
Qed.

(** [select-file], in all its cases. *)
Lemma selectFile_cases m path now m' :
  selectFile m path now = Some m' ->
  m' = m \/
  (path <> "" /\ names_file (session_of m) path = true /\
   exists tree,
     buildTree (tree_files (session_of m)) path = Some tree /\
     session_of m' =
       session_of
         (set_Tree
            (set_Error
               (set_Selection (set_CodeViewKey (set_SelectedPath m path) (itoa now)) 0 0)
               "") tree)).
Proof.
  unfold selectFile, names_file, tree_files. cbv zeta. simpl.
  destruct (String.eqb_spec path "") as [|Hne]; [intros [= <-]; by left|].
  destruct (String.eqb (Mode m) ModeDiff).
  - destruct (hasDiffFile (DiffFiles m) path); [|intros [= <-]; by left].
    destruct (buildTree (diffFilesAsFiles (DiffFiles m)) path) as [tree|]; [|done].
    cbn [mbind option_bind]. intros Hup. right. split; [done|]. split; [done|].
    exists tree. split; [done|].
    match type of Hup with updateView ?x = _ =>
      destruct (updateView_Some x) as (m2 & Heq & Hs) end.
    rewrite Heq in Hup. by injection Hup as <-.
  - destruct (hasFile (Files m) path); [|intros [= <-]; by left].
    destruct (buildTree (Files m) path) as [tree|]; [|done].
    cbn [mbind option_bind]. intros Hup. right. split; [done|]. split; [done|].
    exists tree. split; [done|].
    match type of Hup with updateView ?x = _ =>
      destruct (updateView_Some x) as (m2 & Heq & Hs) end.
    rewrite Heq in Hup. by injection Hup as <-.
Qed.

Lemma session_ok_error m msg :
  session_ok (session_of m) -> session_ok (session_of (set_Error m msg)).
Proof. clear. done. Qed.

(** Every handler keeps the invariant, the frame and the comments that
    are there. *)
Lemma handle_ok m e m' :
  handle m e = Some m' -> session_ok (session_of m) ->
  session_ok (session_of m') /\ frame (session_of m') = frame (session_of m) /\
  MComments m `prefix_of` MComments m'.
Proof.
  intros Hh Hok. destruct e as [path now| | |line shift|comment| |]; cbn [handle] in Hh.
  - apply selectFile_cases in Hh as [->|(Hne & Hname & tree & Htree & Hs)]; [done|].
    rewrite Hs. split; [|split; [done|]].
    + destruct Hok as (_ & _ & Hc & Ht). split; [by left|]. split; [exact Hname|].
      split; [exact Hc|exact Ht].
    + replace (MComments m') with (s_Comments (session_of m')) by done.
      by rewrite Hs.
  - unfold toggleFileRender in Hh. cbv zeta in Hh.
    match type of Hh with updateView ?x = _ =>
      destruct (updateView_Some x) as (m2 & Heq & Hs) end.
    rewrite Heq in Hh. injection Hh as <-.
    replace (MComments m2) with (s_Comments (session_of m2)) by done.
    rewrite Hs.
    by destruct (String.eqb (Mode m) ModeFile && isMarkdownPath (SelectedPath m))%bool.
  - unfold toggleCommentRender in Hh.
    match type of Hh with updateView ?x = _ =>
      destruct (updateView_Some x) as (m2 & Heq & Hs) end.
    rewrite Heq in Hh. injection Hh as <-.
    replace (MComments m2) with (s_Comments (session_of m2)) by done.
    by rewrite Hs.
  - destruct (selectLine_cases m line shift) as (m2 & Heq & [->|[[Hpos Hex] Hs]]);
      rewrite Heq in Hh; injection Hh as <-; [done|].
    replace (MComments m2) with (s_Comments (session_of m2)) by done.
    rewrite Hs. destruct Hok as (Hsel & Hname & Hc & Ht).
    destruct (String.eqb shift "1" && (0 <? SelectionStart m))%bool eqn:Hshift.
    + apply andb_true_iff in Hshift as [_ Hstart%Z.ltb_lt].
      split; [|done]. split; [|done]. right.
      destruct Hsel as [[H0 _]|(Hr & Hs1 & Hs2)]; [simpl in H0; lia|].
      unfold selected, on_new_side. simpl in *.
      split; [lia|]. split.
      * destruct (Z.min_spec (SelectionStart m) line) as [[_ ->]|[_ ->]]; [done|].
        exact Hex.
      * destruct (Z.max_spec (SelectionStart m) line) as [[_ ->]|[_ ->]]; [|done].
        exact Hex.
    + split; [|done]. split; [|done]. right.
      unfold selected, on_new_side. simpl. split; [lia|]. by split.
  - destruct (addComment_cases m comment)
      as (m2 & Heq & [[msg ->]|(Ht & Hs0 & He0 & Hs)]);
      rewrite Heq in Hh; injection Hh as <-; [done|].
    replace (MComments m2) with (s_Comments (session_of m2)) by done.
    rewrite Hs. destruct Hok as (Hsel & Hname & Hc & Htree).
    split; [|split; [done|by apply prefix_app_r]].
    split; [by left|]. split; [exact Hname|]. split; [|exact Htree].
    simpl. apply Forall_app. split; [exact Hc|]. constructor; [|constructor].
    destruct Hsel as [[H0 _]|(Hr & Hs1 & Hs2)]; [done|].
    unfold comment_ok, new_comment. simpl in *. done.
  - unfold cancelComment in Hh.
    match type of Hh with updateView ?x = _ =>
      destruct (updateView_Some x) as (m2 & Heq & Hs) end.
    rewrite Heq in Hh. injection Hh as <-.
    replace (MComments m2) with (s_Comments (session_of m2)) by done.
    rewrite Hs. destruct Hok as (Hsel & Hname & Hc & Htree).
    split; [|done]. split; [by left|done].
  - injection Hh as <-. done.
Qed.

(** No handler panics in a state where the invariant holds. *)
Lemma handle_Some m e : session_ok (session_of m) -> is_Some (handle m e).
Proof.
  intros (_ & _ & _ & Htree).
  destruct e as [path now| | |line shift|comment| |]; cbn [handle].
  - unfold selectFile. cbv zeta. destruct (String.eqb path ""); [done|].
    unfold tree_files in Htree. simpl in Htree.
    destruct (String.eqb (Mode m) ModeDiff).
    + destruct (hasDiffFile (DiffFiles m) path); [|done].
      destruct (buildTree_Some _ path Htree) as [tree Ht]. simpl. rewrite Ht.
      cbn [mbind option_bind].
      match goal with |- is_Some (updateView ?x) =>
        destruct (updateView_Some x) as (m2 & -> & _) end. done.
    + destruct (hasFile (Files m) path); [|done].
      destruct (buildTree_Some _ path Htree) as [tree Ht]. simpl. rewrite Ht.
      cbn [mbind option_bind].
      match goal with |- is_Some (updateView ?x) =>
        destruct (updateView_Some x) as (m2 & -> & _) end. done.
  - unfold toggleFileRender. cbv zeta.
    match goal with |- is_Some (updateView ?x) =>
      destruct (updateView_Some x) as (m2 & -> & _) end. done.
  - unfold toggleCommentRender.
    match goal with |- is_Some (updateView ?x) =>
      destruct (updateView_Some x) as (m2 & -> & _) end. done.
  - destruct (selectLine_cases m line shift) as (m2 & -> & _). done.
  - destruct (addComment_cases m comment) as (m2 & -> & _). done.
  - unfold cancelComment.
    match goal with |- is_Some (updateView ?x) =>
      destruct (updateView_Some x) as (m2 & -> & _) end. done.
  - done.
Qed.

Lemma findDiffFile_first (d0 : DiffFile) (rest : list DiffFile) :
  hasDiffFile (d0 :: rest) (DPath d0) = true.
Proof.
  clear. unfold hasDiffFile, findDiffFile. simpl. rewrite String.eqb_refl.
  by apply bool_decide_eq_true.
Qed.

Lemma hasFile_first (f0 : File) (rest : list File) :
  hasFile (f0 :: rest) (FPath f0) = true.
Proof. clear. unfold hasFile. simpl. by rewrite String.eqb_refl. Qed.

(** The model that [Run] starts with. *)
Lemma start_ok files diffFiles mode cfg now m0 :
  start files diffFiles mode cfg now = Some m0 ->
  session_ok (session_of m0) /\
  frame (session_of m0) = (files, diffFiles, mode, CPrompt cfg, CRanges cfg) /\
  MComments m0 = [].
Proof.
  unfold start. cbv zeta.
  set (mp := if negb (String.eqb (TrimSpace (CPrompt cfg)) "") then _ else _).
  assert (frame (session_of mp) = (files, diffFiles, mode, CPrompt cfg, CRanges cfg) /\
          MComments mp = [] /\ SelectionStart mp = 0 /\ SelectionEnd mp = 0)
    as (Hf & Hc & Hs & He).
  { subst mp. by destruct (negb (String.eqb (TrimSpace (CPrompt cfg)) "")). }
  unfold frame in Hf. simpl in Hf. injection Hf as Hfiles Hdiff Hmode Hprompt Hranges.
  destruct (String.eqb mode ModeDiff) eqn:Hm.
  - destruct diffFiles as [|d0 rest]; [done|]. unfold index. simpl.
    destruct (buildTree (diffFilesAsFiles (d0 :: rest)) (DPath d0)) as [tree|] eqn:Ht;
      [|done].
    cbn [mbind option_bind]. intros Hup.
    match type of Hup with updateView ?x = _ =>
      destruct (updateView_Some x) as (m2 & Heq & Hses) end.
    rewrite Heq in Hup. injection Hup as <-.
    replace (MComments m2) with (s_Comments (session_of m2)) by done.
    rewrite Hses. unfold session_ok, selection_ok, names_file, tree_files, frame. simpl.
    rewrite Hfiles, Hdiff, Hmode, Hprompt, Hranges, Hm, Hc, Hs, He.
    split; [|done]. split; [by left|]. split; [apply findDiffFile_first|].
    split; [constructor|]. apply (buildTree_is_Some _ (DPath d0)). by rewrite Ht.
  - destruct files as [|f0 rest]; [done|]. unfold index. simpl.
    destruct (buildTree (f0 :: rest) (FPath f0)) as [tree|] eqn:Ht; [|done].
    cbn [mbind option_bind]. intros Hup.
    match type of Hup with updateView ?x = _ =>
      destruct (updateView_Some x) as (m2 & Heq & Hses) end.
    rewrite Heq in Hup. injection Hup as <-.
    replace (MComments m2) with (s_Comments (session_of m2)) by done.
    rewrite Hses. unfold session_ok, selection_ok, names_file, tree_files, frame. simpl.
    rewrite Hfiles, Hdiff, Hmode, Hprompt, Hranges, Hm, Hc, Hs, He.
    split; [|done]. split; [by left|]. split; [apply hasFile_first|].
    split; [constructor|]. apply (buildTree_is_Some _ (FPath f0)). by rewrite Ht.
Qed.

Lemma Run_ok ReadFile cfg now m0 :
  Run ReadFile cfg now = inr (Some m0) ->
  session_ok (session_of m0) /\ MComments m0 = [].
Proof.
  unfold Run. cbv zeta.
  destruct (if negb (String.eqb (Diff cfg) "") then _ else _) as [e|diffInput]; [done|].
  destruct (negb (String.eqb diffInput "")).
  - destruct (parseUnifiedDiff diffInput) as [parsed [err|]]; [done|].
    destruct (len parsed =? 0); [done|]. intros [= H].
    apply start_ok in H as (H1 & _ & H2). done.
  - destruct (len (Paths cfg) =? 0); [done|].
    destruct (loadFiles ReadFile (Paths cfg)) as [e|loaded]; [done|]. intros [= H].
    apply start_ok in H as (H1 & _ & H2). done.
Qed.

Lemma events_ok events : forall m m',
  for_each handle events m = Some m' -> session_ok (session_of m) ->
  session_ok (session_of m') /\ frame (session_of m') = frame (session_of m) /\
  MComments m `prefix_of` MComments m'.
Proof.
  induction events as [|e events IH]; intros m m'; cbn [for_each].
  - intros [= <-] Hok. done.
  - destruct (handle m e) as [m1|] eqn:He; [|done]. cbn [mbind option_bind].
    intros Hrest Hok. destruct (handle_ok m e m1 He Hok) as (Hok1 & Hf1 & Hp1).
    destruct (IH m1 m' Hrest Hok1) as (Hok' & Hf' & Hp').
    split; [exact Hok'|]. split; [congruence|]. by etrans.
Qed.

(** X12: the comments of a review.  In every state that a review reaches
    from the model that [Run] starts with, the files, the diff and the mode
    are those of the start, and every comment has 0 < start <= end, a text
    that is not empty and the path of a file of the review; in diff mode
    its first and its last line are new-side numbers of lines of that file
    that are not deleted. *)
Theorem review_comments_anchored (ReadFile : string -> string + string) (cfg : Config)
    (now : Z) (m0 : ReviewModel) (events : list event) (m : ReviewModel) :
  Run ReadFile cfg now = inr (Some m0) ->
  for_each handle events m0 = Some m ->
  Files m = Files m0 /\ DiffFiles m = DiffFiles m0 /\ Mode m = Mode m0 /\
  forall c, c ∈ MComments m ->
    0 < StartLine c <= EndLine c /\ CText c <> "" /\
    if String.eqb (Mode m) ModeDiff
    then diffLineExists (DiffFiles m) (CPath c) (StartLine c) = true /\
         diffLineExists (DiffFiles m) (CPath c) (EndLine c) = true
    else hasFile (Files m) (CPath c) = true.
Proof.
  intros Hrun Hev. apply Run_ok in Hrun as [Hok0 _].
  destruct (events_ok events m0 m Hev Hok0) as ((_ & _ & Hc & _) & Hf & _).
  unfold frame in Hf. simpl in Hf. injection Hf as Hfiles Hdiff Hmode _ _.
  split; [exact Hfiles|]. split; [exact Hdiff|]. split; [exact Hmode|].
  intros c Hin. simpl in Hc. rewrite Forall_forall in Hc.
  destruct (Hc c Hin) as (Hr & Ht & Hn & Hs & He).
  split; [exact Hr|]. split; [exact Ht|].
  unfold names_file, on_new_side in *. simpl in *.
  destruct (String.eqb_spec (Mode m) ModeDiff) as [Hd|Hd]; [|exact Hn].
  split; [by apply Hs|by apply He].
Qed.

(** X13: a review that has started does not panic: when [Run] has built its
    model, every sequence of events is handled to the end. *)
Theorem review_never_panics (ReadFile : string -> string + string) (cfg : Config)
    (now : Z) (m0 : ReviewModel) (events : list event) :
  Run ReadFile cfg now = inr (Some m0) ->
  exists m, for_each handle events m0 = Some m.
Proof.
  intros Hrun. apply Run_ok in Hrun as [Hok0 _]. revert m0 Hok0.
  induction events as [|e events IH]; intros m0 Hok0; cbn [for_each].
  - by exists m0.
  - destruct (handle_Some m0 e Hok0) as [m1 He]. rewrite He. cbn [mbind option_bind].
    apply IH. by destruct (handle_ok m0 e m1 He Hok0) as [? _].
Qed.

(** What one event does to the comments. *)
Lemma handle_comments m e m' :
  handle m e = Some m' ->
  MComments m' = MComments m \/
  exists comment,
    e = EvAddComment comment /\
    MComments m' = MComments m ++ [new_comment m (TrimSpace comment)].
Proof.
  intros Hh. destruct e as [path now| | |line shift|comment| |]; cbn [handle] in Hh.
  - apply selectFile_cases in Hh as [->|(_ & _ & tree & _ & Hs)]; [by left|].
    left. exact (f_equal s_Comments Hs).
  - unfold toggleFileRender in Hh. cbv zeta in Hh.
    match type of Hh with updateView ?x = _ =>
      destruct (updateView_Some x) as (m2 & Heq & Hs) end.
    rewrite Heq in Hh. injection Hh as <-. left.
    rewrite (f_equal s_Comments Hs : MComments m2 = _).
    by destruct (String.eqb (Mode m) ModeFile && isMarkdownPath (SelectedPath m))%bool.
  - unfold toggleCommentRender in Hh.
    match type of Hh with updateView ?x = _ =>
      destruct (updateView_Some x) as (m2 & Heq & Hs) end.
    rewrite Heq in Hh. injection Hh as <-. left. exact (f_equal s_Comments Hs).
  - destruct (selectLine_cases m line shift) as (m2 & Heq & [->|[_ Hs]]);
      rewrite Heq in Hh; injection Hh as <-; [by left|].
    left. rewrite (f_equal s_Comments Hs : MComments m2 = _).
    by destruct (String.eqb shift "1" && (0 <? SelectionStart m))%bool.
  - destruct (addComment_cases m comment)
      as (m2 & Heq & [[msg ->]|(_ & _ & _ & Hs)]);
      rewrite Heq in Hh; injection Hh as <-; [by left|].
    right. exists comment. split; [done|]. exact (f_equal s_Comments Hs).
  - unfold cancelComment in Hh.
    match type of Hh with updateView ?x = _ =>
      destruct (updateView_Some x) as (m2 & Heq & Hs) end.
    rewrite Heq in Hh. injection Hh as <-. left. exact (f_equal s_Comments Hs).
  - injection Hh as <-. by left.
Qed.

(** The number of [add-comment] events. *)
Definition add_events (events : list event) : nat :=
  length (List.filter (fun e => if e is EvAddComment _ then true else false) events).

(** X14: comments are only ever added.  From any model, whatever the
    events, the comments before are the first comments after, in the same
    order and unchanged, and no more comments are added than there are
    [add-comment] events. *)
Theorem comments_append_only (events : list event) (m m' : ReviewModel) :
  for_each handle events m = Some m' ->
  exists added,
    MComments m' = MComments m ++ added /\ (length added <= add_events events)%nat.
Proof.
  revert m. induction events as [|e events IH]; intros m; cbn [for_each].
  - intros [= <-]. exists []. by rewrite app_nil_r.
  - destruct (handle m e) as [m1|] eqn:He; [|done]. cbn [mbind option_bind].
    intros Hrest. destruct (IH m1 Hrest) as (added & Heq & Hlen).
    destruct (handle_comments m e m1 He) as [H1|(comment & -> & H1)].
    + exists added. rewrite Heq, H1. split; [done|].
      unfold add_events in *. simpl. destruct e; simpl; lia.
    + exists (new_comment m (TrimSpace comment) :: added).
      rewrite Heq, H1, <- app_assoc. split; [done|].
      unfold add_events in *. simpl. lia.
Qed.

(* ===================================================================== *)
(** * tree.go: when [buildTree] panics *)
(* ===================================================================== *)

Definition nonempty (s : string) : bool := negb (String.eqb s "").

(** The names of a path, those of its directories, and its last element. *)
Definition names (path : string) : list string :=
  List.filter nonempty (Split_byte "/" path).
Definition dirs (path : string) : list string :=
  List.filter nonempty (List.removelast (Split_byte "/" path)).
Definition base (path : string) : string := List.last (Split_byte "/" path) "".

(** An earlier file [f] whose path is a directory of the path of [g]. *)
Definition clash (f g : File) : Prop :=
  base (PathSlash f) <> "" /\ names (PathSlash f) `prefix_of` dirs (PathSlash g).

(** Following the names [ps] from [cur] meets a node whose map is nil. *)
Fixpoint blocked (ps : list string) (cur : treeNode) : Prop :=
  match ps with
  | [] => Children cur = None
  | name :: ps' =>
      Children cur = None \/
      exists ch next, Children cur = Some ch /\ child name ch = Some next /\ blocked ps' next
  end.

Lemma blocked_nil ps cur : Children cur = None -> blocked ps cur.
Proof. clear. destruct ps; simpl; [done|by left]. Qed.

Lemma child_set_same k v m : child k (set_child k v m) = Some v.
Proof.
  clear. induction m as [|[k' v'] m IH]; simpl.
  - by rewrite String.eqb_refl.
  - destruct (String.eqb_spec k' k) as [->|Hne]; simpl.
    + by rewrite String.eqb_refl.
    + by destruct (String.eqb_spec k' k).
Qed.

Lemma child_set_other k k' v m : k <> k' -> child k' (set_child k v m) = child k' m.
Proof.
  clear. intros Hne. induction m as [|[k0 v0] m IH]; simpl.
  - by destruct (String.eqb_spec k k').
  - destruct (String.eqb_spec k0 k) as [->|Hne0]; simpl.
    + by destruct (String.eqb_spec k k').
    + by rewrite IH.
Qed.

Lemma Split_byte_last sep s :
  List.removelast (Split_byte sep s) ++ [List.last (Split_byte sep s) ""] = Split_byte sep s.
Proof.
  clear. symmetry. apply app_removelast_last.
  induction s as [|c s IH]; simpl; [done|].
  destruct (Ascii.eqb c sep); [done|]. by destruct (Split_byte sep s).
Qed.

Lemma names_dirs_base path :
  base path <> "" -> names path = dirs path ++ [base path].
Proof.
  clear. intros Hb. unfold names, dirs, base in *.
  rewrite <- (Split_byte_last "/" path) at 1. rewrite List.filter_app. simpl.
  unfold nonempty at 2. by destruct (String.eqb_spec (List.last (Split_byte "/" path) "") "").
Qed.

(** A file node on the way makes [place] panic. *)
Lemma place_blocked ds : forall ps fileName node cur,
  blocked ps cur -> ps `prefix_of` List.filter nonempty ds ->
  place ds fileName node cur = None.
Proof.
  clear. induction ds as [|name ds IH]; intros ps fileName node cur Hb Hp; cbn [place].
  - simpl in Hp. apply prefix_nil_inv in Hp as ->. simpl in Hb. by rewrite Hb.
  - simpl in Hp. unfold nonempty at 1 in Hp.
    destruct (String.eqb_spec name "") as [->|Hne]; simpl in Hp; [by apply (IH ps)|].
    destruct (Children cur) as [ch|] eqn:Hch; [|done].
    destruct ps as [|p ps]; [simpl in Hb; congruence|].
    apply prefix_cons_inv_1 in Hp as Hpn. apply prefix_cons_inv_2 in Hp. subst p.
    simpl in Hb. destruct Hb as [Hb|(ch' & next & Hch' & Hnext & Hb)]; [congruence|].
    rewrite Hch in Hch'. injection Hch' as <-. rewrite Hnext. cbv zeta.
    by rewrite (IH ps fileName node next Hb Hp).
Qed.

(** After a file is placed, its names lead to a file node. *)
Lemma place_blocks ds : forall fileName node cur cur',
  Children node = None ->
  place ds fileName node cur = Some cur' ->
  blocked (List.filter nonempty ds ++ [fileName]) cur'.
Proof.
  clear. induction ds as [|name ds IH]; intros fileName node cur cur' Hnode; cbn [place].
  - destruct (Children cur) as [ch|]; [|done]. intros [= <-]. simpl. right.
    exists (set_child fileName node ch), node.
    split; [done|]. split; [apply child_set_same|done].
  - simpl. unfold nonempty at 1.
    destruct (String.eqb_spec name "") as [->|Hne]; simpl; [by apply IH|].
    destruct (Children cur) as [ch|]; [|done]. cbv zeta.
    set (next := match child name ch with Some next => next | None => _ end).
    destruct (place ds fileName node next) as [next'|] eqn:Hp; [|done].
    cbn [mbind option_bind]. intros [= <-]. right.
    exists (set_child name next' ch), next'.
    split; [done|]. split; [apply child_set_same|].
    by apply (IH fileName node next next').
Qed.

(** A file node stays on the way when another file is placed. *)
Lemma place_keeps_blocked ds : forall ps fileName node cur cur',
  Children node = None -> blocked ps cur ->
  place ds fileName node cur = Some cur' -> blocked ps cur'.
Proof.
  clear. induction ds as [|name ds IH]; intros ps fileName node cur cur' Hnode Hb;
    cbn [place].
  - destruct (Children cur) as [ch|] eqn:Hch; [|done]. intros [= <-].
    destruct ps as [|p ps]; [simpl in Hb; congruence|].
    simpl in Hb. destruct Hb as [Hb|(ch' & next & Hch' & Hnext & Hb)]; [congruence|].
    rewrite Hch in Hch'. injection Hch' as <-. simpl. right.
    destruct (decide (fileName = p)) as [->|Hne].
    + exists (set_child p node ch), node. split; [done|].
      split; [apply child_set_same|by apply blocked_nil].
    + exists (set_child fileName node ch), next. split; [done|].
      split; [by rewrite child_set_other|done].
  - destruct (String.eqb_spec name "") as [->|Hne]; [by apply IH|].
    destruct (Children cur) as [ch|] eqn:Hch; [|done]. cbv zeta.
    set (next := match child name ch with Some next => next | None => _ end).
    destruct (place ds fileName node next) as [next'|] eqn:Hp; [|done].
    cbn [mbind option_bind]. intros [= <-].
    destruct ps as [|p ps]; [simpl in Hb; congruence|].
    simpl in Hb. destruct Hb as [Hb|(ch' & nx & Hch' & Hnx & Hb)]; [congruence|].
    rewrite Hch in Hch'. injection Hch' as <-. simpl. right.
    destruct (decide (name = p)) as [->|Hnp].
    + exists (set_child p next' ch), next'. split; [done|].
      split; [apply child_set_same|].
      subst next. rewrite Hnx in Hp. by apply (IH ps fileName node nx).
    + exists (set_child name next' ch), nx. split; [done|].
      split; [by rewrite child_set_other|done].
Qed.

Lemma for_each_app {A S} (body : S -> A -> option S) (l1 l2 : list A) (acc : S) :
  for_each body (l1 ++ l2) acc = for_each body l1 acc ≫= for_each body l2.
Proof.
  clear. revert acc. induction l1 as [|x l1 IH]; intros acc; simpl; [done|].
  destruct (body acc x); simpl; [apply IH|done].
Qed.

Lemma add_file_blocks root f root' :
  base (PathSlash f) <> "" -> add_file root f = Some root' ->
  blocked (names (PathSlash f)) root'.
Proof.
  clear. intros Hb Hadd. rewrite (names_dirs_base _ Hb).
  unfold add_file in Hadd. cbv zeta in Hadd.
  by apply place_blocks in Hadd.
Qed.

Lemma add_files_keep_blocked ps files : forall root root',
  blocked ps root -> for_each add_file files root = Some root' -> blocked ps root'.
Proof.
  clear. induction files as [|f files IH]; intros root root' Hb; cbn [for_each].
  - by intros [= <-].
  - destruct (add_file root f) as [root1|] eqn:Hadd; [|done]. cbn [mbind option_bind].
    apply IH. unfold add_file in Hadd. cbv zeta in Hadd.
    by apply (place_keeps_blocked _ ps) in Hadd.
Qed.

Lemma add_files_clash pre f mid g post root :
  clash f g -> for_each add_file (pre ++ f :: mid ++ g :: post) root = None.
Proof.
  clear. intros [Hb Hp]. rewrite for_each_app.
  destruct (for_each add_file pre root) as [r1|]; [|done]. cbn [mbind option_bind].
  cbn [for_each].
  destruct (add_file r1 f) as [r2|] eqn:Hf; [|done]. cbn [mbind option_bind].
  rewrite for_each_app.
  destruct (for_each add_file mid r2) as [r3|] eqn:Hmid; [|done].
  cbn [mbind option_bind for_each].
  assert (blocked (names (PathSlash f)) r3) as Hblocked.
  { eapply add_files_keep_blocked; [|exact Hmid]. by eapply add_file_blocks. }
  assert (add_file r3 g = None) as ->; [|done].
  unfold add_file. cbv zeta. exact (place_blocked _ _ _ _ _ Hblocked Hp).
Qed.

(** ** The converse: a panic comes from a clash *)

(** A node with an empty map takes every file. *)
Lemma place_fresh ds : forall fileName node cur,
  Children cur = Some [] -> is_Some (place ds fileName node cur).
Proof.
  clear. induction ds as [|name ds IH]; intros fileName node cur Hch; cbn [place].
  - by rewrite Hch.
  - destruct (String.eqb name ""); [by apply IH|]. rewrite Hch. simpl.
    destruct (IH fileName node
                (mkTreeNode name (joinPath (NPath cur) name) true (Some []) None))
      as [next' ->]; done.
Qed.

(** [place] panics only at a node whose map is nil. *)
Lemma place_None ds : forall fileName node cur,
  place ds fileName node cur = None -> blocked (List.filter nonempty ds) cur.
Proof.
  clear. induction ds as [|name ds IH]; intros fileName node cur; cbn [place].
  - simpl. by destruct (Children cur).
  - simpl. unfold nonempty at 1.
    destruct (String.eqb_spec name "") as [->|Hne]; simpl; [by apply IH|].
    destruct (Children cur) as [ch|] eqn:Hch; [|by left]. cbv zeta.
    destruct (child name ch) as [next|] eqn:Hnext.
    + destruct (place ds fileName node next) as [next'|] eqn:Hp; [done|].
      intros _. right. exists ch, next. split; [done|]. split; [done|].
      by apply (IH fileName node).
    + destruct (place_fresh ds fileName node
                  (mkTreeNode name (joinPath (NPath cur) name) true (Some []) None))
        as [next' ->]; done.
Qed.

(** Every node with a nil map that names other than the empty one lead
    to, from a node at the position [pos], lies at or below one of the
    positions [L]. *)
Definition nil_maps_at (L : list (list string)) (cur : treeNode) (pos : list string) : Prop :=
  forall ps, Forall (fun s => s <> "") ps -> blocked ps cur ->
    exists t, t ∈ L /\ t `prefix_of` pos ++ ps.

Lemma place_nil_maps ds : forall L fileName node cur cur' pos,
  Children node = None ->
  nil_maps_at L cur pos ->
  place ds fileName node cur = Some cur' ->
  nil_maps_at ((pos ++ List.filter nonempty ds ++ [fileName]) :: L) cur' pos.
Proof.
  clear. induction ds as [|name ds IH]; intros L fileName node cur cur' pos Hnode Hinv;
    cbn [place].
  - destruct (Children cur) as [ch|] eqn:Hch; [|done]. intros [= <-].
    intros ps Hps Hb. destruct ps as [|p ps]; [done|].
    simpl in Hb. destruct Hb as [Hb|(ch' & nx & [= <-] & Hnx & Hb)]; [done|].
    destruct (decide (fileName = p)) as [->|Hne].
    + exists (pos ++ [p]). split; [by left|]. simpl.
      apply prefix_app, prefix_cons, prefix_nil.
    + rewrite child_set_other in Hnx by done.
      destruct (Hinv (p :: ps) Hps) as (t & Ht & Hpre).
      { simpl. right. by exists ch, nx. }
      exists t. split; [by right|done].
  - simpl. unfold nonempty at 1.
    destruct (String.eqb_spec name "") as [->|Hne]; simpl; [by apply IH|].
    destruct (Children cur) as [ch|] eqn:Hch; [|done]. cbv zeta.
    set (next := match child name ch with Some next => next | None => _ end).
    destruct (place ds fileName node next) as [next'|] eqn:Hp; [|done].
    cbn [mbind option_bind]. intros [= <-].
    assert (nil_maps_at L next (pos ++ [name])) as Hnext.
    { intros ps Hps Hb. subst next. destruct (child name ch) as [nx|] eqn:Hnx.
      - destruct (Hinv (name :: ps)) as (t & Ht & Hpre).
        + by constructor.
        + simpl. right. by exists ch, nx.
        + exists t. split; [done|]. by rewrite <- app_assoc.
      - destruct ps as [|p ps]; [done|].
        simpl in Hb. by destruct Hb as [Hb|(ch' & nx & [= <-] & Hnx' & _)]. }
    pose proof (IH L fileName node next next' (pos ++ [name]) Hnode Hnext Hp) as Hnext'.
    intros ps Hps Hb. destruct ps as [|p ps]; [done|].
    simpl in Hb. destruct Hb as [Hb|(ch' & nx & [= <-] & Hnx & Hb)]; [done|].
    apply Forall_cons in Hps as [Hp0 Hps].
    destruct (decide (name = p)) as [->|Hnp].
    + rewrite child_set_same in Hnx. injection Hnx as <-.
      destruct (Hnext' ps Hps Hb) as (t & Ht & Hpre).
      exists t. rewrite <- !app_assoc in Ht, Hpre. simpl in Ht, Hpre. done.
    + rewrite child_set_other in Hnx by done.
      destruct (Hinv (p :: ps)) as (t & Ht & Hpre).
      * by constructor.
      * simpl. right. by exists ch, nx.
      * exists t. split; [by right|done].
Qed.

(** The positions of the files, for those that have a last element. *)
Definition file_positions (files : list File) : list (list string) :=
  List.map (fun f => names (PathSlash f))
           (List.filter (fun f => nonempty (base (PathSlash f))) files).

Lemma filter_nonempty_all l : Forall (fun s => s <> "") (List.filter nonempty l).
Proof.
  clear. induction l as [|s l IH]; simpl; [constructor|].
  unfold nonempty at 1. destruct (String.eqb_spec s ""); simpl; [done|by constructor].
Qed.

Lemma add_file_nil_maps files root f root' :
  nil_maps_at (file_positions files) root [] ->
  add_file root f = Some root' ->
  nil_maps_at (file_positions (files ++ [f])) root' [].
Proof.
  clear. intros Hinv Hadd. unfold add_file in Hadd. cbv zeta in Hadd.
  apply (place_nil_maps _ (file_positions files) _ _ _ _ []) in Hadd; [|done|done].
  simpl in Hadd. intros ps Hps Hb. destruct (Hadd ps Hps Hb) as (t & Ht & Hpre).
  exists t. split; [|done]. unfold file_positions. rewrite List.filter_app, List.map_app.
  apply elem_of_app. apply elem_of_cons in Ht as [->|Ht]; [|by left]. right.
  fold (dirs (PathSlash f)) in Hpre |- *. fold (base (PathSlash f)) in Hpre |- *.
  destruct (String.eqb_spec (base (PathSlash f)) "") as [He|Hne].
  - exfalso. rewrite He in Hpre. simpl in Hpre.
    assert ("" ∈ ps) as Hin.
    { destruct Hpre as [k ->]. apply elem_of_app. left. apply elem_of_app. right.
      by left. }
    rewrite Forall_forall in Hps. by apply (Hps "" Hin).
  - assert (List.filter (fun f => nonempty (base (PathSlash f))) [f] = [f]) as ->.
    { simpl. unfold nonempty. apply String.eqb_neq in Hne. by rewrite Hne. }
    simpl. rewrite (names_dirs_base _ Hne). by left.
Qed.

Lemma add_files_None files : forall done_ root,
  nil_maps_at (file_positions done_) root [] ->
  for_each add_file files root = None ->
  exists pre f mid g post, done_ ++ files = pre ++ f :: mid ++ g :: post /\ clash f g.
Proof.
  clear. induction files as [|g files IH]; intros done_ root Hinv; cbn [for_each]; [done|].
  destruct (add_file root g) as [root1|] eqn:Hadd.
  - cbn [mbind option_bind]. intros Hnone.
    destruct (IH (done_ ++ [g]) root1) as (pre & f & mid & g' & post & Heq & Hc).
    + by eapply add_file_nil_maps.
    + exact Hnone.
    + exists pre, f, mid, g', post. by rewrite <- app_assoc in Heq.
  - intros _. unfold add_file in Hadd. cbv zeta in Hadd.
    apply place_None in Hadd. fold (dirs (PathSlash g)) in Hadd.
    destruct (Hinv (dirs (PathSlash g))) as (t & Ht & Hpre);
      [apply filter_nonempty_all|exact Hadd|].
    simpl in Hpre. unfold file_positions in Ht.
    apply list_elem_of_In, in_map_iff in Ht as (f & <- & Hf).
    apply filter_In in Hf as [Hf Hb].
    apply list_elem_of_In, list_elem_of_split in Hf as (pre & mid & ->).
    exists pre, f, mid, g, files. split; [by rewrite <- app_assoc|].
    split; [|done]. unfold nonempty in Hb. by apply negb_true_iff, String.eqb_neq in Hb.
Qed.

(** X15: [buildTree] panics exactly when the path of a file is, name by
    name, a directory of the path of a later file: the node of the first
    is a file node, whose map of children is nil, and the second is to be
    put below it.  A diff that has [lib] and then [lib/x.go] is such a
    list.  The selected path plays no part. *)
Theorem buildTree_panics_iff (files : list File) (selectedPath : string) :
  buildTree files selectedPath = None <->
  exists pre f mid g post, files = pre ++ f :: mid ++ g :: post /\ clash f g.
Proof.
  clear. unfold buildTree. cbv zeta. fold tree_root. split.
  - destruct (for_each add_file files tree_root) as [root|] eqn:Hfe; [done|].
    intros _. apply (add_files_None files [] tree_root); [|done].
    intros ps Hps Hb. destruct ps as [|p ps]; [done|].
    simpl in Hb. by destruct Hb as [Hb|(ch & nx & [= <-] & Hnx & _)].
  - intros (pre & f & mid & g & post & -> & Hc).
    by rewrite (add_files_clash pre f mid g post tree_root Hc).
Qed.

(* ===================================================================== *)
(** * tree.go: what [buildTree] lists *)
(* ===================================================================== *)

(** Induction on a node from its children. *)
Lemma treeNode_induction (P : treeNode -> Prop) :
  (forall n, (forall ch k c, Children n = Some ch -> In (k, c) ch -> P c) -> P n) ->
  forall n, P n.
Proof.
  clear. intros H. fix IH 1. intros [name path isDir children file]. apply H.
  intros ch k c Hch. simpl in Hch. destruct children as [ch'|]; [|discriminate Hch].
  injection Hch as <-. revert k c.
  refine ((fix go (l : list (string * treeNode)) : forall k c, In (k, c) l -> P c :=
             match l with
             | [] => fun k c Hin => match Hin with end
             | (k', c') :: r => fun k c Hin => _
             end) ch').
  destruct Hin as [Heq|Hin].
  - injection Heq as _ <-. apply IH.
  - exact (go r k c Hin).
Qed.

Lemma insert_by_perm {A} (less : A -> A -> bool) x l : insert_by less x l ≡ₚ x :: l.
Proof.
  clear. induction l as [|y l IH]; simpl; [done|].
  destruct (less y x); [|done]. rewrite IH. apply perm_swap.
Qed.

Lemma sort_by_perm {A} (less : A -> A -> bool) l : sort_by less l ≡ₚ l.
Proof.
  clear. induction l as [|x l IH]; simpl; [done|].
  by rewrite insert_by_perm, IH.
Qed.

(** The children of a node with the items of their walks. *)
Definition walked (sel : string) (depth : Z) (ch : list (string * treeNode))
    : list (treeNode * list TreeItem) :=
  List.map (fun kc : string * treeNode => (kc.2, walk sel false (depth + 1) kc.2)) ch.

Lemma walk_eq sel r depth n :
  walk sel r depth n =
  (if r then [] else [tree_item sel depth n]) ++
  concat (List.map snd
            (sort_by (fun a b => tree_less (fst a) (fst b))
               (match Children n with None => [] | Some ch => walked sel depth ch end))).
Proof.
  clear. destruct n as [name path isDir children file]. cbn [walk Children].
  f_equal. do 3 f_equal. destruct children as [ch|]; [|done].
  unfold walked. apply List.map_ext. by intros [k c].
Qed.

(** An item of the walk below [n] is an item of the walk of a child. *)
Lemma walk_below sel r depth n it :
  In it (walk sel r depth n) <->
  (r = false /\ it = tree_item sel depth n) \/
  exists ch k c, Children n = Some ch /\ In (k, c) ch /\
                 In it (walk sel false (depth + 1) c).
Proof.
  clear. rewrite walk_eq, in_app_iff.
  assert (In it (if r then [] else [tree_item sel depth n]) <->
          r = false /\ it = tree_item sel depth n) as ->.
  { destruct r; simpl; [|split; [intros [<-|[]]; done|intros [_ ->]; by left]].
    split; [done|by intros [? _]]. }
  assert (In it (concat (List.map snd
            (sort_by (fun a b => tree_less (fst a) (fst b))
               (match Children n with None => [] | Some ch => walked sel depth ch end))))
          <-> exists ch k c, Children n = Some ch /\ In (k, c) ch /\
                             In it (walk sel false (depth + 1) c)) as ->; [|done].
  rewrite in_concat. split.
  - intros (items & Hitems & Hit). apply in_map_iff in Hitems as ([c its] & <- & Hc).
    simpl in Hit.
    apply (Permutation_in _ (sort_by_perm _ _)) in Hc.
    destruct (Children n) as [ch|]; [|done].
    unfold walked in Hc. apply in_map_iff in Hc as ([k c'] & [= <- <-] & Hin).
    by exists ch, k, c'.
  - intros (ch & k & c & Hch & Hin & Hit). rewrite Hch.
    exists (walk sel false (depth + 1) c). split; [|done].
    apply in_map_iff. exists (c, walk sel false (depth + 1) c). split; [done|].
    apply (Permutation_in _ (Permutation_sym (sort_by_perm _ _))).
    unfold walked. apply in_map_iff. by exists (k, c).
Qed.

(** ** Every file that no later file displaces is listed *)

(** The node that the names [ds] and then the key [k] lead to. *)
Fixpoint at_pos (ds : list string) (k : string) (cur : treeNode) : option treeNode :=
  match ds with
  | [] => ch ← Children cur; child k ch
  | d :: ds' => ch ← Children cur; nx ← child d ch; at_pos ds' k nx
  end.

(** The place of a file in the tree: its directories, then its last
    element. *)
Definition position (path : string) : list string := dirs path ++ [base path].

Lemma child_In k ch c : child k ch = Some c -> In (k, c) ch.
Proof.
  clear. induction ch as [|[k' c'] ch IH]; simpl; [done|].
  destruct (String.eqb_spec k' k) as [->|_]; [intros [= ->]; by left|].
  intros H. right. by apply IH.
Qed.

Lemma place_nil ds fileName node cur :
  Children cur = None -> place ds fileName node cur = None.
Proof.
  clear. intros Hnil. apply (place_blocked ds []); [done|apply prefix_nil].
Qed.

Lemma place_at ds : forall fileName node cur cur',
  place ds fileName node cur = Some cur' ->
  at_pos (List.filter nonempty ds) fileName cur' = Some node.
Proof.
  clear. induction ds as [|name ds IH]; intros fileName node cur cur'; cbn [place].
  - destruct (Children cur) as [ch|]; [|done]. intros [= <-]. simpl.
    apply child_set_same.
  - simpl. unfold nonempty at 1.
    destruct (String.eqb_spec name "") as [->|Hne]; simpl; [by apply IH|].
    destruct (Children cur) as [ch|]; [|done]. cbv zeta.
    set (next := match child name ch with Some next => next | None => _ end).
    destruct (place ds fileName node next) as [next'|] eqn:Hp; [|done].
    cbn [mbind option_bind]. intros [= <-]. simpl. rewrite child_set_same. simpl.
    by apply (IH fileName node next next').
Qed.

Lemma place_keeps_at ds : forall ds0 k0 n fileName node cur cur',
  Children n = None -> at_pos ds0 k0 cur = Some n ->
  place ds fileName node cur = Some cur' ->
  ~ (List.filter nonempty ds ++ [fileName]) `prefix_of` (ds0 ++ [k0]) ->
  at_pos ds0 k0 cur' = Some n.
Proof.
  clear. induction ds as [|name ds IH]; intros ds0 k0 n fileName node cur cur' Hn Hat;
    cbn [place].
  - destruct (Children cur) as [ch|] eqn:Hch; [|done]. intros [= <-] Hnp.
    simpl in Hnp. destruct ds0 as [|d ds0]; simpl in Hat |- *; rewrite Hch in Hat;
      simpl in Hat.
    + destruct (decide (fileName = k0)) as [->|Hne]; [by destruct Hnp|].
      by rewrite child_set_other.
    + destruct (decide (fileName = d)) as [->|Hne].
      * destruct Hnp. apply prefix_cons, prefix_nil.
      * by rewrite child_set_other.
  - simpl. unfold nonempty at 1.
    destruct (String.eqb_spec name "") as [->|Hne]; simpl; [by apply IH|].
    destruct (Children cur) as [ch|] eqn:Hch; [|done]. cbv zeta.
    set (next := match child name ch with Some next => next | None => _ end).
    destruct (place ds fileName node next) as [next'|] eqn:Hp; [|done].
    cbn [mbind option_bind]. intros [= <-] Hnp.
    destruct ds0 as [|d ds0]; simpl in Hat |- *; rewrite Hch in Hat; simpl in Hat.
    + destruct (decide (name = k0)) as [->|Hnk].
      * subst next. rewrite Hat in Hp. by rewrite place_nil in Hp.
      * by rewrite child_set_other.
    + destruct (child d ch) as [nx|] eqn:Hnx; [|done]. simpl in Hat.
      destruct (decide (name = d)) as [->|Hnd].
      * rewrite child_set_same. simpl. subst next. rewrite Hnx in Hp.
        apply (IH ds0 k0 n fileName node nx next' Hn Hat Hp).
        intros Hpre. apply Hnp. by apply prefix_cons.
      * rewrite child_set_other by done. by rewrite Hnx.
Qed.

Lemma walk_at ds : forall k n0 n sel r depth,
  at_pos ds k n0 = Some n ->
  In (tree_item sel (depth + 1 + Z.of_nat (length ds)) n) (walk sel r depth n0).
Proof.
  clear. induction ds as [|d ds IH]; intros k n0 n sel r depth; simpl.
  - destruct (Children n0) as [ch|] eqn:Hch; [|done]. simpl. intros Hc.
    apply walk_below. right. exists ch, k, n. split; [done|].
    split; [by apply child_In|]. apply walk_below. left. split; [done|].
    f_equal. lia.
  - destruct (Children n0) as [ch|] eqn:Hch; [|done]. simpl.
    destruct (child d ch) as [nx|] eqn:Hnx; [|done]. simpl. intros Hat.
    apply walk_below. right. exists ch, d, nx. split; [done|].
    split; [by apply child_In|].
    replace (depth + 1 + Z.of_nat (S (length ds)))
      with (depth + 1 + 1 + Z.of_nat (length ds)) by lia.
    by apply (IH k).
Qed.

Lemma add_files_keep_at ds0 k0 n files : forall root root',
  Children n = None -> at_pos ds0 k0 root = Some n ->
  for_each add_file files root = Some root' ->
  (forall g, g ∈ files -> ~ position (PathSlash g) `prefix_of` (ds0 ++ [k0])) ->
  at_pos ds0 k0 root' = Some n.
Proof.
  clear. induction files as [|g files IH]; intros root root' Hn Hat; cbn [for_each].
  - by intros [= <-].
  - destruct (add_file root g) as [root1|] eqn:Hadd; [|done]. cbn [mbind option_bind].
    intros Hrest Hno. apply (IH root1); [done| |done|].
    + unfold add_file in Hadd. cbv zeta in Hadd.
      apply (place_keeps_at _ ds0 k0 n) in Hadd; [done|done|done|].
      apply (Hno g). by left.
    + intros g' Hg'. apply Hno. by right.
Qed.

(** X16: the file tree lists every file that no later file displaces.  A
    file of the list has an entry in the result of [buildTree], under its
    last path element, with its path, at the depth of its directories and
    marked selected exactly when its path is the selected one, unless the
    place of a later file (its directories and its last element) is a
    prefix, name by name, of its own place: a later file of the same
    place replaces it, and a later file named as one of its directories
    replaces that directory with all it holds. *)
Theorem buildTree_lists (pre post : list File) (f : File) (selectedPath : string)
    (items : list TreeItem) :
  buildTree (pre ++ f :: post) selectedPath = Some items ->
  (forall g, g ∈ post ->
     ~ position (PathSlash g) `prefix_of` position (PathSlash f)) ->
  mkTreeItem (base (PathSlash f)) (FPath f)
    (Z.of_nat (length (dirs (PathSlash f)))) false
    (String.eqb (FPath f) selectedPath) ∈ items.
Proof.
  clear. unfold buildTree. cbv zeta. fold tree_root.
  rewrite for_each_app.
  destruct (for_each add_file pre tree_root) as [r1|]; [|done].
  cbn [mbind option_bind for_each].
  destruct (add_file r1 f) as [r2|] eqn:Hf; [|done]. cbn [mbind option_bind].
  destruct (for_each add_file post r2) as [r3|] eqn:Hpost; [|done].
  cbn [mbind option_bind]. intros [= <-] Hno.
  unfold add_file in Hf. cbv zeta in Hf. apply place_at in Hf.
  fold (dirs (PathSlash f)) in Hf. fold (base (PathSlash f)) in Hf.
  eapply add_files_keep_at in Hf; [|done|exact Hpost|exact Hno].
  apply list_elem_of_In.
  apply (walk_at _ _ _ _ selectedPath true (-1)) in Hf.
  replace (-1 + 1 + Z.of_nat (length (dirs (PathSlash f))))
    with (Z.of_nat (length (dirs (PathSlash f)))) in Hf by lia.
  exact Hf.
Qed.

(** ** Every entry is a directory or a file of the list *)

(** [c] lies below [n], [d] levels below the children of [n]. *)
Inductive descendant : treeNode -> Z -> treeNode -> Prop :=
  | desc_child n ch k c :
      Children n = Some ch -> In (k, c) ch -> descendant n 0 c
  | desc_step n ch k c d c' :
      Children n = Some ch -> In (k, c) ch -> descendant c d c' ->
      descendant n (d + 1) c'.

(** A node is a directory with a name, or the node of a file of [files]
    at the depth of its directories. *)
Definition node_ok (files : list File) (d : Z) (c : treeNode) : Prop :=
  (NIsDir c = true /\ NFile c = None /\ NName c <> "") \/
  (NIsDir c = false /\
   exists f, f ∈ files /\ NFile c = Some f /\ NName c = base (PathSlash f) /\
             d = Z.of_nat (length (dirs (PathSlash f)))).

Definition nodes_ok (files : list File) (n : treeNode) (d0 : Z) : Prop :=
  forall d c, descendant n d c -> node_ok files (d0 + d) c.

Lemma descendant_depth n d c : descendant n d c -> 0 <= d.
Proof. clear. induction 1; lia. Qed.

Lemma In_set_child k v m k' c' :
  In (k', c') (set_child k v m) -> (k' = k /\ c' = v) \/ In (k', c') m.
Proof.
  clear. induction m as [|[k0 v0] m IH]; simpl.
  - intros [[= <- <-]|[]]. by left.
  - destruct (String.eqb_spec k0 k) as [->|Hne]; simpl.
    + intros [[= <- <-]|Hin]; [by left|right; by right].
    + intros [[= <- <-]|Hin]; [right; by left|].
      destruct (IH Hin) as [?|?]; [by left|right; by right].
Qed.

(** [place] changes the children of a node only. *)
Lemma place_fields ds : forall fileName node cur cur',
  place ds fileName node cur = Some cur' ->
  NIsDir cur' = NIsDir cur /\ NFile cur' = NFile cur /\ NName cur' = NName cur.
Proof.
  clear. induction ds as [|name ds IH]; intros fileName node cur cur'; cbn [place].
  - destruct (Children cur); [|done]. by intros [= <-].
  - destruct (String.eqb name ""); [by apply IH|].
    destruct (Children cur); [|done]. cbv zeta.
    destruct (place ds fileName node _); [|done]. by intros [= <-].
Qed.

Lemma place_nodes_ok files ds : forall fileName node cur cur' d0,
  Children node = None ->
  node_ok files (d0 + Z.of_nat (length (List.filter nonempty ds))) node ->
  nodes_ok files cur d0 ->
  place ds fileName node cur = Some cur' ->
  nodes_ok files cur' d0.
Proof.
  clear. induction ds as [|name ds IH]; intros fileName node cur cur' d0 Hnil Hnode Hinv;
    cbn [place].
  - destruct (Children cur) as [ch|] eqn:Hch; [|done]. intros [= <-].
    simpl in Hnode. intros d c Hd. inversion Hd as [n ch' k c0 Hch' Hin|
                                                     n ch' k c0 d' c1 Hch' Hin Hrest]; subst.
    + simpl in Hch'. injection Hch' as <-.
      apply In_set_child in Hin as [[-> ->]|Hin]; [done|].
      apply Hinv. by eapply desc_child.
    + simpl in Hch'. injection Hch' as <-.
      apply In_set_child in Hin as [[-> ->]|Hin].
      * inversion Hrest; congruence.
      * apply Hinv. by eapply desc_step.
  - simpl in Hnode. unfold nonempty at 1 in Hnode.
    destruct (String.eqb_spec name "") as [->|Hne]; simpl in Hnode; [by apply IH|].
    destruct (Children cur) as [ch|] eqn:Hch; [|done]. cbv zeta.
    set (next := match child name ch with Some next => next | None => _ end).
    destruct (place ds fileName node next) as [next'|] eqn:Hp; [|done].
    cbn [mbind option_bind]. intros [= <-].
    assert (node_ok files (d0 + 0) next) as Hnext0.
    { subst next. destruct (child name ch) as [nx|] eqn:Hnx.
      - apply Hinv. eapply desc_child; [done|]. by apply child_In.
      - left. done. }
    assert (nodes_ok files next (d0 + 1)) as Hnext.
    { intros d c Hd. subst next. destruct (child name ch) as [nx|] eqn:Hnx.
      - replace (d0 + 1 + d) with (d0 + (d + 1)) by lia.
        apply Hinv. eapply desc_step; [done| |done]. by apply child_In.
      - inversion Hd as [n ch' k c0 Hch' Hin|n ch' k c0 d' c1 Hch' Hin Hrest]; subst;
          simpl in Hch'; by injection Hch' as <-. }
    assert (nodes_ok files next' (d0 + 1)) as Hnext'.
    { apply (IH fileName node next next' (d0 + 1)); [done| |done|done].
      replace (d0 + 1 + Z.of_nat (length (List.filter nonempty ds)))
        with (d0 + Z.of_nat (S (length (List.filter nonempty ds)))) by lia.
      exact Hnode. }
    assert (node_ok files (d0 + 0) next') as Hnext0'.
    { destruct (place_fields _ _ _ _ _ Hp) as (H1 & H2 & H3).
      unfold node_ok. rewrite H1, H2, H3. exact Hnext0. }
    intros d c Hd. inversion Hd as [n ch' k c0 Hch' Hin|
                                     n ch' k c0 d' c1 Hch' Hin Hrest]; subst.
    + simpl in Hch'. injection Hch' as <-.
      apply In_set_child in Hin as [[-> ->]|Hin]; [done|].
      apply Hinv. by eapply desc_child.
    + simpl in Hch'. injection Hch' as <-.
      apply In_set_child in Hin as [[-> ->]|Hin].
      * replace (d0 + (d' + 1)) with (d0 + 1 + d') by lia. by apply Hnext'.
      * apply Hinv. by eapply desc_step.
Qed.

Lemma add_files_nodes_ok all files : forall root root',
  (forall f, f ∈ files -> f ∈ all) ->
  nodes_ok all root 0 ->
  for_each add_file files root = Some root' ->
  nodes_ok all root' 0.
Proof.
  clear. induction files as [|f files IH]; intros root root' Hsub Hinv; cbn [for_each].
  - by intros [= <-].
  - destruct (add_file root f) as [root1|] eqn:Hadd; [|done]. cbn [mbind option_bind].
    apply IH; [intros g Hg; apply Hsub; by right|].
    unfold add_file in Hadd. cbv zeta in Hadd.
    eapply place_nodes_ok; [| |exact Hinv|exact Hadd]; [done|].
    right. split; [done|]. exists f. split; [apply Hsub; by left|].
    split; [done|]. split; [done|]. simpl. done.
Qed.

(** The items of a walk are those of the node and of the nodes below. *)
Lemma walk_descendant sel it : forall n r depth,
  In it (walk sel r depth n) ->
  (r = false /\ it = tree_item sel depth n) \/
  exists d c, descendant n d c /\ it = tree_item sel (depth + 1 + d) c.
Proof.
  clear. intros n. induction n as [n IH] using treeNode_induction.
  intros r depth Hin. apply walk_below in Hin as [Hin|(ch & k & c & Hch & Hkc & Hin)];
    [by left|]. right.
  destruct (IH ch k c Hch Hkc false (depth + 1) Hin) as [[_ ->]|(d & c' & Hd & ->)].
  - exists 0, c. split; [by eapply desc_child|]. f_equal. lia.
  - exists (d + 1), c'. split; [by eapply desc_step|]. f_equal. lia.
Qed.

(** X17: every entry of the file tree is a directory or a file of the
    list.  An entry that [buildTree] returns has a depth that is not
    negative and is either a directory, with a name, no path and never
    marked selected, or the entry of a file of the list: under the last
    element of its path, with its path, at the depth of its directories,
    and marked selected exactly when its path is the selected path. *)
Theorem buildTree_items (files : list File) (selectedPath : string)
    (items : list TreeItem) (it : TreeItem) :
  buildTree files selectedPath = Some items -> it ∈ items ->
  0 <= Depth it /\
  ((IsDir it = true /\ TName it <> "" /\ TPath it = "" /\ TSelected it = false) \/
   (IsDir it = false /\
    exists f, f ∈ files /\ TName it = base (PathSlash f) /\ TPath it = FPath f /\
      Depth it = Z.of_nat (length (dirs (PathSlash f))) /\
      TSelected it = String.eqb (FPath f) selectedPath)).
Proof.
  clear. unfold buildTree. cbv zeta. fold tree_root.
  destruct (for_each add_file files tree_root) as [root|] eqn:Hfe; [|done].
  cbn [mbind option_bind]. intros [= <-] Hin.
  assert (nodes_ok files root 0) as Hok.
  { apply (add_files_nodes_ok files files tree_root); [done| |done].
    intros d c Hd. inversion Hd as [n ch k c0 Hch Hkc|n ch k c0 d' c1 Hch Hkc Hrest];
      subst; simpl in Hch; by injection Hch as <-. }
  apply list_elem_of_In, walk_descendant in Hin as [[? _]|(d & c & Hd & ->)]; [done|].
  pose proof (descendant_depth _ _ _ Hd) as Hd0.
  specialize (Hok d c Hd). simpl. split; [lia|].
  destruct Hok as [(Hdir & Hfile & Hname)|(Hdir & f & Hf & Hfile & Hname & Hdepth)].
  - left. by rewrite Hfile.
  - right. split; [done|]. exists f. rewrite Hfile. split; [done|].
    split; [done|]. split; [done|]. split; [lia|done].
Qed.

(* ===================================================================== *)
(** * io_helpers.go: what [loadFiles] loads *)
(* ===================================================================== *)

Lemma Split_LF_nonempty s : Split_LF s <> [].
Proof.
  clear. destruct s as [|c s]; simpl; [done|].
  destruct (Ascii.eqb c LF); [done|]. by destruct (Split_LF s).
Qed.

Lemma Join_push c l ls sep : Join (String c l :: ls) sep = String c (Join (l :: ls) sep).
Proof. clear. destruct ls; simpl; [done|]. by rewrite append_cons. Qed.

(** Joining the lines of a text with line feeds gives the text back. *)
Lemma Join_Split_LF s : Join (Split_LF s) nl = s.
Proof.
  clear. induction s as [|c s IH]; simpl; [done|].
  destruct (Ascii.eqb_spec c LF) as [->|Hne].
  - pose proof (Split_LF_nonempty s) as Hn.
    destruct (Split_LF s) as [|l ls] eqn:Hs; [done|].
    change (Join ("" :: l :: ls) nl) with ("" +:+ nl +:+ Join (l :: ls) nl).
    rewrite IH. unfold nl. by rewrite append_nil_l, append_cons, append_nil_l.
  - pose proof (Split_LF_nonempty s) as Hn.
    destruct (Split_LF s) as [|l ls] eqn:Hs; [done|].
    by rewrite Join_push, IH.
Qed.

(** The file that [loadFiles] makes of a path and its content. *)
Definition loaded_file (path data : string) : File :=
  mkFile path (ToSlash path) (Split_LF (ReplaceAll_CRLF data)).

Lemma loadFiles_loop ReadFile paths : forall acc,
  match try_each (fun files path =>
                    match ReadFile path with
                    | inl err => inl ("read " +:+ path +:+ ": " +:+ err)
                    | inr data =>
                        inr (files ++ [mkFile path (ToSlash path)
                                         (Split_LF (ReplaceAll_CRLF data))])
                    end) paths acc with
  | inr files =>
      exists new, files = acc ++ new /\
        Forall2 (fun path f => exists data,
                   ReadFile path = inr data /\ f = loaded_file path data) paths new
  | inl e =>
      exists pre path post err, paths = pre ++ path :: post /\
        Forall (fun q => exists data, ReadFile q = inr data) pre /\
        ReadFile path = inl err /\ e = "read " +:+ path +:+ ": " +:+ err
  end.
Proof.
  clear. induction paths as [|p paths IH]; intros acc; cbn [try_each].
  - exists []. by rewrite app_nil_r.
  - destruct (ReadFile p) as [err|data] eqn:Hp.
    + exists [], p, paths, err. done.
    + specialize (IH (acc ++ [mkFile p (ToSlash p) (Split_LF (ReplaceAll_CRLF data))])).
      destruct (try_each _ paths _) as [e|files].
      * destruct IH as (pre & q & post & err & -> & Hpre & Hq & ->).
        exists (p :: pre), q, post, err. split; [done|]. split; [|done].
        constructor; [by exists data|done].
      * destruct IH as (new & -> & Hnew).
        exists (loaded_file p data :: new). rewrite <- app_assoc. split; [done|].
        constructor; [by exists data|done].
Qed.

(** X18: [loadFiles] reads the paths in order and stops at the first that
    cannot be read, with the error [read <path>: <error>].  When all are
    read there is one file for each path, in order, with the path as
    given; its lines are the content split at line feeds after every
    carriage return, line feed pair has become a line feed, so there is at
    least one line, no line holds a line feed, and the lines joined by
    line feeds (what the markdown view renders) are that content. *)
Theorem loadFiles_loads (ReadFile : string -> string + string) (paths : list string) :
  match loadFiles ReadFile paths with
  | inr files =>
      Forall2 (fun path f => exists data,
                 ReadFile path = inr data /\
                 FPath f = path /\ PathSlash f = ToSlash path /\
                 FLines f <> [] /\
                 (forall l, l ∈ FLines f -> has_byte LF l = false) /\
                 Join (FLines f) nl = ReplaceAll_CRLF data) paths files
  | inl e =>
      exists pre path post err, paths = pre ++ path :: post /\
        Forall (fun q => exists data, ReadFile q = inr data) pre /\
        ReadFile path = inl err /\ e = "read " +:+ path +:+ ": " +:+ err
  end.
Proof.
  clear. unfold loadFiles. pose proof (loadFiles_loop ReadFile paths []) as H.
  destruct (try_each _ paths []) as [e|files]; [exact H|].
  destruct H as (new & -> & Hnew). simpl.
  eapply Forall2_impl; [exact Hnew|].
  intros p f (data & Hp & ->). exists data. split; [done|]. split; [done|].
  split; [done|]. split; [apply Split_LF_nonempty|].
  split; [apply Split_LF_no_LF|apply Join_Split_LF].
Qed.

(* ===================================================================== *)
(** * view.go: the view is that of the state *)
(* ===================================================================== *)

Lemma updateDiffView_idem m : updateDiffView (updateDiffView m) = updateDiffView m.
Proof. clear. by destruct m. Qed.

Lemma updateFileView_idem m m' :
  updateFileView m = Some m' -> updateFileView m' = Some m'.
Proof.
  destruct m as [files diffFiles tree sp sl key mode rf rc prompt ph ss se draft
                 comments ranges md vf vd err].
  unfold updateFileView, finish_file_view, ranges_of. cbn -[formatSelectedLabel
    buildViewLinesWithRanges isMarkdownPath findFile].
  destruct (findFile files sp) as [sf|] eqn:Hfind.
  - destruct (isMarkdownPath (FPath sf)) eqn:Hmd.
    + destruct (md !! FPath sf) as [r|] eqn:Hr.
      * cbn -[formatSelectedLabel buildViewLinesWithRanges isMarkdownPath findFile].
        destruct r.
        -- cbn -[formatSelectedLabel buildViewLinesWithRanges isMarkdownPath findFile].
           destruct (formatSelectedLabel sp (default [] (ranges !! sp))) as [label|] eqn:Hl;
             [|done].
           intros [= <-].
           cbn -[formatSelectedLabel buildViewLinesWithRanges isMarkdownPath findFile].
           rewrite Hfind, Hmd, Hr.
           cbn -[formatSelectedLabel buildViewLinesWithRanges isMarkdownPath findFile].
           by rewrite Hl.
        -- cbn -[formatSelectedLabel buildViewLinesWithRanges isMarkdownPath findFile].
           destruct (buildViewLinesWithRanges sf comments ss se _ _) as [lines|] eqn:Hb;
             [|done].
           cbn -[formatSelectedLabel buildViewLinesWithRanges isMarkdownPath findFile].
           destruct (formatSelectedLabel sp (default [] (ranges !! sp))) as [label|] eqn:Hl;
             [|done].
           intros [= <-].
           cbn -[formatSelectedLabel buildViewLinesWithRanges isMarkdownPath findFile].
           rewrite Hfind, Hmd, Hr.
           cbn -[formatSelectedLabel buildViewLinesWithRanges isMarkdownPath findFile].
           rewrite Hb.
           cbn -[formatSelectedLabel buildViewLinesWithRanges isMarkdownPath findFile].
           by rewrite Hl.
      * cbn -[formatSelectedLabel buildViewLinesWithRanges isMarkdownPath findFile].
        destruct (formatSelectedLabel sp (default [] (ranges !! sp))) as [label|] eqn:Hl;
          [|done].
        intros [= <-].
        cbn -[formatSelectedLabel buildViewLinesWithRanges isMarkdownPath findFile].
        rewrite Hfind, Hmd, lookup_insert_eq.
        cbn -[formatSelectedLabel buildViewLinesWithRanges isMarkdownPath findFile].
        by rewrite Hl.
    + cbn -[formatSelectedLabel buildViewLinesWithRanges isMarkdownPath findFile].
      destruct (buildViewLinesWithRanges sf comments ss se _ _) as [lines|] eqn:Hb;
        [|done].
      cbn -[formatSelectedLabel buildViewLinesWithRanges isMarkdownPath findFile].
      destruct (formatSelectedLabel sp (default [] (ranges !! sp))) as [label|] eqn:Hl;
        [|done].
      intros [= <-].
      cbn -[formatSelectedLabel buildViewLinesWithRanges isMarkdownPath findFile].
      rewrite Hfind, Hmd.
      cbn -[formatSelectedLabel buildViewLinesWithRanges isMarkdownPath findFile].
      rewrite Hb.
      cbn -[formatSelectedLabel buildViewLinesWithRanges isMarkdownPath findFile].
      by rewrite Hl.
  - destruct (formatSelectedLabel sp (default [] (ranges !! sp))) as [label|] eqn:Hl;
      [|done].
    intros [= <-].
    cbn -[formatSelectedLabel buildViewLinesWithRanges isMarkdownPath findFile].
    rewrite Hfind.
    cbn -[formatSelectedLabel buildViewLinesWithRanges isMarkdownPath findFile].
    by rewrite Hl.
Qed.

Lemma updateView_idem m m' : updateView m = Some m' -> updateView m' = Some m'.
Proof.
  unfold updateView. destruct (String.eqb (Mode m) ModeDiff) eqn:Hm.
  - intros [= <-]. simpl. rewrite Hm. by rewrite updateDiffView_idem.
  - intros Hup. destruct (updateFileView_Some m) as (m2 & Heq & Hs).
    rewrite Heq in Hup. injection Hup as <-.
    assert (Mode m2 = Mode m) as -> by exact (f_equal s_Mode Hs). rewrite Hm.
    by apply updateFileView_idem in Heq.
Qed.

(** The error message plays no part in the view. *)
Lemma updateFileView_error m msg :
  updateFileView (set_Error m msg) = m' ← updateFileView m; Some (set_Error m' msg).
Proof.
  destruct m as [files diffFiles tree sp sl key mode rf rc prompt ph ss se draft
                 comments ranges md vf vd err].
  unfold updateFileView, finish_file_view, ranges_of, set_Error.
  cbn -[formatSelectedLabel buildViewLinesWithRanges isMarkdownPath findFile].
  destruct (findFile files sp) as [sf|].
  - destruct (isMarkdownPath (FPath sf)).
    + destruct (md !! FPath sf) as [[|]|];
        cbn -[formatSelectedLabel buildViewLinesWithRanges isMarkdownPath findFile].
      * by destruct (formatSelectedLabel sp (default [] (ranges !! sp))).
      * destruct (buildViewLinesWithRanges sf comments ss se _ _); [|done].
        cbn -[formatSelectedLabel buildViewLinesWithRanges isMarkdownPath findFile].
        by destruct (formatSelectedLabel sp (default [] (ranges !! sp))).
      * by destruct (formatSelectedLabel sp (default [] (ranges !! sp))).
    + cbn -[formatSelectedLabel buildViewLinesWithRanges isMarkdownPath findFile].
      destruct (buildViewLinesWithRanges sf comments ss se _ _); [|done].
      cbn -[formatSelectedLabel buildViewLinesWithRanges isMarkdownPath findFile].
      by destruct (formatSelectedLabel sp (default [] (ranges !! sp))).
  - by destruct (formatSelectedLabel sp (default [] (ranges !! sp))).
Qed.

Lemma updateView_error m msg :
  updateView m = Some m -> updateView (set_Error m msg) = Some (set_Error m msg).
Proof.
  unfold updateView. simpl. destruct (String.eqb (Mode m) ModeDiff).
  - intros [= Hm]. f_equal. rewrite <- Hm at 2. by destruct m.
  - intros Hm. by rewrite updateFileView_error, Hm.
Qed.

(** Every handler leaves a model whose view is that of its state. *)
Lemma handle_in_sync m e m' :
  handle m e = Some m' -> updateView m = Some m -> updateView m' = Some m'.
Proof.
  intros Hh Hsync. destruct e as [path now| | |line shift|comment| |]; cbn [handle] in Hh.
  - unfold selectFile in Hh. cbv zeta in Hh.
    destruct (String.eqb path ""); [by injection Hh as <-|].
    destruct (String.eqb (Mode m) ModeDiff).
    + destruct (hasDiffFile (DiffFiles m) path); [|by injection Hh as <-].
      destruct (buildTree _ _) as [tree|]; [|done].
      by apply updateView_idem in Hh.
    + destruct (hasFile (Files m) path); [|by injection Hh as <-].
      destruct (buildTree _ _) as [tree|]; [|done].
      by apply updateView_idem in Hh.
  - by apply updateView_idem in Hh.
  - by apply updateView_idem in Hh.
  - unfold selectLine in Hh. cbv zeta in Hh.
    destruct (line <=? 0); [by injection Hh as <-|].
    destruct (String.eqb (Mode m) ModeDiff && _)%bool; [by injection Hh as <-|].
    by apply updateView_idem in Hh.
  - unfold addComment in Hh. cbv zeta in Hh.
    destruct (String.eqb (TrimSpace comment) "").
    { injection Hh as <-. by apply updateView_error. }
    destruct ((SelectionStart m =? 0) || (SelectionEnd m =? 0))%bool.
    { injection Hh as <-. by apply updateView_error. }
    by apply updateView_idem in Hh.
  - by apply updateView_idem in Hh.
  - by injection Hh as <-.
Qed.

Lemma Run_in_sync ReadFile cfg now m0 :
  Run ReadFile cfg now = inr (Some m0) -> updateView m0 = Some m0.
Proof.
  unfold Run. cbv zeta.
  destruct (if negb (String.eqb (Diff cfg) "") then _ else _) as [e|diffInput]; [done|].
  assert (forall files diffFiles mode,
            start files diffFiles mode cfg now = Some m0 -> updateView m0 = Some m0)
    as Hstart.
  { intros files diffFiles mode. unfold start. cbv zeta.
    destruct (if String.eqb mode ModeDiff then _ else _) as [m1|]; [|done].
    cbn [mbind option_bind]. apply updateView_idem. }
  destruct (negb (String.eqb diffInput "")).
  - destruct (parseUnifiedDiff diffInput) as [parsed [err|]]; [done|].
    destruct (len parsed =? 0); [done|]. intros [= H]. by eapply Hstart.
  - destruct (len (Paths cfg) =? 0); [done|].
    destruct (loadFiles ReadFile (Paths cfg)) as [e|loaded]; [done|]. intros [= H].
    by eapply Hstart.
Qed.

(** X19: the view is always that of the state.  [updateView] is
    idempotent, and in every state that a review reaches from the model
    that [Run] starts with, running [updateView] again changes nothing:
    the file view, the diff view and the label that the page shows are
    those of the selected path, the selection, the comments, the ranges
    and the render switches as they are, also after the handlers that
    return early. *)
Theorem view_in_sync (ReadFile : string -> string + string) (cfg : Config) (now : Z)
    (m0 : ReviewModel) (events : list event) (m : ReviewModel) :
  Run ReadFile cfg now = inr (Some m0) ->
  for_each handle events m0 = Some m ->
  updateView m = Some m.
Proof.
  intros Hrun. apply Run_in_sync in Hrun. revert m0 Hrun.
  induction events as [|e events IH]; intros m0 Hsync; cbn [for_each].
  - by intros [= <-].
  - destruct (handle m0 e) as [m1|] eqn:He; [|done]. cbn [mbind option_bind].
    apply IH. by apply (handle_in_sync m0 e).
Qed.

(** ** Toggling twice *)

(** Two models with the same state: [updateView] writes the rest. *)
Definition same_state (a b : ReviewModel) : Prop :=
  session_of a = session_of b /\
  MarkdownRenderByPath a = MarkdownRenderByPath b /\
  if String.eqb (Mode a) ModeDiff then MViewFile a = MViewFile b
  else MViewDiff a = MViewDiff b.

Lemma updateView_same a b : same_state a b -> updateView a = updateView b.
Proof.
  destruct a as [files diffFiles tree sp sl key mode rf rc prompt ph ss se draft
                 comments ranges md vf vd err].
  destruct b as [files' diffFiles' tree' sp' sl' key' mode' rf' rc' prompt' ph' ss' se'
                 draft' comments' ranges' md' vf' vd' err'].
  unfold same_state, session_of. simpl. intros (Hs & Hmd & Hv).
  injection Hs as -> -> -> -> -> -> -> -> -> -> -> -> -> -> -> ->. subst md'.
  unfold updateView. simpl. destruct (String.eqb mode' ModeDiff).
  - subst vf'. done.
  - subst vd'. unfold updateFileView, finish_file_view, ranges_of.
    cbn -[formatSelectedLabel buildViewLinesWithRanges isMarkdownPath findFile].
    destruct (findFile files' sp') as [sf|]; [|done].
    destruct (isMarkdownPath (FPath sf)); [|done].
    by destruct (md !! FPath sf) as [[|]|].
Qed.

(** What [updateView] leaves as it is, and what it does to the map of the
    markdown switches. *)
Lemma updateView_rest m m' :
  updateView m = Some m' ->
  if String.eqb (Mode m) ModeDiff
  then MViewFile m' = MViewFile m /\ MarkdownRenderByPath m' = MarkdownRenderByPath m
  else MViewDiff m' = MViewDiff m /\
       MarkdownRenderByPath m' =
         match findFile (Files m) (SelectedPath m) with
         | Some sf =>
             if isMarkdownPath (FPath sf) then
               match MarkdownRenderByPath m !! FPath sf with
               | Some _ => MarkdownRenderByPath m
               | None => <[FPath sf := true]> (MarkdownRenderByPath m)
               end
             else MarkdownRenderByPath m
         | None => MarkdownRenderByPath m
         end.
Proof.
  destruct m as [files diffFiles tree sp sl key mode rf rc prompt ph ss se draft
                 comments ranges md vf vd err].
  unfold updateView. simpl. destruct (String.eqb mode ModeDiff).
  - by intros [= <-].
  - unfold updateFileView, finish_file_view, ranges_of.
    cbn -[formatSelectedLabel buildViewLinesWithRanges isMarkdownPath findFile].
    destruct (findFile files sp) as [sf|].
    + destruct (isMarkdownPath (FPath sf)).
      * destruct (md !! FPath sf) as [[|]|];
          cbn -[formatSelectedLabel buildViewLinesWithRanges isMarkdownPath findFile].
        -- destruct (formatSelectedLabel sp (default [] (ranges !! sp))); [|done].
           by intros [= <-].
        -- destruct (buildViewLinesWithRanges sf comments ss se _ _); [|done].
           cbn -[formatSelectedLabel buildViewLinesWithRanges isMarkdownPath findFile].
           destruct (formatSelectedLabel sp (default [] (ranges !! sp))); [|done].
           by intros [= <-].
        -- destruct (formatSelectedLabel sp (default [] (ranges !! sp))); [|done].
           by intros [= <-].
      * cbn -[formatSelectedLabel buildViewLinesWithRanges isMarkdownPath findFile].
        destruct (buildViewLinesWithRanges sf comments ss se _ _); [|done].
        cbn -[formatSelectedLabel buildViewLinesWithRanges isMarkdownPath findFile].
        destruct (formatSelectedLabel sp (default [] (ranges !! sp))); [|done].
        by intros [= <-].
    + destruct (formatSelectedLabel sp (default [] (ranges !! sp))); [|done].
      by intros [= <-].
Qed.

Lemma findFile_path files path sf : findFile files path = Some sf -> FPath sf = path.
Proof.
  clear. unfold findFile. intros H. apply find_some in H as [_ H].
  by apply String.eqb_eq in H.
Qed.

Lemma hasFile_findFile files path :
  hasFile files path = true -> exists sf, findFile files path = Some sf.
Proof.
  clear. unfold hasFile, findFile. induction files as [|f files IH]; simpl; [done|].
  destruct (String.eqb (FPath f) path); [by eexists|]. exact IH.
Qed.

(** The comment switch plays no part in the view. *)
Lemma updateView_comments_switch m b :
  updateView (set_RenderComments m b) =
  m' ← updateView m; Some (set_RenderComments m' b).
Proof.
  destruct m as [files diffFiles tree sp sl key mode rf rc prompt ph ss se draft
                 comments ranges md vf vd err].
  unfold updateView. simpl. destruct (String.eqb mode ModeDiff); [done|].
  unfold updateFileView, finish_file_view, ranges_of.
  cbn -[formatSelectedLabel buildViewLinesWithRanges isMarkdownPath findFile].
  destruct (findFile files sp) as [sf|].
  - destruct (isMarkdownPath (FPath sf)).
    + destruct (md !! FPath sf) as [[|]|];
        cbn -[formatSelectedLabel buildViewLinesWithRanges isMarkdownPath findFile].
      * by destruct (formatSelectedLabel sp (default [] (ranges !! sp))).
      * destruct (buildViewLinesWithRanges sf comments ss se _ _); [|done].
        cbn -[formatSelectedLabel buildViewLinesWithRanges isMarkdownPath findFile].
        by destruct (formatSelectedLabel sp (default [] (ranges !! sp))).
      * by destruct (formatSelectedLabel sp (default [] (ranges !! sp))).
    + cbn -[formatSelectedLabel buildViewLinesWithRanges isMarkdownPath findFile].
      destruct (buildViewLinesWithRanges sf comments ss se _ _); [|done].
      cbn -[formatSelectedLabel buildViewLinesWithRanges isMarkdownPath findFile].
      by destruct (formatSelectedLabel sp (default [] (ranges !! sp))).
  - by destruct (formatSelectedLabel sp (default [] (ranges !! sp))).
Qed.

Lemma in_sync_entry m sf :
  updateView m = Some m -> String.eqb (Mode m) ModeDiff = false ->
  findFile (Files m) (SelectedPath m) = Some sf -> isMarkdownPath (FPath sf) = true ->
  is_Some (MarkdownRenderByPath m !! FPath sf).
Proof.
  intros Hsync Hmode Hfind Hmd. apply updateView_rest in Hsync.
  rewrite Hmode, Hfind, Hmd in Hsync. destruct Hsync as [_ Heq].
  destruct (MarkdownRenderByPath m !! FPath sf) as [r|] eqn:Hr; [done|].
  rewrite Heq in Hr. by rewrite lookup_insert_eq in Hr.
Qed.

(** In a state whose view is in place, [updateView] leaves the map of the
    markdown switches as it is. *)
Lemma in_sync_md m x m' :
  updateView m = Some m -> updateView x = Some m' ->
  session_of x = session_of m ->
  (forall sf, findFile (Files m) (SelectedPath m) = Some sf ->
     is_Some (MarkdownRenderByPath m !! FPath sf) ->
     is_Some (MarkdownRenderByPath x !! FPath sf)) ->
  MarkdownRenderByPath m' = MarkdownRenderByPath x.
Proof.
  intros Hsync Hx Hs Hentry. pose proof (updateView_rest _ _ Hx) as Hrest.
  assert (Mode x = Mode m) as Hm by exact (f_equal s_Mode Hs).
  assert (Files x = Files m) as Hf by exact (f_equal s_Files Hs).
  assert (SelectedPath x = SelectedPath m) as Hp by exact (f_equal s_SelectedPath Hs).
  rewrite Hm, Hf, Hp in Hrest.
  destruct (String.eqb (Mode m) ModeDiff) eqn:Hmode; [by destruct Hrest|].
  destruct Hrest as [_ ->].
  destruct (findFile (Files m) (SelectedPath m)) as [sf|] eqn:Hfind; [|done].
  destruct (isMarkdownPath (FPath sf)) eqn:Hmd; [|done].
  destruct (Hentry sf eq_refl (in_sync_entry m sf Hsync Hmode Hfind Hmd)) as [r ->]. done.
Qed.

Lemma toggleCommentRender_twice m :
  updateView m = Some m ->
  exists m1, toggleCommentRender m = Some m1 /\ toggleCommentRender m1 = Some m.
Proof.
  intros Hsync. unfold toggleCommentRender.
  rewrite updateView_comments_switch, Hsync. cbn [mbind option_bind].
  eexists. split; [done|].
  rewrite updateView_comments_switch. simpl.
  rewrite updateView_comments_switch, Hsync. cbn [mbind option_bind].
  f_equal. destruct m. simpl. by rewrite negb_involutive.
Qed.

Lemma toggleFileRender_twice m :
  updateView m = Some m -> session_ok (session_of m) ->
  exists m1, toggleFileRender m = Some m1 /\ toggleFileRender m1 = Some m.
Proof.
  intros Hsync (_ & Hname & _ & _). unfold toggleFileRender. cbv zeta.
  destruct (String.eqb (Mode m) ModeFile && isMarkdownPath (SelectedPath m))%bool eqn:Hcase.
  - apply andb_true_iff in Hcase as [Hfile Hmdp].
    apply String.eqb_eq in Hfile.
    assert (String.eqb (Mode m) ModeDiff = false) as Hmode by (by rewrite Hfile).
    unfold names_file in Hname. simpl in Hname. rewrite Hmode in Hname.
    destruct (hasFile_findFile _ _ Hname) as [sf Hfind].
    pose proof (findFile_path _ _ _ Hfind) as Hpath.
    assert (isMarkdownPath (FPath sf) = true) as Hmd by (by rewrite Hpath).
    destruct (in_sync_entry m sf Hsync Hmode Hfind Hmd) as [r Hr]. rewrite Hpath in Hr.
    set (ma := set_MarkdownRenderByPath m _).
    destruct (updateView_Some ma) as (m1 & Heq1 & Hs1). exists m1. split; [exact Heq1|].
    assert (session_of m1 = session_of m) as Hs1' by (by rewrite Hs1).
    assert (MarkdownRenderByPath m1 = MarkdownRenderByPath ma) as Hmd1.
    { apply (in_sync_md m ma m1 Hsync Heq1); [done|].
      intros sf' Hsf' _. rewrite Hfind in Hsf'. injection Hsf' as <-.
      subst ma. simpl. rewrite Hpath, lookup_insert_eq. done. }
    assert (Mode m1 = Mode m) as Hm1 by exact (f_equal s_Mode Hs1').
    assert (SelectedPath m1 = SelectedPath m) as Hp1 by exact (f_equal s_SelectedPath Hs1').
    rewrite Hm1, Hp1, Hfile, Hmdp. simpl.
    rewrite <- Hsync. apply updateView_same. unfold same_state. simpl.
    split; [exact Hs1'|]. split.
    + rewrite Hmd1. subst ma. simpl. rewrite Hr. simpl.
      rewrite lookup_insert_eq. simpl. rewrite negb_involutive.
      rewrite insert_insert_eq. by apply insert_id.
    + rewrite Hm1, Hmode. pose proof (updateView_rest _ _ Heq1) as Hrest.
      subst ma. simpl in Hrest. rewrite Hmode in Hrest. by destruct Hrest as [-> _].
  - set (ma := set_RenderFile m _).
    destruct (updateView_Some ma) as (m1 & Heq1 & Hs1). exists m1. split; [exact Heq1|].
    assert (Mode m1 = Mode m) as Hm1 by exact (f_equal s_Mode Hs1).
    assert (SelectedPath m1 = SelectedPath m) as Hp1 by exact (f_equal s_SelectedPath Hs1).
    assert (RenderFile m1 = negb (RenderFile m)) as Hr1 by exact (f_equal s_RenderFile Hs1).
    rewrite Hm1, Hp1, Hcase, Hr1, negb_involutive.
    rewrite <- Hsync. apply updateView_same. unfold same_state. simpl.
    split; [|split].
    + unfold session_of in *. simpl in *.
      by injection Hs1 as -> -> -> -> -> -> _ -> -> -> -> -> -> -> -> ->.
    + pose proof (updateView_rest _ _ Heq1) as Hrest. subst ma. simpl in Hrest.
      destruct (String.eqb (Mode m) ModeDiff) eqn:Hmode; [by destruct Hrest|].
      destruct Hrest as [_ ->].
      destruct (findFile (Files m) (SelectedPath m)) as [sf|] eqn:Hfind; [|done].
      destruct (isMarkdownPath (FPath sf)) eqn:Hmd; [|done].
      by destruct (in_sync_entry m sf Hsync Hmode Hfind Hmd) as [r ->].
    + rewrite Hm1. pose proof (updateView_rest _ _ Heq1) as Hrest. subst ma.
      simpl in Hrest.
      destruct (String.eqb (Mode m) ModeDiff); by destruct Hrest as [-> _].
Qed.

(** X20: toggling twice gives the page back.  In every state that a
    review reaches from the model that [Run] starts with, two
    [toggle-file-render] events in a row leave the model exactly as it
    was (the highlighting switch, or for a markdown file in file mode its
    entry in the map of markdown switches, and with them the view), and so
    do two [toggle-comment-render] events. *)
Theorem toggle_twice (ReadFile : string -> string + string) (cfg : Config) (now : Z)
    (m0 : ReviewModel) (events : list event) (m : ReviewModel) :
  Run ReadFile cfg now = inr (Some m0) ->
  for_each handle events m0 = Some m ->
  for_each handle [EvToggleFileRender; EvToggleFileRender] m = Some m /\
  for_each handle [EvToggleCommentRender; EvToggleCommentRender] m = Some m.
Proof.
  intros Hrun Hev.
  assert (updateView m = Some m) as Hsync.
  { apply Run_in_sync in Hrun. revert m0 Hrun Hev.
    induction events as [|e events IH]; intros m0 Hs; cbn [for_each].
    - by intros [= <-].
    - destruct (handle m0 e) as [m1|] eqn:He; [|done]. cbn [mbind option_bind].
      apply IH. by apply (handle_in_sync m0 e). }
  assert (session_ok (session_of m)) as Hok.
  { apply Run_ok in Hrun as [Hok0 _]. by destruct (events_ok events m0 m Hev Hok0). }
  split.
  - destruct (toggleFileRender_twice m Hsync Hok) as (m1 & H1 & H2).
    cbn [for_each handle]. rewrite H1. cbn [mbind option_bind]. rewrite H2. done.
  - destruct (toggleCommentRender_twice m Hsync) as (m1 & H1 & H2).
    cbn [for_each handle]. rewrite H1. cbn [mbind option_bind]. rewrite H2. done.
Qed.

(** ** The order of the entries does not depend on the order of a map *)

Lemma ascii_compare_lt_trans a b c :
  Ascii.compare a b = Lt -> Ascii.compare b c = Lt -> Ascii.compare a c = Lt.
Proof.
  clear. unfold Ascii.compare. rewrite !N.compare_lt_iff. lia.
Qed.

Lemma ascii_compare_refl a : Ascii.compare a a = Eq.
Proof. clear. unfold Ascii.compare. apply N.compare_refl. Qed.

Lemma string_compare_refl s : String.compare s s = Eq.
Proof.
  clear. induction s as [|a s IH]; simpl; [done|]. by rewrite ascii_compare_refl.
Qed.

Lemma string_compare_lt_trans s1 : forall s2 s3,
  String.compare s1 s2 = Lt -> String.compare s2 s3 = Lt -> String.compare s1 s3 = Lt.
Proof.
  clear. induction s1 as [|a s1 IH]; intros [|b s2] [|c s3]; simpl; try done.
  destruct (Ascii.compare a b) eqn:Hab; [|
    |done].
  - apply Ascii.compare_eq_iff in Hab as ->.
    destruct (Ascii.compare b c) eqn:Hbc; [|done|done]. apply IH.
  - destruct (Ascii.compare b c) eqn:Hbc; [| |done].
    + apply Ascii.compare_eq_iff in Hbc as <-. by rewrite Hab.
    + by rewrite (ascii_compare_lt_trans a b c Hab Hbc).
Qed.

(** [a] is not after [b] in the order of [walk]. *)
Definition tree_le (a b : treeNode) : Prop := tree_less b a = false.

Lemma tree_le_total a b : tree_le a b \/ tree_le b a.
Proof.
  clear. unfold tree_le, tree_less, String.ltb.
  destruct (NIsDir a), (NIsDir b); simpl; try (by left); try (by right).
  - rewrite (String.compare_antisym (NName b) (NName a)).
    destruct (String.compare (NName a) (NName b)); simpl; first [by left|by right].
  - rewrite (String.compare_antisym (NName b) (NName a)).
    destruct (String.compare (NName a) (NName b)); simpl; first [by left|by right].
Qed.

Lemma string_ltb_false_trans x y z :
  String.ltb y x = false -> String.ltb z y = false -> String.ltb z x = false.
Proof.
  clear. unfold String.ltb.
  destruct (String.compare z x) eqn:Hzx; try done.
  destruct (String.compare z y) eqn:Hzy; [| done|].
  - apply String.compare_eq_iff in Hzy as ->. by rewrite Hzx.
  - assert (String.compare y z = Lt) as Hyz
      by (by rewrite String.compare_antisym, Hzy).
    by rewrite (string_compare_lt_trans _ _ _ Hyz Hzx).
Qed.

Lemma tree_le_trans a b c : tree_le a b -> tree_le b c -> tree_le a c.
Proof.
  clear. unfold tree_le, tree_less.
  destruct (NIsDir a), (NIsDir b), (NIsDir c); simpl; try done;
    apply string_ltb_false_trans.
Qed.

(** Two nodes of which neither is before the other have the same name. *)
Lemma tree_le_antisym a b : tree_le a b -> tree_le b a -> NName a = NName b.
Proof.
  clear. unfold tree_le, tree_less, String.ltb.
  destruct (NIsDir a), (NIsDir b); simpl; try done.
  - rewrite (String.compare_antisym (NName b) (NName a)).
    destruct (String.compare (NName a) (NName b)) eqn:Hc; simpl; try done.
    by apply String.compare_eq_iff in Hc.
  - rewrite (String.compare_antisym (NName b) (NName a)).
    destruct (String.compare (NName a) (NName b)) eqn:Hc; simpl; try done.
    by apply String.compare_eq_iff in Hc.
Qed.

Definition entry_less (a b : treeNode * list TreeItem) : bool := tree_less (fst a) (fst b).
Definition entry_le (a b : treeNode * list TreeItem) : Prop := tree_le (fst a) (fst b).

Lemma insert_by_sorted x l :
  StronglySorted entry_le l -> StronglySorted entry_le (insert_by entry_less x l).
Proof.
  clear. induction l as [|y l IH]; simpl; intros Hs.
  - repeat constructor.
  - apply StronglySorted_inv in Hs as [Hs Hall].
    destruct (entry_less y x) eqn:Hlt.
    + constructor; [by apply IH|].
      rewrite (insert_by_perm entry_less x l). constructor; [|done].
      destruct (tree_le_total (fst y) (fst x)) as [H|H]; [done|].
      unfold tree_le in H. unfold entry_less in Hlt. congruence.
    + constructor; [by constructor|]. constructor; [done|].
      eapply Forall_impl; [exact Hall|]. intros z Hz.
      unfold entry_le in *. by eapply tree_le_trans.
Qed.

Lemma sort_by_sorted l : StronglySorted entry_le (sort_by entry_less l).
Proof.
  clear. induction l as [|x l IH]; simpl; [constructor|by apply insert_by_sorted].
Qed.

(** The keys of the map of a node are the names of its children. *)
Definition children_ok (n : treeNode) : Prop :=
  forall ch, Children n = Some ch ->
    NoDup (List.map fst ch) /\ Forall (fun kc : string * treeNode => NName kc.2 = kc.1) ch.

Definition keys_ok (n : treeNode) : Prop :=
  children_ok n /\ forall d c, descendant n d c -> children_ok c.

Lemma set_child_keys k v m :
  NoDup (List.map fst m) -> NoDup (List.map fst (set_child k v m)).
Proof.
  clear. induction m as [|[k0 v0] m IH]; simpl; intros Hnd.
  - constructor; [by intros ?%elem_of_nil|constructor].
  - apply NoDup_cons in Hnd as [Hk0 Hnd].
    destruct (String.eqb_spec k0 k) as [->|Hne]; simpl; [by constructor|].
    constructor; [|by apply IH].
    intros Hin. apply list_elem_of_In, in_map_iff in Hin as ([k' c'] & Hk' & Hin).
    simpl in Hk'. subst k'. apply In_set_child in Hin as [[-> _]|Hin]; [done|].
    apply Hk0. apply list_elem_of_In, in_map_iff. by exists (k0, c').
Qed.

Lemma set_child_names k v m :
  NName v = k -> Forall (fun kc : string * treeNode => NName kc.2 = kc.1) m ->
  Forall (fun kc : string * treeNode => NName kc.2 = kc.1) (set_child k v m).
Proof.
  clear. intros Hv Hall. apply Forall_forall. intros [k' c'] Hin.
  apply list_elem_of_In, In_set_child in Hin as [[-> ->]|Hin]; [done|].
  rewrite Forall_forall in Hall. by apply (Hall (k', c')), list_elem_of_In.
Qed.

Lemma place_keys_ok ds : forall fileName node cur cur',
  Children node = None -> NName node = fileName ->
  keys_ok cur -> place ds fileName node cur = Some cur' -> keys_ok cur'.
Proof.
  clear. induction ds as [|name ds IH]; intros fileName node cur cur' Hnil Hname [Hc Hd];
    cbn [place].
  - destruct (Children cur) as [ch|] eqn:Hch; [|done]. intros [= <-].
    destruct (Hc ch Hch) as [Hnd Hnames]. split.
    + intros ch' [= <-]. split; [by apply set_child_keys|by apply set_child_names].
    + intros d c Hdc. inversion Hdc as [n ch' k c0 Hch' Hin|
                                        n ch' k c0 d' c1 Hch' Hin Hrest]; subst.
      * simpl in Hch'. injection Hch' as <-.
        apply In_set_child in Hin as [[-> ->]|Hin]; [intros ch'; congruence|].
        apply (Hd 0). by eapply desc_child.
      * simpl in Hch'. injection Hch' as <-.
        apply In_set_child in Hin as [[-> ->]|Hin]; [inversion Hrest; congruence|].
        apply (Hd (d' + 1)). by eapply desc_step.
  - destruct (String.eqb_spec name "") as [->|Hne]; [by apply IH|].
    destruct (Children cur) as [ch|] eqn:Hch; [|done]. cbv zeta.
    set (next := match child name ch with Some next => next | None => _ end).
    destruct (place ds fileName node next) as [next'|] eqn:Hp; [|done].
    cbn [mbind option_bind]. intros [= <-].
    destruct (Hc ch Hch) as [Hnd Hnames].
    assert (NName next = name /\ keys_ok next) as [Hnn Hnext].
    { subst next. destruct (child name ch) as [nx|] eqn:Hnx.
      - apply child_In in Hnx. split.
        + rewrite Forall_forall in Hnames. by apply (Hnames (name, nx)), list_elem_of_In.
        + split; [apply (Hd 0); by eapply desc_child|].
          intros d c Hdc. apply (Hd (d + 1)). by eapply desc_step.
      - split; [done|]. split.
        + intros ch' [= <-]. split; constructor.
        + intros d c Hdc. inversion Hdc; subst; simpl in *; simplify_eq; done. }
    clearbody next.
    pose proof (IH fileName node next next' Hnil Hname Hnext Hp) as [Hc' Hd'].
    destruct (place_fields _ _ _ _ _ Hp) as (_ & _ & Hn').
    split.
    + intros ch' [= <-]. split; [by apply set_child_keys|].
      apply set_child_names; [congruence|done].
    + intros d c Hdc. inversion Hdc as [n ch' k c0 Hch' Hin|
                                        n ch' k c0 d' c1 Hch' Hin Hrest]; subst.
      * simpl in Hch'. injection Hch' as <-.
        apply In_set_child in Hin as [[-> ->]|Hin]; [done|].
        apply (Hd 0). by eapply desc_child.
      * simpl in Hch'. injection Hch' as <-.
        apply In_set_child in Hin as [[-> ->]|Hin]; [by apply (Hd' d')|].
        apply (Hd (d' + 1)). by eapply desc_step.
Qed.

Lemma add_files_keys_ok files : forall root root',
  keys_ok root -> for_each add_file files root = Some root' -> keys_ok root'.
Proof.
  clear. induction files as [|f files IH]; intros root root' Hok; cbn [for_each].
  - by intros [= <-].
  - destruct (add_file root f) as [root1|] eqn:Hadd; [|done]. cbn [mbind option_bind].
    apply IH. unfold add_file in Hadd. cbv zeta in Hadd.
    by eapply place_keys_ok in Hadd.
Qed.

(** X21: the order of the entries of the tree is fixed by the files.  At
    every node of the tree that [buildTree] builds the children have
    distinct names, so [less] orders them strictly: in whatever order the
    map of children is ranged over, and whatever arrangement sorted by
    [less] the sort leaves, the slice that [walk] then follows is the
    same. *)
Theorem tree_order_determined (files : list File) (selectedPath : string)
    (root n : treeNode) (depth : Z) (ch ch' : list (string * treeNode))
    (s : list (treeNode * list TreeItem)) :
  for_each add_file files tree_root = Some root ->
  n = root \/ (exists d, descendant root d n) ->
  Children n = Some ch ->
  ch' ≡ₚ ch ->
  s ≡ₚ walked selectedPath depth ch' ->
  StronglySorted entry_le s ->
  s = sort_by entry_less (walked selectedPath depth ch).
Proof.
  clear. intros Hroot Hn Hch Hperm Hs Hsorted.
  assert (keys_ok root) as [Hc Hd].
  { apply (add_files_keys_ok files tree_root); [|done]. split.
    - intros ch0 [= <-]. split; constructor.
    - intros d c Hdc. inversion Hdc; subst; simpl in *; simplify_eq; done. }
  assert (children_ok n) as Hok.
  { destruct Hn as [->|[d Hdn]]; [done|by apply (Hd d)]. }
  destruct (Hok ch Hch) as [Hnd Hnames].
  assert (s ≡ₚ sort_by entry_less (walked selectedPath depth ch)) as Hp.
  { rewrite Hs, sort_by_perm. unfold walked. by apply Permutation_map. }
  apply (StronglySorted_unique_strong entry_le); [|done|apply sort_by_sorted|done].
  intros [c1 i1] [c2 i2] H1 H2 H12 H21.
  rewrite sort_by_perm in H2. rewrite Hs in H1. unfold walked in H1, H2.
  apply list_elem_of_In, in_map_iff in H1 as ([k1 c1'] & [= <- <-] & H1).
  apply list_elem_of_In, in_map_iff in H2 as ([k2 c2'] & [= <- <-] & H2).
  apply (Permutation_in _ Hperm) in H1.
  pose proof (tree_le_antisym _ _ H12 H21) as Hname. simpl in Hname.
  rewrite Forall_forall in Hnames.
  pose proof (Hnames (k1, c1') (proj2 (list_elem_of_In _ _) H1)) as Hk1.
  pose proof (Hnames (k2, c2') (proj2 (list_elem_of_In _ _) H2)) as Hk2.
  simpl in Hk1, Hk2. assert (k1 = k2) as <- by congruence.
  assert (c1' = c2') as <-; [|done].
  clear -Hnd H1 H2. induction ch as [|[k c] ch IH]; [done|].
  simpl in Hnd. apply NoDup_cons in Hnd as [Hk Hnd].
  destruct H1 as [H1|H1], H2 as [H2|H2].
  - congruence.
  - injection H1 as -> ->. exfalso. apply Hk.
    apply list_elem_of_In, in_map_iff. by exists (k1, c2').
  - injection H2 as -> ->. exfalso. apply Hk.
    apply list_elem_of_In, in_map_iff. by exists (k1, c1').
  - by apply IH.
Qed.

(* ===================================================================== *)
(** * internal/highlight: no raw white space in a highlighted line *)
(* ===================================================================== *)

(** ** Bytes *)

Lemma lor_ge_l a b : 0 <= a -> 0 <= b -> a <= Z.lor a b.
Proof.
  clear. intros Ha Hb. pose proof (Z.sub_lor_l_same_r b a) as H.
  rewrite Z.lor_comm in H.
  assert (0 <= Z.land b (Z.lnot a)) by (apply Z.land_nonneg; lia). lia.
Qed.

Lemma lor_le_add a b : 0 <= a -> 0 <= b -> Z.lor a b <= a + b.
Proof.
  clear. intros Ha Hb. pose proof (Z.add_lor_land a b).
  assert (0 <= Z.land a b) by (apply Z.land_nonneg; lia). lia.
Qed.

Lemma land_maskx a : 0 <= Z.land a utf8.maskx < 64.
Proof.
  clear. change utf8.maskx with (Z.ones 6). rewrite Z.land_ones by lia.
  apply Z.mod_pos_bound. lia.
Qed.

Lemma byte_of_range c : 0 <= utf8.byte_of c < 256.
Proof.
  clear. unfold utf8.byte_of. pose proof (nat_ascii_bounded c). lia.
Qed.

Lemma byte_of_ascii_of_byte b : 0 <= b < 256 -> utf8.byte_of (utf8.ascii_of_byte b) = b.
Proof.
  clear. intros Hb. unfold utf8.byte_of, utf8.ascii_of_byte.
  rewrite nat_ascii_embedding by lia. lia.
Qed.

(** Every byte of the string satisfies [P]. *)
Fixpoint all_bytes (P : Z -> bool) (s : string) : bool :=
  match s with
  | EmptyString => true
  | String c r => (P (utf8.byte_of c) && all_bytes P r)%bool
  end.

Lemma all_bytes_app P a b : all_bytes P (a +:+ b) = (all_bytes P a && all_bytes P b)%bool.
Proof.
  clear. induction a as [|c a IH].
  - by rewrite append_nil_l.
  - rewrite append_cons. simpl. by rewrite IH, andb_assoc.
Qed.

Lemma all_bytes_drop P n s : all_bytes P s = true -> all_bytes P (drop_bytes n s) = true.
Proof.
  clear. revert s. induction n as [|n IH]; intros [|c s]; simpl; try done.
  intros [_ H]%andb_true_iff. by apply IH.
Qed.

Lemma all_bytes_impl (P Q : Z -> bool) s :
  (forall b, 0 <= b < 256 -> P b = true -> Q b = true) ->
  all_bytes P s = true -> all_bytes Q s = true.
Proof.
  clear. intros HPQ. induction s as [|c s IH]; simpl; [done|].
  intros [H1 H2]%andb_true_iff. rewrite (HPQ _ (byte_of_range c) H1). by apply IH.
Qed.

Lemma all_bytes_bytes P l :
  Forall (fun b => 0 <= b < 256 /\ P b = true) l -> all_bytes P (utf8.bytes l) = true.
Proof.
  clear. unfold utf8.bytes. induction 1 as [|b l [Hb HP] _ IH]; simpl; [done|].
  by rewrite byte_of_ascii_of_byte, HP, IH.
Qed.

(** ** What [WriteRune] writes *)

Definition high (b : Z) : bool := 128 <=? b.

Lemma lead_byte t x : 128 <= t -> 0 <= x -> t + x < 256 ->
  0 <= Z.lor t x < 256 /\ high (Z.lor t x) = true.
Proof.
  clear. intros Ht Hx Hsum. pose proof (lor_ge_l t x ltac:(lia) Hx).
  pose proof (lor_le_add t x ltac:(lia) Hx). unfold high.
  split; [lia|]. apply Z.leb_le. lia.
Qed.

Lemma cont_byte a : 0 <= Z.lor utf8.tx (Z.land a utf8.maskx) < 256 /\
                    high (Z.lor utf8.tx (Z.land a utf8.maskx)) = true.
Proof.
  clear. pose proof (land_maskx a). apply lead_byte; unfold utf8.tx; lia.
Qed.

Lemma shiftr_small r n k : 0 <= r < 2 ^ (n + k) -> 0 <= n -> 0 <= k ->
  0 <= utf8.byte (Z.shiftr r n) < 2 ^ k.
Proof.
  clear. intros Hr Hn Hk. unfold utf8.byte. rewrite Z.shiftr_div_pow2 by lia.
  assert (0 <= r / 2 ^ n < 2 ^ k) as Hq.
  { split; [apply Z.div_pos; lia|].
    apply Z.div_lt_upper_bound; [lia|]. rewrite <- Z.pow_add_r by lia. lia. }
  destruct (Z.le_gt_cases 256 (2 ^ k)).
  - pose proof (Z.mod_pos_bound (r / 2 ^ n) 256 ltac:(lia)).
    pose proof (Z.mod_le (r / 2 ^ n) 256 ltac:(lia) ltac:(lia)). lia.
  - rewrite Z.mod_small by lia. lia.
Qed.

Lemma encode3_high r : 0 <= r < 2 ^ 16 -> all_bytes high (utf8.encode3 r) = true.
Proof.
  clear. intros Hr. unfold utf8.encode3. apply all_bytes_bytes.
  pose proof (shiftr_small r 12 4 ltac:(simpl; lia) ltac:(lia) ltac:(lia)) as H1.
  change (2 ^ 4) with 16 in H1.
  repeat constructor; try apply cont_byte; apply lead_byte; unfold utf8.t3; lia.
Qed.

(** A rune below 128 is written as its byte, every other rune as bytes
    from 128 on. *)
Lemma AppendRune_bytes r : 0 <= r < 2 ^ 32 ->
  (r < 128 /\ utf8.AppendRune r = String (utf8.ascii_of_byte r) EmptyString) \/
  (128 <= r /\ all_bytes high (utf8.AppendRune r) = true).
Proof.
  clear. intros Hr. unfold utf8.AppendRune. cbv zeta.
  rewrite (Z.mod_small r (2 ^ 32)) by lia.
  unfold utf8.rune1Max, utf8.rune2Max, utf8.rune3Max, utf8.MaxRune,
    utf8.surrogateMin, utf8.surrogateMax.
  destruct (Z.leb_spec r 127) as [H1|H1].
  { left. split; [lia|]. unfold utf8.bytes, utf8.byte. simpl.
    by rewrite Z.mod_small by lia. }
  right. split; [lia|].
  destruct (Z.leb_spec r 2047) as [H2|H2].
  { apply all_bytes_bytes.
    pose proof (shiftr_small r 6 5 ltac:(simpl; lia) ltac:(lia) ltac:(lia)) as Hs.
    change (2 ^ 5) with 32 in Hs.
    repeat constructor; try apply cont_byte; apply lead_byte; unfold utf8.t2; lia. }
  destruct ((1114111 <? r) || ((55296 <=? r) && (r <=? 57343)))%bool eqn:Hbad.
  { apply encode3_high. by vm_compute. }
  apply orb_false_iff in Hbad as [Hmax _]. apply Z.ltb_ge in Hmax.
  destruct (Z.leb_spec r 65535) as [H3|H3].
  { apply encode3_high. simpl. lia. }
  apply all_bytes_bytes.
  pose proof (shiftr_small r 18 3 ltac:(simpl; lia) ltac:(lia) ltac:(lia)) as Hs.
  change (2 ^ 3) with 8 in Hs.
  repeat constructor; try apply cont_byte; apply lead_byte; unfold utf8.t4; lia.
Qed.

(** ** What the decoder gives *)

Definition dec2 (s0 s1 : Z) : Z :=
  Z.lor (Z.shiftl (Z.land s0 utf8.mask2) 6) (Z.land s1 utf8.maskx).
Definition dec3 (s0 s1 s2 : Z) : Z :=
  Z.lor (Z.lor (Z.shiftl (Z.land s0 utf8.mask3) 12) (Z.shiftl (Z.land s1 utf8.maskx) 6))
        (Z.land s2 utf8.maskx).
Definition dec4 (s0 s1 s2 s3 : Z) : Z :=
  Z.lor (Z.lor (Z.lor (Z.shiftl (Z.land s0 utf8.mask4) 18)
                      (Z.shiftl (Z.land s1 utf8.maskx) 12))
               (Z.shiftl (Z.land s2 utf8.maskx) 6))
        (Z.land s3 utf8.maskx).

(** The outcomes of [DecodeRuneInString] on a string that is not empty. *)
Inductive decoded (c0 : ascii) (t : string) : Z * nat -> Prop :=
  | dec_ascii : utf8.byte_of c0 < 128 -> decoded c0 t (utf8.byte_of c0, 1%nat)
  | dec_error : decoded c0 t (utf8.RuneError, 1%nat)
  | dec_two c1 t1 :
      t = String c1 t1 -> 194 <= utf8.byte_of c0 <= 223 ->
      decoded c0 t (dec2 (utf8.byte_of c0) (utf8.byte_of c1), 2%nat)
  | dec_three c1 c2 t2 :
      t = String c1 (String c2 t2) -> 224 <= utf8.byte_of c0 <= 239 ->
      utf8.byte_of c1 <= 191 ->
      (utf8.byte_of c0 = 224 -> 160 <= utf8.byte_of c1) ->
      decoded c0 t (dec3 (utf8.byte_of c0) (utf8.byte_of c1) (utf8.byte_of c2), 3%nat)
  | dec_four c1 c2 c3 t3 :
      t = String c1 (String c2 (String c3 t3)) -> 240 <= utf8.byte_of c0 <= 244 ->
      utf8.byte_of c1 <= 191 ->
      (utf8.byte_of c0 = 240 -> 144 <= utf8.byte_of c1) ->
      decoded c0 t (dec4 (utf8.byte_of c0) (utf8.byte_of c1) (utf8.byte_of c2)
                      (utf8.byte_of c3), 4%nat).

Lemma decode_multi c0 t x sz lo hi :
  sz = Z.land x 7 -> (lo, hi) = utf8.acceptRanges (Z.shiftr x 4) ->
  hi <= 191 -> 2 <= sz <= 4 ->
  (sz = 2 -> 194 <= utf8.byte_of c0 <= 223) ->
  (sz = 3 -> 224 <= utf8.byte_of c0 <= 239 /\ (utf8.byte_of c0 = 224 -> 160 <= lo)) ->
  (sz = 4 -> 240 <= utf8.byte_of c0 <= 244 /\ (utf8.byte_of c0 = 240 -> 144 <= lo)) ->
  decoded c0 t
    (if Z.of_nat (String.length (String c0 t)) <? sz then (utf8.RuneError, 1%nat)
     else
       match t with
       | EmptyString => (utf8.RuneError, 1%nat)
       | String c1 t1 =>
           let s1 := utf8.byte_of c1 in
           if ((s1 <? lo) || (hi <? s1))%bool then (utf8.RuneError, 1%nat)
           else if sz <=? 2 then (dec2 (utf8.byte_of c0) s1, 2%nat)
           else
             match t1 with
             | EmptyString => (utf8.RuneError, 1%nat)
             | String c2 t2 =>
                 let s2 := utf8.byte_of c2 in
                 if ((s2 <? utf8.locb) || (utf8.hicb <? s2))%bool
                 then (utf8.RuneError, 1%nat)
                 else if sz <=? 3 then (dec3 (utf8.byte_of c0) s1 s2, 3%nat)
                 else
                   match t2 with
                   | EmptyString => (utf8.RuneError, 1%nat)
                   | String c3 _ =>
                       let s3 := utf8.byte_of c3 in
                       if ((s3 <? utf8.locb) || (utf8.hicb <? s3))%bool
                       then (utf8.RuneError, 1%nat)
                       else (dec4 (utf8.byte_of c0) s1 s2 s3, 4%nat)
                   end
             end
       end).
Proof.
  clear. intros _ _ Hhi Hsz H2 H3 H4.
  destruct (Z.of_nat (String.length (String c0 t)) <? sz); [constructor|].
  destruct t as [|c1 t1]; [constructor|]. cbv zeta.
  destruct (Z.ltb_spec (utf8.byte_of c1) lo) as [|Hlo]; [constructor|].
  destruct (Z.ltb_spec hi (utf8.byte_of c1)) as [|Hle]; [constructor|]. cbn [orb].
  destruct (Z.leb_spec sz 2).
  { eapply dec_two; [done|]. apply H2. lia. }
  destruct t1 as [|c2 t2]; [constructor|].
  destruct ((utf8.byte_of c2 <? utf8.locb) || (utf8.hicb <? utf8.byte_of c2))%bool;
    [constructor|].
  destruct (Z.leb_spec sz 3).
  { destruct (H3 ltac:(lia)) as [Hr Hl]. eapply dec_three; [done|done|lia|].
    intros He. specialize (Hl He). lia. }
  destruct t2 as [|c3 t3]; [constructor|].
  destruct ((utf8.byte_of c3 <? utf8.locb) || (utf8.hicb <? utf8.byte_of c3))%bool;
    [constructor|].
  destruct (H4 ltac:(lia)) as [Hr Hl]. eapply dec_four; [done|done|lia|].
  intros He. specialize (Hl He). lia.
Qed.

Lemma DecodeRune_decoded c0 t : decoded c0 t (utf8.DecodeRuneInString (String c0 t)).
Proof.
  clear. pose proof (byte_of_range c0) as Hb.
  unfold utf8.DecodeRuneInString. cbv zeta. unfold utf8.first.
  destruct (Z.ltb_spec (utf8.byte_of c0) 128).
  { change (utf8.as_ <=? 240) with true. cbv iota.
    change (- (240 mod 2)) with 0. change (Z.lnot 0) with (-1).
    rewrite Z.land_m1_r, Z.land_0_r, Z.lor_0_r. by constructor. }
  destruct (Z.ltb_spec (utf8.byte_of c0) 194).
  { change (utf8.as_ <=? 241) with true. cbv iota.
    change (- (241 mod 2)) with (-1). change (Z.lnot (-1)) with 0.
    rewrite Z.land_m1_r, Z.land_0_r, Z.lor_0_l. constructor. }
  destruct (Z.ltb_spec (utf8.byte_of c0) 224).
  { change (utf8.as_ <=? 2) with false. cbv iota.
    eapply (decode_multi c0 t 2 2); try done; lia. }
  destruct (Z.eqb_spec (utf8.byte_of c0) 224).
  { change (utf8.as_ <=? 19) with false. cbv iota.
    eapply (decode_multi c0 t 19 3); try done; try lia;
      try (intros _; split; [lia|]; intros; first [done|lia]). }
  destruct (Z.ltb_spec (utf8.byte_of c0) 237).
  { change (utf8.as_ <=? 3) with false. cbv iota.
    eapply (decode_multi c0 t 3 3); try done; try lia;
      try (intros _; split; [lia|]; intros; first [done|lia]). }
  destruct (Z.eqb_spec (utf8.byte_of c0) 237).
  { change (utf8.as_ <=? 35) with false. cbv iota.
    eapply (decode_multi c0 t 35 3); try done; try lia;
      try (intros _; split; [lia|]; intros; first [done|lia]). }
  destruct (Z.ltb_spec (utf8.byte_of c0) 240).
  { change (utf8.as_ <=? 3) with false. cbv iota.
    eapply (decode_multi c0 t 3 3); try done; try lia;
      try (intros _; split; [lia|]; intros; first [done|lia]). }
  destruct (Z.eqb_spec (utf8.byte_of c0) 240).
  { change (utf8.as_ <=? 52) with false. cbv iota.
    eapply (decode_multi c0 t 52 4); try done; try lia;
      try (intros _; split; [lia|]; intros; first [done|lia]). }
  destruct (Z.ltb_spec (utf8.byte_of c0) 244).
  { change (utf8.as_ <=? 4) with false. cbv iota.
    eapply (decode_multi c0 t 4 4); try done; try lia;
      try (intros _; split; [lia|]; intros; first [done|lia]). }
  destruct (Z.eqb_spec (utf8.byte_of c0) 244).
  { change (utf8.as_ <=? 68) with false. cbv iota.
    eapply (decode_multi c0 t 68 4); try done; try lia;
      try (intros _; split; [lia|]; intros; first [done|lia]). }
  change (utf8.as_ <=? 241) with true. cbv iota.
  change (- (241 mod 2)) with (-1). change (Z.lnot (-1)) with 0.
  rewrite Z.land_m1_r, Z.land_0_r, Z.lor_0_l. constructor.
Qed.



Lemma field_bounds a k n :
  0 <= k -> 0 <= n ->
  Z.shiftl (Z.land a (Z.ones k)) n = (a mod 2 ^ k) * 2 ^ n /\
  0 <= (a mod 2 ^ k) * 2 ^ n <= (2 ^ k - 1) * 2 ^ n.
Proof.
  clear. intros Hk Hn. rewrite Z.land_ones, Z.shiftl_mul_pow2 by lia.
  split; [done|]. pose proof (Z.mod_pos_bound a (2 ^ k) ltac:(lia)). nia.
Qed.

Lemma decoded_props c0 t rw :
  decoded c0 t rw ->
  (1 <= rw.2 <= String.length (String c0 t))%nat /\
  0 <= rw.1 < 2 ^ 32 /\ (rw.1 < 128 -> rw.1 = utf8.byte_of c0).
Proof.
  clear. pose proof (byte_of_range c0) as Hb.
  destruct 1 as [Hlt| |c1 t1 -> Hr|c1 c2 t2 -> Hr Hhi Hlo|c1 c2 c3 t3 -> Hr Hhi Hlo]; simpl.
  - split; [lia|]. split; [lia|done].
  - split; [lia|]. unfold utf8.RuneError. split; [lia|lia].
  - split; [lia|]. unfold dec2.
    change utf8.mask2 with (Z.ones 5). change utf8.maskx with (Z.ones 6).
    destruct (field_bounds (utf8.byte_of c0) 5 6) as [-> H0]; [lia|lia|].
    rewrite (Z.land_ones (utf8.byte_of c1) 6) by lia.
    pose proof (Z.mod_pos_bound (utf8.byte_of c1) (2 ^ 6) ltac:(lia)) as H1.
    set (A := utf8.byte_of c0 mod 2 ^ 5 * 2 ^ 6) in *.
    set (B := utf8.byte_of c1 mod 2 ^ 6) in *.
    pose proof (lor_ge_l A B ltac:(lia) ltac:(lia)).
    pose proof (lor_le_add A B ltac:(lia) ltac:(lia)).
    assert (128 <= A) by (subst A; Z.div_mod_to_equations; lia).
    change (2 ^ 5) with 32 in *. change (2 ^ 6) with 64 in *.
    split; [lia|lia].
  - split; [lia|]. unfold dec3.
    change utf8.mask3 with (Z.ones 4). change utf8.maskx with (Z.ones 6).
    destruct (field_bounds (utf8.byte_of c0) 4 12) as [-> H0]; [lia|lia|].
    destruct (field_bounds (utf8.byte_of c1) 6 6) as [-> H1]; [lia|lia|].
    rewrite (Z.land_ones (utf8.byte_of c2) 6) by lia.
    pose proof (Z.mod_pos_bound (utf8.byte_of c2) (2 ^ 6) ltac:(lia)) as H2.
    set (A := utf8.byte_of c0 mod 2 ^ 4 * 2 ^ 12) in *.
    set (B := utf8.byte_of c1 mod 2 ^ 6 * 2 ^ 6) in *.
    set (C := utf8.byte_of c2 mod 2 ^ 6) in *.
    pose proof (lor_ge_l A B ltac:(lia) ltac:(lia)).
    pose proof (lor_le_add A B ltac:(lia) ltac:(lia)).
    pose proof (lor_ge_l B A ltac:(lia) ltac:(lia)) as HB. rewrite Z.lor_comm in HB.
    pose proof (lor_ge_l (Z.lor A B) C ltac:(lia) ltac:(lia)).
    pose proof (lor_le_add (Z.lor A B) C ltac:(lia) ltac:(lia)).
    assert (128 <= A \/ 128 <= B) as HAB.
    { pose proof (byte_of_range c1).
      destruct (decide (utf8.byte_of c0 = 224)) as [He|Hne].
      - right. specialize (Hlo He). subst B. Z.div_mod_to_equations. lia.
      - left. subst A. Z.div_mod_to_equations. lia. }
    change (2 ^ 4) with 16 in *. change (2 ^ 6) with 64 in *.
    change (2 ^ 12) with 4096 in *.
    split; [lia|lia].
  - split; [lia|]. unfold dec4.
    change utf8.mask4 with (Z.ones 3). change utf8.maskx with (Z.ones 6).
    destruct (field_bounds (utf8.byte_of c0) 3 18) as [-> H0]; [lia|lia|].
    destruct (field_bounds (utf8.byte_of c1) 6 12) as [-> H1]; [lia|lia|].
    destruct (field_bounds (utf8.byte_of c2) 6 6) as [-> H2]; [lia|lia|].
    rewrite (Z.land_ones (utf8.byte_of c3) 6) by lia.
    pose proof (Z.mod_pos_bound (utf8.byte_of c3) (2 ^ 6) ltac:(lia)) as H3.
    set (A := utf8.byte_of c0 mod 2 ^ 3 * 2 ^ 18) in *.
    set (B := utf8.byte_of c1 mod 2 ^ 6 * 2 ^ 12) in *.
    set (C := utf8.byte_of c2 mod 2 ^ 6 * 2 ^ 6) in *.
    set (D := utf8.byte_of c3 mod 2 ^ 6) in *.
    pose proof (lor_ge_l A B ltac:(lia) ltac:(lia)).
    pose proof (lor_le_add A B ltac:(lia) ltac:(lia)).
    pose proof (lor_ge_l B A ltac:(lia) ltac:(lia)) as HB. rewrite Z.lor_comm in HB.
    pose proof (lor_ge_l (Z.lor A B) C ltac:(lia) ltac:(lia)).
    pose proof (lor_le_add (Z.lor A B) C ltac:(lia) ltac:(lia)).
    pose proof (lor_ge_l (Z.lor (Z.lor A B) C) D ltac:(lia) ltac:(lia)).
    pose proof (lor_le_add (Z.lor (Z.lor A B) C) D ltac:(lia) ltac:(lia)).
    assert (128 <= A \/ 128 <= B) as HAB.
    { pose proof (byte_of_range c1).
      destruct (decide (utf8.byte_of c0 = 240)) as [He|Hne].
      - right. specialize (Hlo He). subst B. Z.div_mod_to_equations. lia.
      - left. subst A. Z.div_mod_to_equations. lia. }
    change (2 ^ 3) with 8 in *. change (2 ^ 6) with 64 in *.
    change (2 ^ 12) with 4096 in *. change (2 ^ 18) with 262144 in *.
    split; [lia|lia].
Qed.

Lemma length_drop_bytes w s :
  (w <= String.length s)%nat ->
  String.length (drop_bytes w s) = (String.length s - w)%nat.
Proof.
  clear. revert s. induction w as [|w IH]; intros [|c s]; simpl; try lia.
  intros H. apply IH. lia.
Qed.

(** The loop over the runes ends within [len(s)] passes. *)
Lemma runes_from_enough n : forall m s,
  (String.length s <= n)%nat -> (String.length s <= m)%nat ->
  utf8.runes_from n s = utf8.runes_from m s.
Proof.
  clear. induction n as [|n IH]; intros m s Hn Hm.
  - destruct s; [|simpl in Hn; lia]. by destruct m.
  - destruct s as [|c0 t]; [by destruct m|].
    destruct m as [|m]; [simpl in Hm; lia|]. cbn [utf8.runes_from].
    pose proof (decoded_props c0 t _ (DecodeRune_decoded c0 t)) as (Hw & _).
    destruct (utf8.DecodeRuneInString (String c0 t)) as [r w]. simpl in Hw.
    f_equal. apply IH; rewrite length_drop_bytes by (simpl; lia); simpl in *; lia.
Qed.

(** Every rune is in range, and a rune below 128 is a byte of the
    string. *)
Lemma runes_from_bytes (Q : Z -> bool) n : forall s,
  all_bytes Q s = true ->
  Forall (fun r => 0 <= r < 2 ^ 32 /\ (r < 128 -> Q r = true)) (utf8.runes_from n s).
Proof.
  clear. induction n as [|n IH]; intros s Hs; [constructor|].
  destruct s as [|c0 t]; [constructor|]. cbn [utf8.runes_from].
  pose proof (decoded_props c0 t _ (DecodeRune_decoded c0 t)) as (Hw & Hr & Hlow).
  destruct (utf8.DecodeRuneInString (String c0 t)) as [r w]. simpl in *.
  constructor.
  - split; [done|]. intros Hlt. rewrite (Hlow Hlt).
    by apply andb_true_iff in Hs as [? _].
  - apply IH. by apply (all_bytes_drop Q w (String c0 t)).
Qed.

Lemma runes_from_length n : forall s,
  (length (utf8.runes_from n s) <= String.length s)%nat.
Proof.
  clear. induction n as [|n IH]; intros s; [simpl; lia|].
  destruct s as [|c0 t]; [simpl; lia|]. cbn [utf8.runes_from].
  pose proof (decoded_props c0 t _ (DecodeRune_decoded c0 t)) as (Hw & _).
  destruct (utf8.DecodeRuneInString (String c0 t)) as [r w]. simpl in Hw.
  specialize (IH (drop_bytes w (String c0 t))).
  rewrite length_drop_bytes in IH by (simpl; lia). simpl in *. lia.
Qed.

(** ** The text of a line outside of its tags *)

Definition is_blank (b : Z) : bool :=
  ((b =? 32) || (b =? 9) || (b =? 10) || (b =? 13))%bool.

(** Neither [<] nor [>]. *)
Definition no_angle (b : Z) : bool := (negb (b =? 60) && negb (b =? 62))%bool.

Definition text_byte (b : Z) : bool := (no_angle b && negb (is_blank b))%bool.

(** The bytes of [s] outside of a tag: a tag opens at [<] and ends at the
    next [>]; [inTag] tells whether [s] starts within a tag. *)
Fixpoint text_bytes (inTag : bool) (s : string) : list Z :=
  match s with
  | EmptyString => []
  | String c r =>
      let b := utf8.byte_of c in
      if b =? 60 then text_bytes true r
      else if b =? 62 then text_bytes false r
      else if inTag then text_bytes true r
      else b :: text_bytes false r
  end.

(** Whether the end of [s] is within a tag. *)
Fixpoint tag_after (inTag : bool) (s : string) : bool :=
  match s with
  | EmptyString => inTag
  | String c r =>
      let b := utf8.byte_of c in
      if b =? 60 then tag_after true r
      else if b =? 62 then tag_after false r
      else tag_after inTag r
  end.

Lemma text_bytes_app a : forall i b,
  text_bytes i (a +:+ b) = text_bytes i a ++ text_bytes (tag_after i a) b.
Proof.
  clear. induction a as [|c a IH]; intros i b.
  - by rewrite append_nil_l.
  - rewrite append_cons. cbn [text_bytes tag_after]. cbv zeta.
    destruct (utf8.byte_of c =? 60); [apply IH|].
    destruct (utf8.byte_of c =? 62); [apply IH|].
    destruct i; [apply IH|]. simpl. f_equal. apply IH.
Qed.

Lemma tag_after_app a : forall i b,
  tag_after i (a +:+ b) = tag_after (tag_after i a) b.
Proof.
  clear. induction a as [|c a IH]; intros i b.
  - by rewrite append_nil_l.
  - rewrite append_cons. cbn [tag_after]. cbv zeta.
    destruct (utf8.byte_of c =? 60); [apply IH|].
    destruct (utf8.byte_of c =? 62); apply IH.
Qed.

Lemma no_angle_text s :
  all_bytes no_angle s = true ->
  forall i, tag_after i s = i /\ text_bytes true s = [].
Proof.
  clear. induction s as [|c s IH]; [done|].
  cbn [all_bytes text_bytes tag_after]. cbv zeta. unfold no_angle at 1.
  intros [[H1 H2]%andb_true_iff H3]%andb_true_iff i.
  apply negb_true_iff in H1, H2. rewrite H1, H2. by apply IH.
Qed.

Lemma text_byte_text s :
  all_bytes text_byte s = true ->
  forall i, tag_after i s = i /\
            Forall (fun b => is_blank b = false) (text_bytes i s).
Proof.
  clear. induction s as [|c s IH]; [done|].
  cbn [all_bytes text_bytes tag_after]. cbv zeta. unfold text_byte at 1, no_angle.
  intros [[[H1 H2]%andb_true_iff Hb]%andb_true_iff H3]%andb_true_iff i.
  apply negb_true_iff in H1, H2, Hb. rewrite H1, H2.
  destruct (IH H3 i) as [Ht Hf]. split; [done|].
  destruct i; [done|]. by constructor.
Qed.

Lemma high_text_byte s : all_bytes high s = true -> all_bytes text_byte s = true.
Proof.
  clear. apply all_bytes_impl. intros b _ Hb. unfold high in Hb.
  apply Z.leb_le in Hb. unfold text_byte, no_angle, is_blank.
  repeat match goal with |- context [?x =? ?y] =>
    destruct (Z.eqb_spec x y); [lia|] end. done.
Qed.

Lemma text_byte_no_angle s : all_bytes text_byte s = true -> all_bytes no_angle s = true.
Proof.
  clear. apply all_bytes_impl. intros b _. unfold text_byte.
  by intros [? _]%andb_true_iff.
Qed.

(** What [WriteRune] writes for a rune that is not an angle bracket. *)
Lemma AppendRune_no_angle r :
  0 <= r < 2 ^ 32 -> r <> 60 -> r <> 62 ->
  all_bytes no_angle (utf8.AppendRune r) = true.
Proof.
  clear. intros Hr H60 H62.
  destruct (AppendRune_bytes r Hr) as [[Hlt ->]|[_ Hh]].
  - cbn [all_bytes]. rewrite byte_of_ascii_of_byte by lia. unfold no_angle.
    destruct (Z.eqb_spec r 60); [done|]. by destruct (Z.eqb_spec r 62).
  - by apply text_byte_no_angle, high_text_byte.
Qed.

Lemma AppendRune_text_byte r :
  0 <= r < 2 ^ 32 -> (r < 128 -> no_angle r = true) -> is_blank r = false ->
  all_bytes text_byte (utf8.AppendRune r) = true.
Proof.
  clear. intros Hr Hang Hb.
  destruct (AppendRune_bytes r Hr) as [[Hlt ->]|[_ Hh]].
  - cbn [all_bytes]. rewrite byte_of_ascii_of_byte by lia. unfold text_byte.
    by rewrite (Hang Hlt), Hb.
  - by apply high_text_byte.
Qed.

(** ** [normalizeTextWhitespace] *)

Definition rune_ok (Q : Z -> bool) (r : Z) : Prop :=
  0 <= r < 2 ^ 32 /\ (r < 128 -> Q r = true).

Lemma runes_ok Q s : all_bytes Q s = true -> Forall (rune_ok Q) (utf8.runes s).
Proof. clear. apply runes_from_bytes. Qed.

Lemma runes_in_range s : Forall (fun r => 0 <= r < 2 ^ 32) (utf8.runes s).
Proof.
  clear. eapply Forall_impl; [apply (runes_ok (fun _ => true))|].
  - induction s; simpl; auto.
  - by intros r [? _].
Qed.

Lemma segment_step_text acc r :
  rune_ok no_angle r ->
  all_bytes text_byte acc.1 = true ->
  all_bytes text_byte (highlight.segment_step acc r).1 = true.
Proof.
  clear. intros [Hr Hang] Hacc. destruct acc as [segOut only]. simpl in Hacc.
  unfold highlight.segment_step.
  destruct (Z.eqb_spec r 32) as [->|H32].
  { simpl. by rewrite all_bytes_app, Hacc. }
  destruct (Z.eqb_spec r 9) as [->|H9].
  { simpl. by rewrite !all_bytes_app, Hacc. }
  destruct (Z.eqb_spec r 10) as [->|H10]; [done|].
  destruct (Z.eqb_spec r 13) as [->|H13]; [done|].
  simpl. rewrite all_bytes_app, Hacc. simpl.
  apply AppendRune_text_byte; [done|done|]. unfold is_blank.
  repeat match goal with |- context [?x =? ?y] =>
    destruct (Z.eqb_spec x y); [lia|] end. done.
Qed.

Lemma segment_text l : forall acc,
  Forall (rune_ok no_angle) l ->
  all_bytes text_byte acc.1 = true ->
  all_bytes text_byte (fold_left highlight.segment_step l acc).1 = true.
Proof.
  clear. induction l as [|r l IH]; intros acc Hl Hacc; [done|].
  inversion Hl; subst. simpl. apply IH; [done|]. by apply segment_step_text.
Qed.

(** The state between two runes: the text written so far has no blank
    byte, [inTag] is as the output tells, and the pending text has no
    angle bracket. *)
Definition norm_ok (st : highlight.norm) : Prop :=
  Forall (fun b => is_blank b = false) (text_bytes false (highlight.out st)) /\
  tag_after false (highlight.out st) = highlight.inTag st /\
  all_bytes no_angle (highlight.textBuf st) = true.

Lemma flushText_ok st :
  norm_ok st ->
  norm_ok (highlight.flushText st) /\
  highlight.inTag (highlight.flushText st) = highlight.inTag st.
Proof.
  clear. intros (Hout & Htag & Hbuf). unfold highlight.flushText.
  destruct (String.length (highlight.textBuf st) =? 0)%nat; [done|].
  pose proof (segment_text (utf8.runes (highlight.textBuf st)) (EmptyString, true)
                (runes_ok _ _ Hbuf) eq_refl) as Hseg.
  destruct (fold_left highlight.segment_step _ _) as [segOut only]. simpl in Hseg.
  set (seg := if only then segOut +:+ highlight.zwsp else segOut).
  assert (all_bytes text_byte seg = true) as Hs.
  { subst seg. destruct only; [|done]. by rewrite all_bytes_app, Hseg. }
  split; [|done]. unfold norm_ok. cbn [highlight.out highlight.inTag highlight.textBuf].
  rewrite text_bytes_app, tag_after_app, Htag.
  destruct (text_byte_text seg Hs (highlight.inTag st)) as [-> Hf].
  split; [|done]. by apply Forall_app.
Qed.

Lemma push_tag_ok o i t s :
  norm_ok (highlight.mkNorm o i t) ->
  (i = true \/ s = String ">" EmptyString) \/ s = String "<" EmptyString ->
  all_bytes no_angle s = true \/ s = String ">" EmptyString \/ s = String "<" EmptyString ->
  norm_ok (highlight.mkNorm (o +:+ s) (tag_after i s) t).
Proof.
  clear. intros (Hout & Htag & Hbuf) Hin Hs. unfold norm_ok in *.
  cbn [highlight.out highlight.inTag highlight.textBuf] in *.
  rewrite text_bytes_app, tag_after_app, Htag. split; [|done].
  apply Forall_app. split; [done|].
  destruct Hs as [Hs|[-> | ->]]; [|done|done].
  destruct Hin as [[-> | ->] | ->]; [|done|done].
  by rewrite (proj2 (no_angle_text s Hs true)).
Qed.

Lemma norm_step_ok st r :
  0 <= r < 2 ^ 32 -> norm_ok st -> norm_ok (highlight.norm_step st r).
Proof.
  clear. intros Hr Hst. unfold highlight.norm_step.
  destruct (Z.eqb_spec r 60) as [->|H60].
  { change (utf8.AppendRune 60) with (String "<" EmptyString).
    destruct (highlight.inTag st) eqn:Hi; cbn [negb].
    - destruct st as [o i t]. simpl in Hi. subst i.
      apply (push_tag_ok o true t (String "<" EmptyString)); auto.
    - destruct (flushText_ok st Hst) as [Hf _].
      destruct (highlight.flushText st) as [o i t].
      cbn [highlight.out highlight.inTag highlight.textBuf].
      destruct Hf as (Hout & _ & Hbuf).
      unfold norm_ok in *. cbn [highlight.out highlight.inTag highlight.textBuf] in *.
      rewrite text_bytes_app, tag_after_app. split; [|done].
      apply Forall_app. by split. }
  destruct (Z.eqb_spec r 62) as [->|H62].
  { change (utf8.AppendRune 62) with (String ">" EmptyString).
    destruct st as [o i t]. cbn [highlight.out highlight.inTag highlight.textBuf].
    pose proof (push_tag_ok o i t (String ">" EmptyString) Hst) as H.
    change (tag_after i (String ">" EmptyString)) with false in H.
    destruct i; apply H; auto. }
  pose proof (AppendRune_no_angle r Hr H60 H62) as Ha.
  destruct st as [o i t]. cbn [highlight.out highlight.inTag highlight.textBuf].
  destruct i.
  - pose proof (push_tag_ok o true t (utf8.AppendRune r) Hst) as H.
    rewrite (proj1 (no_angle_text _ Ha true)) in H. apply H; auto.
  - destruct Hst as (Hout & Htag & Hbuf). unfold norm_ok in *.
    cbn [highlight.out highlight.inTag highlight.textBuf] in *.
    by rewrite all_bytes_app, Hbuf, Ha.
Qed.

Lemma norm_loop_ok l : forall st,
  Forall (fun r => 0 <= r < 2 ^ 32) l -> norm_ok st ->
  norm_ok (fold_left highlight.norm_step l st).
Proof.
  clear. induction l as [|r l IH]; intros st Hl Hst; [done|].
  inversion Hl; subst. simpl. apply IH; [done|]. by apply norm_step_ok.
Qed.

Lemma normalize_text input :
  Forall (fun b => is_blank b = false)
         (text_bytes false (highlight.normalizeTextWhitespace input)).
Proof.
  clear. unfold highlight.normalizeTextWhitespace.
  assert (norm_ok (highlight.mkNorm EmptyString false EmptyString)) as H0.
  { unfold norm_ok. simpl. by split. }
  pose proof (norm_loop_ok _ _ (runes_in_range input) H0) as H.
  by destruct (flushText_ok _ H) as [(? & _) _].
Qed.

(** ** [extractChromaLines] and [RenderLines] *)

(** A line as [extractChromaLines] returns it: a body that is not blank
    within the [chroma] span, and no blank byte outside of the tags. *)
Definition rendered_line (l : HTML) : Prop :=
  exists body,
    l = highlight.chromaOpen +:+ body +:+ highlight.spanClose /\
    TrimSpace body <> EmptyString /\
    Forall (fun b => b <> 32 /\ b <> 9 /\ b <> 10 /\ b <> 13) (text_bytes false l).

Lemma not_blank l :
  Forall (fun b => is_blank b = false) l ->
  Forall (fun b => b <> 32 /\ b <> 9 /\ b <> 10 /\ b <> 13) l.
Proof.
  clear. intros H. eapply Forall_impl; [exact H|]. intros b. unfold is_blank.
  repeat match goal with |- context [?x =? ?y] =>
    destruct (Z.eqb_spec x y); [done|] end. done.
Qed.

Lemma chroma_line body :
  TrimSpace body <> EmptyString ->
  Forall (fun b => is_blank b = false) (text_bytes false body) ->
  rendered_line (highlight.chromaOpen +:+ body +:+ highlight.spanClose).
Proof.
  clear. intros Hne Hbody. exists body. split; [done|]. split; [done|].
  rewrite !text_bytes_app.
  change (text_bytes false highlight.chromaOpen) with (@nil Z).
  change (tag_after false highlight.chromaOpen) with false.
  assert (text_bytes (tag_after false body) highlight.spanClose = []) as ->
    by (by destruct (tag_after false body)).
  rewrite app_nil_l, app_nil_r. by apply not_blank.
Qed.

Lemma extract_loop_lines n : forall remaining lines,
  Forall rendered_line lines ->
  (length (highlight.extract_loop n remaining lines) <= length lines + n)%nat /\
  Forall rendered_line (highlight.extract_loop n remaining lines).
Proof.
  clear. induction n as [|n IH]; intros remaining lines Hl;
    cbn [highlight.extract_loop]; cbv zeta.
  { split; [lia|done]. }
  destruct (Index remaining highlight.lineOpen) as [lineIdx|]; [|split; [lia|done]].
  destruct (Index _ highlight.clOpen) as [clIdx|]; [|split; [lia|done]].
  destruct (Index _ highlight.lineClose) as [endIdx|]; [|split; [lia|done]].
  match goal with |- context [highlight.extract_loop n ?r (lines ++ [?l])] =>
    generalize r; intros rest; assert (rendered_line l) as Hline end.
  { match goal with |- context [String.eqb ?a EmptyString] =>
      destruct (String.eqb_spec a EmptyString) as [He|Hne] end.
    - apply chroma_line; [by vm_compute|]. vm_compute. by repeat constructor.
    - apply chroma_line; [done|]. apply normalize_text. }
  match goal with |- context [highlight.extract_loop n rest (lines ++ [?l])] =>
    generalize dependent l; intros line Hline end.
  destruct (IH rest (lines ++ [line])) as [Hlen Hall].
  { apply Forall_app. split; [done|]. by constructor. }
  split; [|done]. rewrite length_app in Hlen. cbn [length] in Hlen. lia.
Qed.

(** X22.  [RenderLines] returns at most one line for every source line,
    whatever the highlighter gives: each one is a body within
    [<span class="chroma">] and [</span>], the body is not blank, and
    outside of the tags of the line there is no space, tab, line feed or
    carriage return. *)
Theorem RenderLines_lines (chroma : string -> string -> option string)
    (path : string) (lines : list string) :
  (length (highlight.RenderLines chroma path lines) <= length lines)%nat /\
  Forall rendered_line (highlight.RenderLines chroma path lines).
Proof.
  clear. unfold highlight.RenderLines.
  destruct (chroma path _) as [htmlIn|]; [|split; [simpl; lia|done]].
  unfold highlight.extractChromaLines, len. rewrite Nat2Z.id.
  destruct (extract_loop_lines (length lines) htmlIn [] ltac:(constructor)) as [H1 H2].
  split; [simpl in H1; lia|done].
Qed.

(** X23.  In what [normalizeTextWhitespace] returns, no space, tab, line
    feed or carriage return is left outside of a tag, for any input, valid
    UTF-8 or not. *)
Theorem normalized_text_no_whitespace (input : string) :
  Forall (fun b => b <> 32 /\ b <> 9 /\ b <> 10 /\ b <> 13)
         (text_bytes false (highlight.normalizeTextWhitespace input)).
Proof. clear. apply not_blank, normalize_text. Qed.

(** A [>] outside of a tag is written at once, before the text that is
    still pending: the text is not kept in order. *)
Remark normalize_angle_order :
  highlight.normalizeTextWhitespace "a>b" = ">ab".
Proof. clear. by vm_compute. Qed.

(** ** The template function [id] *)

Definition id_byte (b : Z) : bool := (is_alnum b || (b =? 45))%bool.

Lemma length_append a b :
  String.length (a +:+ b) = (String.length a + String.length b)%nat.
Proof.
  clear. induction a as [|c a IH].
  - by rewrite append_nil_l.
  - rewrite append_cons. simpl. by rewrite IH.
Qed.

Lemma id_loop l : forall acc,
  Forall (fun r => 0 <= r < 2 ^ 32) l ->
  all_bytes id_byte acc = true ->
  let res := fold_left (fun b r => if is_alnum r then b +:+ utf8.AppendRune r
                                   else b +:+ "-") l acc in
  all_bytes id_byte res = true /\
  String.length res = (String.length acc + length l)%nat.
Proof.
  clear. induction l as [|r l IH]; intros acc Hl Hacc; [simpl; split; [done|lia]|].
  inversion Hl as [|? ? Hr Hl']; subst. cbn [fold_left]. cbv zeta.
  destruct (is_alnum r) eqn:Hal.
  - assert (r < 128) as Hlt.
    { unfold is_alnum in Hal.
      repeat match type of Hal with context [?x <=? ?y] =>
        destruct (Z.leb_spec x y) end; simpl in Hal; try done; lia. }
    destruct (AppendRune_bytes r Hr) as [[_ Ha]|[? _]]; [|lia]. rewrite Ha.
    destruct (IH (acc +:+ String (utf8.ascii_of_byte r) EmptyString) Hl') as [H1 H2].
    { rewrite all_bytes_app, Hacc. cbn [all_bytes].
      rewrite byte_of_ascii_of_byte by lia. unfold id_byte. by rewrite Hal. }
    split; [done|]. rewrite H2, length_append. simpl. lia.
  - destruct (IH (acc +:+ "-") Hl') as [H1 H2].
    { by rewrite all_bytes_app, Hacc. }
    split; [done|]. rewrite H2, length_append. simpl. lia.
Qed.

(** X24.  The template function [id] returns letters, digits and hyphens
    only, one byte for every rune of its argument: never more bytes than
    the argument has. *)
Theorem template_id_bytes (s : string) :
  all_bytes id_byte (template_id s) = true /\
  String.length (template_id s) = length (utf8.runes s) /\
  (String.length (template_id s) <= String.length s)%nat.
Proof.
  clear. unfold template_id.
  destruct (id_loop (utf8.runes s) EmptyString (runes_in_range s) eq_refl) as [H1 H2].
  cbv zeta in H1, H2. simpl in H2. split; [done|]. split; [done|].
  rewrite H2. apply runes_from_length.
Qed.

(** Two paths that differ in a separator only have the same id. *)
Remark template_id_collision : template_id "a/b.go" = template_id "a.b/go".
Proof. clear. by vm_compute. Qed.

(** ** [fixWhitespaceSpans] *)

(** X25.  [fixWhitespaceSpans] changes whitespace spans only: an input
    in which [<span class="w">] does not occur is returned as it is. *)
Theorem fixWhitespaceSpans_without_span (input : string) :
  Index input highlight.wOpen = None ->
  highlight.fixWhitespaceSpans input = input.
Proof.
  clear. unfold highlight.fixWhitespaceSpans.
  induction input as [|c r IH]; [done|]. intros Hi.
  assert (HasPrefix (String c r) highlight.wOpen = false /\
          Index r highlight.wOpen = None) as [Hp Hr].
  { cbn [Index] in Hi. destruct (HasPrefix (String c r) highlight.wOpen); [done|].
    split; [done|]. by destruct (Index r highlight.wOpen). }
  cbn [highlight.replace_spans]. unfold highlight.span_at. rewrite Hp.
  by rewrite (IH Hr).
Qed.

(** A second pass is not without effect: every whitespace span gets one
    more zero-width space. *)
Remark fixWhitespaceSpans_again :
  let span := highlight.wOpen +:+ " " +:+ highlight.spanClose in
  highlight.fixWhitespaceSpans span =
    highlight.wOpen +:+ "&nbsp;&#8203;" +:+ highlight.spanClose /\
  highlight.fixWhitespaceSpans (highlight.fixWhitespaceSpans span) =
    highlight.wOpen +:+ "&nbsp;&#8203;&#8203;" +:+ highlight.spanClose.
Proof. clear. by vm_compute. Qed.

End Collaborators.

(* ===================================================================== *)
(** * Concrete sessions *)
(* ===================================================================== *)

(** Stand-ins for the collaborators, to run the projector and the handlers
    on concrete data: markdown and highlighting that return their input,
    case folding that does nothing. *)
Definition plain_markdown (s : string) : HTML := s.
Definition plain_lines (path : string) (lines : list string) : list HTML := lines.
Definition plain_lower (s : string) : string := s.

(** The diff file and the comment of [TestBuildViewDiffCommentsNewLinesOnly]. *)
Definition test_hunk : DiffHunk :=
  mkDiffHunk 1 1 1 1 [mkDiffLine DiffDel 1 0 "old"; mkDiffLine DiffAdd 0 1 "new"].
Definition test_diff : DiffFile := mkDiffFile "" "" "x.go" [test_hunk].
Definition test_comments : list Comment := [mkComment "x.go" 1 1 "hi"].

(** [TestBuildViewDiffCommentsNewLinesOnly]: the deleted line is neither
    selected nor commented, the added line is both. *)
Example test_view_diff :
  buildViewDiff plain_markdown plain_lines test_diff test_comments 1 1 false =
  mkViewDiffFile "x.go"
    [mkViewDiffHunk "@@ -1,1 +1,1 @@"
       [mkViewDiffLine DiffDel 1 0 "old" "" false false [];
        mkViewDiffLine DiffAdd 0 1 "new" "" true true
          [mkViewComment (mkComment "x.go" 1 1 "hi") "hi"]]].
Proof. by vm_compute. Qed.

(** [TestDiffLineExists]: the added line 3 can be clicked, the deleted
    line 2 cannot. *)
Example test_diffLineExists :
  let df := mkDiffFile "" "" "x.go"
              [mkDiffHunk 0 0 0 0 [mkDiffLine DiffAdd 0 3 ""; mkDiffLine DiffDel 2 0 ""]] in
  diffLineExists [df] "x.go" 3 = true /\ diffLineExists [df] "x.go" 2 = false.
Proof. by vm_compute. Qed.

(** White space around a comment goes, also the no-break space U+00A0
    (bytes 194, 160) and the em space U+2003 (bytes 226, 128, 131). *)
Example TrimSpace_unicode :
  TrimSpace (of_bytes [194; 160; 32; 111; 107; 32; 33; 226; 128; 131; 9; 10]%nat) = "ok !".
Proof. by vm_compute. Qed.

Lemma diff_line_selection_witness :
  exists vh vl,
    VDHunks (buildViewDiff plain_markdown plain_lines test_diff test_comments 1 1 false)
      !! 0%nat = Some vh /\
    VDLines vh !! 1%nat = Some vl /\ VDSelected vl = true.
Proof.
  destruct (diff_line_selection plain_markdown plain_lines test_diff test_comments 1 1
              false 0 1 test_hunk (mkDiffLine DiffAdd 0 1 "new") eq_refl eq_refl)
    as (vh & vl & Hvh & Hvl & _ & _ & _ & _ & _ & Hsel & _).
  exists vh, vl. split; [exact Hvh|]. split; [exact Hvl|].
  apply Hsel. split; [reflexivity|]. simpl. lia.
Defined.

(** A file of eight lines and a comment on its lines 5 to 7. *)
Definition eight_lines : File :=
  mkFile "a.go" "a.go" ["l1"; "l2"; "l3"; "l4"; "l5"; "l6"; "l7"; "l8"].
Definition comment_5_7 : Comment := mkComment "a.go" 5 7 "why?".

(** The lines 5, 6 and 7 are flagged; the body is on line 5 only. *)
Example eight_lines_view :
  option_map (List.map (fun vl => (Number vl, Commented vl, Comments vl)))
    (buildViewLines plain_markdown eight_lines [comment_5_7] 0 0 []) =
  Some [(1, false, []); (2, false, []); (3, false, []); (4, false, []);
        (5, true, [mkViewComment comment_5_7 "why?"]);
        (6, true, []); (7, true, []); (8, false, [])].
Proof. by vm_compute. Qed.

Lemma comment_anchoring_witness :
  anchoring_rule plain_markdown "a.go" 6 [comment_5_7] true [].
Proof.
  destruct (proj1 (comment_anchoring plain_markdown plain_lines)
              eight_lines [comment_5_7] 0 0 [] []) as (lines & Heq & Hrule).
  vm_compute in Heq. injection Heq as <-.
  apply (Hrule (mkViewLine 6 "l6" "" false true [])).
  do 5 apply list_elem_of_further. apply list_elem_of_here.
Defined.

(** A session in file mode on a file of three lines, nothing selected. *)
Definition three_lines : File := mkFile "a.go" "a.go" ["package a"; ""; "var x int"].

Definition session0 : ReviewModel :=
  mkReviewModel [three_lines] [] [] "a.go" "a.go" "" ModeFile false true "" ""
    0 0 "" [] ∅ ∅ (mkViewFile "a.go" [] false false "") (mkViewDiffFile "" []) "".

(** The same session with line 5 selected. *)
Definition session5 : ReviewModel := set_Selection session0 5 5.

(** A session in diff mode on one file with a hunk of a context line, a
    deleted line, an added line and four more context lines; the new side
    has the numbers 1 to 6, and the deleted line is old line 2. *)
Definition review_hunk : DiffHunk :=
  mkDiffHunk 1 6 1 6
    [mkDiffLine DiffContext 1 1 "a"; mkDiffLine DiffDel 2 0 "b";
     mkDiffLine DiffAdd 0 2 "B"; mkDiffLine DiffContext 3 3 "c";
     mkDiffLine DiffContext 4 4 "d"; mkDiffLine DiffContext 5 5 "e";
     mkDiffLine DiffContext 6 6 "f"].

Definition review_diff : DiffFile := mkDiffFile "x.go" "x.go" "x.go" [review_hunk].

Definition diff_session0 : ReviewModel :=
  mkReviewModel [] [review_diff] [] "x.go" "x.go" "" ModeDiff false true "" ""
    0 0 "" [] ∅ ∅ (mkViewFile "" [] false false "") (mkViewDiffFile "x.go" []) "".

(** The same session with line 5 selected. *)
Definition diff_session5 : ReviewModel := set_Selection diff_session0 5 5.

(** In diff mode: the added line 2 can be clicked, and with shift from
    the selection {5, 5} gives {2, 5}; the number 9 is on no line, and the
    click on it changes nothing. *)
Lemma select_line_behaviour_witness :
  Mode diff_session5 = ModeDiff /\
  click_taken diff_session5 2 /\
  (exists m', selectLine plain_markdown plain_lines plain_lower diff_session5 2 "1" = Some m' /\
     SelectionStart m' = 2 /\ SelectionEnd m' = 5) /\
  ~ new_line_of diff_session5 9 /\
  selectLine plain_markdown plain_lines plain_lower diff_session5 9 "" = Some diff_session5.
Proof.
  assert (click_taken diff_session5 2) as Htaken.
  { split; [lia|]. intros _.
    exists review_diff, review_hunk, (mkDiffLine DiffAdd 0 2 "B").
    split; [reflexivity|]. split; [apply list_elem_of_here|].
    split; [do 2 apply list_elem_of_further; apply list_elem_of_here|].
    split; [reflexivity|]. intros H. discriminate H. }
  assert (~ new_line_of diff_session5 9) as Hno.
  { intros H.
    apply (diffLineExists_spec (DiffFiles diff_session5) (SelectedPath diff_session5) 9) in H.
    vm_compute in H. discriminate H. }
  split; [reflexivity|]. split; [exact Htaken|]. split; [|split; [exact Hno|]].
  - destruct (proj1 (proj2 (select_line_behaviour plain_markdown plain_lines plain_lower))
                diff_session5 2 Htaken) as (m' & Heq & Hs & He & _).
    + simpl. lia.
    + simpl. lia.
    + exists m'. split; [exact Heq|]. split; [exact Hs|exact He].
  - exact (proj1 (proj2 (proj2 (proj2
             (select_line_behaviour plain_markdown plain_lines plain_lower))))
             diff_session5 9 "" eq_refl Hno).
Defined.

Lemma add_comment_behaviour_witness :
  exists m', addComment plain_markdown plain_lines plain_lower session5 " fix this " = Some m' /\
    MComments m' = [mkComment "a.go" 5 5 "fix this"] /\
    SelectionStart m' = 0 /\ SelectionEnd m' = 0.
Proof.
  destruct (proj1 (proj2 (add_comment_behaviour plain_markdown plain_lines plain_lower))
              session5 " fix this ") as (m' & Heq & Hc & Hs & He & _).
  - vm_compute. discriminate.
  - simpl. lia.
  - simpl. lia.
  - exists m'. split; [exact Heq|]. split; [exact Hc|]. split; [exact Hs|exact He].
Defined.

(** Line 100 of a file of three lines. *)
Lemma file_mode_line_unchecked_witness :
  len (FLines three_lines) = 3 /\
  exists m1 m2,
    selectLine plain_markdown plain_lines plain_lower session0 100 "" = Some m1 /\
    addComment plain_markdown plain_lines plain_lower m1 "x" = Some m2 /\
    MComments m2 = [mkComment "a.go" 100 100 "x"].
Proof.
  split; [reflexivity|].
  destruct (file_mode_line_unchecked plain_markdown plain_lines plain_lower
              session0 100 "" "x") as (m1 & m2 & H1 & _ & _ & H2 & Hc & _).
  - vm_compute. discriminate.
  - lia.
  - discriminate.
  - vm_compute. discriminate.
  - exists m1, m2. split; [exact H1|]. split; [exact H2|exact Hc].
Defined.

(* ===================================================================== *)
(** * Concrete inputs for the properties of the parser and of the ranges *)
(* ===================================================================== *)

(** The deleted line of scenario A has no new-side number. *)
Lemma parsed_line_kinds_witness :
  Kind (mkDiffLine DiffDel 2 0 "line2") = DiffContext \/
  (Kind (mkDiffLine DiffDel 2 0 "line2") = DiffAdd /\
   OldLine (mkDiffLine DiffDel 2 0 "line2") = 0) \/
  (Kind (mkDiffLine DiffDel 2 0 "line2") = DiffDel /\
   NewLine (mkDiffLine DiffDel 2 0 "line2") = 0).
Proof.
  apply (parsed_line_kinds scenarioA scenarioA_file scenarioA_hunk).
  - vm_compute. apply list_elem_of_here.
  - vm_compute. apply list_elem_of_here.
  - vm_compute. apply list_elem_of_further, list_elem_of_here.
Defined.

(** The file of [TestParseUnifiedDiff]. *)
Definition hello_file : DiffFile :=
  mkDiffFile "hello.txt" "hello.txt" "hello.txt"
    [mkDiffHunk 1 3 1 4 (scenarioA_lines ++ [mkDiffLine DiffContext 4 5 ""])].

Lemma parsed_text_single_line_witness :
  has_byte LF (Text (mkDiffLine DiffAdd 0 2 "line2-new")) = false.
Proof.
  apply (proj2 (parsed_text_single_line test_fixture) hello_file
           (mkDiffHunk 1 3 1 4 (scenarioA_lines ++ [mkDiffLine DiffContext 4 5 ""]))).
  - vm_compute. apply list_elem_of_here.
  - vm_compute. apply list_elem_of_here.
  - vm_compute. do 2 apply list_elem_of_further. apply list_elem_of_here.
Defined.

Lemma parsed_display_path_witness :
  hello_file ∈ (parseUnifiedDiff test_fixture).1 /\ DPath hello_file = NewPath hello_file.
Proof.
  assert (hello_file ∈ (parseUnifiedDiff test_fixture).1) as Hf
    by (vm_compute; apply list_elem_of_here).
  split; [exact Hf|].
  apply (parsed_display_path test_fixture hello_file Hf). discriminate.
Defined.

Lemma parsed_counts_witness :
  hunk_total [hello_file] = length (List.filter is_header (input_lines test_fixture)) /\
  length [hello_file] =
    (length (List.filter is_git (input_lines test_fixture)) +
     if implicit_first (input_lines test_fixture) then 1 else 0)%nat.
Proof.
  apply (parsed_counts test_fixture [hello_file]). by vm_compute.
Defined.

(** Overlapping, inverted and invalid ranges. *)
Definition mixed_ranges : list LineRange :=
  [mkLineRange 9 15; mkLineRange 10 5; mkLineRange 0 3; mkLineRange 20 22].

Lemma normalizeRanges_normal_witness :
  exists out, normalizeRanges mixed_ranges = Some out /\
              normalizedb out = true /\ normalizeRanges out = Some out.
Proof.
  apply (normalizeRanges_normal mixed_ranges).
  repeat constructor.
Defined.

(** Of the eight lines, the ranges 7-6 and 2-3 and 3-4 show 2, 3, 4, 6, 7. *)
Lemma file_view_lines_witness :
  exists lines,
    buildViewLinesWithRanges plain_markdown eight_lines [] 0 0 []
      [mkLineRange 7 6; mkLineRange 2 3; mkLineRange 3 4] = Some lines /\
    Number <$> lines = [2; 3; 4; 6; 7].
Proof.
  destruct (file_view_lines plain_markdown eight_lines [] 0 0 []
              [mkLineRange 7 6; mkLineRange 2 3; mkLineRange 3 4])
    as (lines & Heq & Hnum & _).
  - repeat constructor.
  - exists lines. split; [exact Heq|]. exact Hnum.
Defined.


(** Two range flags for one path and one for another. *)
Lemma range_flags_stored_witness :
  has_byte ":" "a.go" = false /\
  [mkLineRange 10 20; mkLineRange 25 30] <> [] /\
  Forall stored_range [mkLineRange 10 20; mkLineRange 25 30].
Proof.
  apply (range_flags_stored ["a.go:10-20"; "a.go:30-25"; "b.go:5-8"]
           {[ "a.go" := [mkLineRange 10 20; mkLineRange 25 30];
              "b.go" := [mkLineRange 5 8] ]}).
  - by vm_compute.
  - by vm_compute.
Defined.

(* ===================================================================== *)
(** * A review of one file from start to finish *)
(* ===================================================================== *)

(** A file system with one file. *)
Definition demo_ReadFile (path : string) : string + string :=
  if String.eqb path "a.go" then inr (Join ["package a"; ""; "var x int"] nl)
  else inl "no such file or directory".

Definition demo_cfg : Config := mkConfig ["a.go"] "" "" ∅ "".

Definition demo_start : string + option ReviewModel :=
  Run plain_markdown plain_lines plain_lower demo_ReadFile demo_cfg 0.

(** The model that [Run] starts with. *)
Definition demo_model : ReviewModel :=
  match demo_start with
  | inr (Some m) => m
  | _ => session0
  end.

(** Select the lines 2 to 3, comment, then try an empty comment. *)
Definition demo_events : list event :=
  [EvSelectLine 3 ""; EvSelectLine 2 "1"; EvAddComment " why? ";
   EvToggleFileRender; EvAddComment "  "; EvSelectFile "b.go" 1; EvFinish].

Definition demo_final : ReviewModel :=
  default session0
    (for_each (handle plain_markdown plain_lines plain_lower) demo_events demo_model).

Remark demo_comments : MComments demo_final = [mkComment "a.go" 2 3 "why?"].
Proof. by vm_compute. Qed.

Lemma review_comments_anchored_witness :
  Files demo_final = Files demo_model /\
  DiffFiles demo_final = DiffFiles demo_model /\
  Mode demo_final = Mode demo_model.
Proof.
  destruct (review_comments_anchored plain_markdown plain_lines plain_lower
              demo_ReadFile demo_cfg 0 demo_model demo_events demo_final)
    as (H1 & H2 & H3 & _).
  - by vm_compute.
  - by vm_compute.
  - split; [exact H1|]. split; [exact H2|exact H3].
Defined.

Lemma review_never_panics_witness :
  exists m, for_each (handle plain_markdown plain_lines plain_lower)
              demo_events demo_model = Some m.
Proof.
  apply (review_never_panics plain_markdown plain_lines plain_lower
           demo_ReadFile demo_cfg 0 demo_model demo_events).
  by vm_compute.
Defined.

Lemma comments_append_only_witness :
  exists added,
    MComments demo_final = MComments demo_model ++ added /\
    (length added <= add_events demo_events)%nat.
Proof.
  apply (comments_append_only plain_markdown plain_lines plain_lower
           demo_events demo_model demo_final).
  by vm_compute.
Defined.

(** A diff that replaces the file [lib] by a directory [lib]: [Run]
    panics when it builds the tree. *)
Definition file_to_directory : string :=
  Join ["diff --git a/lib b/lib"; "--- a/lib"; "+++ /dev/null"; "@@ -1 +0,0 @@"; "-x";
        "diff --git a/lib/x.go b/lib/x.go"; "--- /dev/null"; "+++ b/lib/x.go";
        "@@ -0,0 +1 @@"; "+package lib"] nl.

Remark Run_panics_on_file_to_directory :
  (parseUnifiedDiff file_to_directory).2 = None /\
  List.map DPath (parseUnifiedDiff file_to_directory).1 = ["lib"; "lib/x.go"] /\
  Run plain_markdown plain_lines plain_lower demo_ReadFile
    (mkConfig [] "" "" ∅ file_to_directory) 0 = inr None.
Proof. split; [|split]; by vm_compute. Qed.


Lemma view_in_sync_witness :
  updateView plain_markdown plain_lines plain_lower demo_final = Some demo_final.
Proof.
  apply (view_in_sync plain_markdown plain_lines plain_lower
           demo_ReadFile demo_cfg 0 demo_model demo_events demo_final).
  - by vm_compute.
  - by vm_compute.
Defined.

Lemma toggle_twice_witness :
  for_each (handle plain_markdown plain_lines plain_lower)
    [EvToggleFileRender; EvToggleFileRender] demo_final = Some demo_final.
Proof.
  apply (proj1 (toggle_twice plain_markdown plain_lines plain_lower
                  demo_ReadFile demo_cfg 0 demo_model demo_events demo_final
                  ltac:(by vm_compute) ltac:(by vm_compute))).
Defined.

(* ===================================================================== *)
(** * A tree of four files *)
(* ===================================================================== *)

Definition file_at (path : string) : File := mkFile path path [].

Definition demo_files : list File :=
  [file_at "b.go"; file_at "a/x.go"; file_at "a.go"; file_at "Z.go"].

Definition demo_tree : list TreeItem :=
  default [] (buildTree demo_files "a/x.go").

(** Directories come first, then the files in the order of their bytes. *)
Remark demo_tree_entries :
  demo_tree =
    [mkTreeItem "a" "" 0 true false; mkTreeItem "x.go" "a/x.go" 1 false true;
     mkTreeItem "Z.go" "Z.go" 0 false false; mkTreeItem "a.go" "a.go" 0 false false;
     mkTreeItem "b.go" "b.go" 0 false false].
Proof. by vm_compute. Qed.

Lemma buildTree_lists_witness :
  mkTreeItem "x.go" "a/x.go" 1 false true ∈ demo_tree.
Proof.
  apply (buildTree_lists [file_at "b.go"] [file_at "a.go"; file_at "Z.go"]
           (file_at "a/x.go") "a/x.go" demo_tree).
  - by vm_compute.
  - intros g Hg [k Hk].
    apply elem_of_cons in Hg as [->|Hg]; [vm_compute in Hk; discriminate Hk|].
    apply elem_of_cons in Hg as [->|Hg]; [vm_compute in Hk; discriminate Hk|].
    by apply elem_of_nil in Hg.
Defined.

Lemma buildTree_items_witness :
  0 <= Depth (mkTreeItem "a" "" 0 true false).
Proof.
  apply (buildTree_items demo_files "a/x.go" demo_tree (mkTreeItem "a" "" 0 true false)).
  - by vm_compute.
  - vm_compute. apply list_elem_of_here.
Defined.

(** The map of the root in the order of the files and in another order. *)
Definition demo_root : treeNode :=
  default tree_root (for_each add_file [file_at "b.go"; file_at "a.go"] tree_root).

Definition demo_children : list (string * treeNode) := default [] (Children demo_root).

Lemma tree_order_determined_witness :
  sort_by entry_less (walked "" (-1) (List.rev demo_children)) =
  sort_by entry_less (walked "" (-1) demo_children).
Proof.
  apply (tree_order_determined [file_at "b.go"; file_at "a.go"] "" demo_root demo_root
           (-1) demo_children (List.rev demo_children)).
  - by vm_compute.
  - by left.
  - by vm_compute.
  - vm_compute. apply perm_swap.
  - apply sort_by_perm.
  - apply sort_by_sorted.
Defined.


Lemma fixWhitespaceSpans_without_span_witness :
  highlight.fixWhitespaceSpans "x := 1" = "x := 1".
Proof. apply fixWhitespaceSpans_without_span. reflexivity. Defined.


(** The ranges {1, MaxInt} and {5, 10} are what [--range] gives for a
    last line at or beyond the largest int, and with them the view of a
    file of eight lines shows the lines 5 to 8 twice. *)
Remark unmerged_ranges_repeat_lines :
  (forall m, ParseRangeFlag ["a.go:1-99999999999999999999"; "a.go:5-10"] = inr m ->
     m !! "a.go" = Some [mkLineRange 1 GoInt.MaxInt; mkLineRange 5 10]) /\
  option_map (List.map Number)
    (buildViewLinesWithRanges plain_markdown eight_lines [] 0 0 []
       [mkLineRange 1 GoInt.MaxInt; mkLineRange 5 10]) =
  Some [1; 2; 3; 4; 5; 6; 7; 8; 5; 6; 7; 8].
Proof.
  split; [|by vm_compute].
  intros m Hm. vm_compute in Hm. injection Hm as <-. by vm_compute.
Qed.
